(** * The server component of the service framework (RPC dispatcher)

    A shallow embedding of [ServerComponent] and of the helpers that build
    the outbound messages.  JavaScript values are an inductive type, the
    mutable component and its collaborators (socket, timing tracker, stream
    runtime) are one explicit state record, and a function that can throw
    is a state transformer returning either a value or the thrown value.
    A [throw] keeps every state change made before it, as in the source.

    What is taken from outside, as parameters: the local implementations
    (callables that throw or return, and do not touch the component), the
    conversions of the type registry for everything but interface types,
    and what the type registry says to a registration.

    How time is modelled: a deferred result is given already settled (or
    never settling), and its reactions run where they are attached; this
    keeps the messages of one request in their order, which is all that is
    stated here.  A stream delivers from inside [subscribe] or in later
    turns of the stream runtime, one pending event per turn; inbound
    messages and turns interleave freely (see [Activity]).  Logging is left
    out. *)

From stdpp Require Import gmap strings list fin_maps pretty.
From Stdlib Require Import ZArith.

Open Scope string_scope.

(** ** Values *)

(** The values the dispatcher looks at.  [VError] is an instance of the
    native [Error] class with its [message], [code] and [stack] fields;
    [VObject] is any other object, known by its reference. *)
Inductive jsval : Type :=
| VUndefined
| VNull
| VBool (b : bool)
| VNum (n : Z)
| VStr (s : string)
| VError (message : string) (code : jsval) (stack : string)
| VObject (ref : nat).

(** [new Error(message)]: no [code]; the stack starts with the message (the
    frames that follow it are left out). *)
Definition new_Error (message : string) : jsval :=
  VError message VUndefined ("Error: " ++ message).

(** A [TypeError] raised by the runtime itself is an [Error] instance. *)
Definition new_TypeError (message : string) : jsval :=
  VError message VUndefined ("TypeError: " ++ message).

(** Either a value or a thrown value (for an async function or a promise:
    fulfilled or rejected). *)
Inductive Result (A : Type) : Type :=
| Ok (a : A)
| Throw (e : jsval).
Arguments Ok {A} a.
Arguments Throw {A} e.

(** [value.toString()].  Reading a property of [null] or [undefined] is a
    [TypeError]; an object without a [toString] of its own prints as
    [[object Object]]. *)
Definition toString (v : jsval) : Result string :=
  match v with
  | VUndefined => Throw (new_TypeError "Cannot read property 'toString' of undefined")
  | VNull => Throw (new_TypeError "Cannot read property 'toString' of null")
  | VBool true => Ok "true"
  | VBool false => Ok "false"
  | VNum n => Ok (pretty n)
  | VStr s => Ok s
  | VError message _ _ => Ok ("Error: " ++ message)
  | VObject _ => Ok "[object Object]"
  end.

(** ** Error formatting *)

(** What [formatError] returns: [?(Object | string)]. *)
Inductive FormattedError : Type :=
| FObject (message : string) (code : jsval) (stack : string)
| FString (s : string)
| FUndefined.

Definition formatError (error : jsval) : Result FormattedError :=
  match error with
  | VError message code stack => Ok (FObject message code stack)
  | VStr s => Ok (FString s)
  | VUndefined => Ok FUndefined
  | other =>
      match toString other with
      | Ok s => Ok (FString ("Unknown Error: " ++ s))
      | Throw e => Throw e
      end
  end.

(** ** Outbound messages *)

Inductive ObservableResult : Type :=
| next (data : jsval)
| completed.

Inductive Payload : Type :=
| result_value (result : jsval)
| result_event (result : ObservableResult)
| error_body (error : FormattedError).

Record ResponseMessage : Type := {
  channel : string;
  type : string;
  requestId : nat;
  hadError : bool;
  payload : Payload
}.

Definition createPromiseMessage (requestId : nat) (result : jsval) : ResponseMessage :=
  {| channel := "service_framework3_rpc";
     type := "PromiseMessage";
     requestId := requestId;
     hadError := false;
     payload := result_value result |}.

Definition createNextMessage (requestId : nat) (data : jsval) : ResponseMessage :=
  {| channel := "service_framework3_rpc";
     type := "ObservableMessage";
     requestId := requestId;
     hadError := false;
     payload := result_event (next data) |}.

Definition createCompletedMessage (requestId : nat) : ResponseMessage :=
  {| channel := "service_framework3_rpc";
     type := "ObservableMessage";
     requestId := requestId;
     hadError := false;
     payload := result_event completed |}.

(** The argument [formatError(error)] is evaluated first: when it throws,
    no message is built. *)
Definition createErrorMessage (requestId : nat) (error : jsval) : Result ResponseMessage :=
  match formatError error with
  | Ok body =>
      Ok {| channel := "service_framework3_rpc";
            type := "ErrorMessage";
            requestId := requestId;
            hadError := true;
            payload := error_body body |}
  | Throw e => Throw e
  end.

(** ** Service definitions *)

(** A type of the service definition language.  The dispatcher itself only
    tells [void], [promise], [observable] and named types apart; every
    other kind is left to the type registry. *)
Inductive Ty : Type :=
| TVoid
| TPromise (t : Ty)
| TObservable (t : Ty)
| TNamed (name : string)
| TOther (kind : string).

Definition kind (t : Ty) : string :=
  match t with
  | TVoid => "void"
  | TPromise _ => "promise"
  | TObservable _ => "observable"
  | TNamed _ => "named"
  | TOther k => k
  end.

Definition voidType : Ty := TVoid.

Record FunctionType : Type := {
  argumentTypes : list Ty;
  returnType : Ty
}.

(** [staticMethods] is walked with [forEach], in insertion order;
    [instanceMethods] is only looked up by name. *)
Record InterfaceDefinition : Type := {
  interfaceName : string;
  constructorArgs : list Ty;
  staticMethods : list (string * FunctionType);
  instanceMethods : gmap string FunctionType
}.

Inductive Definition_ : Type :=
| alias (name : string) (definition : option Ty)
| function (name : string) (ftype : FunctionType)
| interface (definition : InterfaceDefinition).

(** ** Local implementations *)

(** A deferred result as the dispatcher observes it: it resolves, rejects,
    or is still unsettled when the observation ends. *)
Inductive Deferred : Type :=
| Resolves (value : jsval)
| Rejects (error : jsval)
| Unsettled.

Inductive Terminal : Type :=
| Completes
| Fails (error : jsval)
| Silent.

(** A stream: the values it emits, how it ends, and whether it plays all of
    this from inside [subscribe] ([Observable.of], [Observable.empty],
    [Observable.throw]) or in later turns, one event per turn. *)
Record Stream : Type := {
  emits : list jsval;
  finish : Terminal;
  synchronous : bool
}.

(** What a local implementation hands back. *)
Inductive Returned : Type :=
| plain (value : jsval)
| thenable (p : Deferred)
| observable (o : Stream).

(** A local callable: it throws or returns. *)
Definition Function_ : Type := list jsval → Result Returned.

(** A local constructor: it throws or builds an instance. *)
Definition Constructor_ : Type := list jsval → Result jsval.

(** [Boolean(object && object.then)] *)
Definition isThenable (object : Returned) : bool :=
  match object with
  | thenable _ => true
  | _ => false
  end.

(** [Boolean(object && object.concatMap && object.subscribe)] *)
Definition isObservable (object : Returned) : bool :=
  match object with
  | observable _ => true
  | _ => false
  end.

(** [Observable.throw(error)]: fails inside [subscribe]. *)
Definition Observable_throw (error : jsval) : Stream :=
  {| emits := []; finish := Fails error; synchronous := true |}.

(** [assert(condition)] *)
Definition AssertionError (shown : string) : jsval :=
  VError (shown ++ " == true") VUndefined ("AssertionError: " ++ shown ++ " == true").

(** [value == null] *)
Definition isNullish (v : jsval) : bool :=
  match v with
  | VUndefined | VNull => true
  | _ => false
  end.

(** How a nullish value is named in the runtime's error messages. *)
Definition nullishName (v : jsval) : string :=
  match v with
  | VUndefined => "undefined"
  | _ => "null"
  end.

(** ** The component and its collaborators *)

Record FunctionImplementation : Type := {
  localImplementation : option Function_;
  ftype : FunctionType
}.

(** The export of the implementation module for an interface: the
    constructor and its static properties. *)
Record LocalClass : Type := {
  construct_ : Constructor_;
  statics : string → option Function_
}.

Record ClassEntry : Type := {
  classImplementation : option LocalClass;
  definition : InterfaceDefinition
}.

(** A registered object: the instance and the [_interface] it carries. *)
Record Registration : Type := {
  object : jsval;
  _interface : string
}.

(** Modelled from the spec: the state of [ObjectRegistry] (section 4.2 and
    the data model): live handles by object id, the next id to hand out, and
    the live stream subscriptions by request id.  A subscription is known by
    its number in the stream runtime. *)
Record ObjectRegistry : Type := {
  _registrations : gmap nat Registration;
  _nextObjectId : nat;
  _subscriptions : gmap nat nat
}.

(** Modelled from the spec: the part of [TypeRegistry] the component
    writes: the names registered as types, and the aliases.  A name
    registered by [addService] for an interface converts through the object
    registry; every other conversion belongs to the registry itself. *)
Inductive Marshaller : Type :=
| identityMarshaller
| interfaceMarshaller (name : string).

Record TypeRegistry : Type := {
  _namedMarshallers : gmap string Marshaller;
  _aliases : gmap string Ty
}.

Record ServerComponent : Type := {
  _typeRegistry : TypeRegistry;
  _functionsByName : gmap string FunctionImplementation;
  _classesByName : gmap string ClassEntry;
  _objectRegistry : ObjectRegistry
}.

(** The calls made on a timing tracker. *)
Inductive Tracking : Type :=
| startTracking (label : string)
| onSuccess
| onError (error : jsval).

(** An event waiting in the stream runtime for a subscriber: a value the
    source has yet to emit, the settled conversion of a value it has
    emitted, or the end of the stream. *)
Inductive Event : Type :=
| emission (value : jsval)
| converted (data : Result jsval)
| completion
| failure (error : jsval).

(** A live subscription made by [returnObservable]: the request id its
    callbacks close over, the element type of its conversion, and the events
    not yet delivered. *)
Record Subscription : Type := {
  observerId : nat;
  elementType : Ty;
  pending : list Event
}.

(** Everything a request can change: the component, the messages written to
    the socket (oldest first), the calls made on timing trackers, and the
    stream runtime. *)
Record World : Type := {
  server : ServerComponent;
  sent : list ResponseMessage;
  tracked : list Tracking;
  live : gmap nat Subscription;
  nextSubscription : nat
}.

Definition set_objectRegistry (f : ObjectRegistry → ObjectRegistry) (w : World) : World :=
  {| server :=
       {| _typeRegistry := _typeRegistry (server w);
          _functionsByName := _functionsByName (server w);
          _classesByName := _classesByName (server w);
          _objectRegistry := f (_objectRegistry (server w)) |};
     sent := sent w;
     tracked := tracked w;
     live := live w;
     nextSubscription := nextSubscription w |}.

Definition set_sent (f : list ResponseMessage → list ResponseMessage) (w : World) : World :=
  {| server := server w;
     sent := f (sent w);
     tracked := tracked w;
     live := live w;
     nextSubscription := nextSubscription w |}.

Definition set_tracked (f : list Tracking → list Tracking) (w : World) : World :=
  {| server := server w;
     sent := sent w;
     tracked := f (tracked w);
     live := live w;
     nextSubscription := nextSubscription w |}.

Definition set_live (f : gmap nat Subscription → gmap nat Subscription) (w : World) : World :=
  {| server := server w;
     sent := sent w;
     tracked := tracked w;
     live := f (live w);
     nextSubscription := nextSubscription w |}.

Definition set_nextSubscription (n : nat) (w : World) : World :=
  {| server := server w;
     sent := sent w;
     tracked := tracked w;
     live := live w;
     nextSubscription := n |}.

(** ** Computations that change the world and may throw *)

Definition M (A : Type) : Type := World → Result A * World.

Definition ret {A} (a : A) : M A := λ w, (Ok a, w).

Definition throw {A} (e : jsval) : M A := λ w, (Throw e, w).

Definition bind {A B} (m : M A) (k : A → M B) : M B :=
  λ w, match m w with
       | (Ok a, w') => k a w'
       | (Throw e, w') => (Throw e, w')
       end.

Notation "x <- c1 ;; c2" := (bind c1 (λ x, c2))
  (at level 100, c1 at next level, right associativity).
Notation "c1 ;; c2" := (bind c1 (λ _, c2))
  (at level 100, right associativity).

(** [try { m } catch (e) { handler(e) }] *)
Definition try_catch {A} (m : M A) (handler : jsval → M A) : M A :=
  λ w, match m w with
       | (Ok a, w') => (Ok a, w')
       | (Throw e, w') => handler e w'
       end.

(** The outcome of a promise: a rejection is a value, not a throw. *)
Definition settled {A} (m : M A) : M (Result A) :=
  λ w, match m w with
       | (Ok a, w') => (Ok (Ok a), w')
       | (Throw e, w') => (Ok (Throw e), w')
       end.

(** An async function that is called runs to its first [await] and leaves
    the rest of its body to be run later.  When it throws before that, its
    promise is rejected, and whoever awaits it gets the throw later. *)
Definition async {A} (start : M (M A)) : M (M A) :=
  λ w, match start w with
       | (Ok rest, w') => (Ok rest, w')
       | (Throw e, w') => (Ok (throw e), w')
       end.

(** A reaction run by the promise machinery: a throw inside it rejects a
    promise nobody looks at. *)
Definition reaction (m : M unit) : M unit :=
  λ w, match m w with
       | (_, w') => (Ok tt, w')
       end.

Definition lift {A} (r : Result A) : M A := λ w, (r, w).

Definition get_world : M World := λ w, (Ok w, w).

Definition modify (f : World → World) : M unit := λ w, (Ok tt, f w).

(** [assert(condition)] *)
Definition invariant (condition : bool) (shown : string) : M unit :=
  if condition then ret tt else throw (AssertionError shown).

(** [client.sendSocketMessage(message)] *)
Definition sendSocketMessage (message : ResponseMessage) : M unit :=
  modify (set_sent (λ l, (l ++ [message])%list)).

Definition track (t : Tracking) : M unit :=
  modify (set_tracked (λ l, (l ++ [t])%list)).

(** ** Inbound messages *)

(** A request as it comes off the wire: [type] is whatever string the peer
    wrote, and the fields a variant does not use are simply not read. *)
Module Request.
Record t : Type := {
  type : string;
  requestId : nat;
  function : string;
  objectId : nat;
  method : string;
  interface : string;
  args : list jsval
}.
End Request.

(** What happens next on a connection: an inbound message is handled, or
    the stream runtime takes a turn for a subscription. *)
Inductive Activity : Type :=
| inbound (message : Request.t)
| turn (subscription : nat).

(** ** The object registry *)

(** Modelled from the spec: the error of [ObjectRegistry.get] and
    [disposeObject] on an id that is not registered ([UnknownObject]). *)
Definition UnknownObject (objectId : nat) : jsval :=
  new_Error ("Unknown object: " ++ pretty objectId).

(** Modelled from the spec: the error of [addSubscription] on a request id
    that already has a subscription ("a duplicate request id is an
    error"). *)
Definition DuplicateSubscription (requestId : nat) : jsval :=
  new_Error ("Duplicate subscription: " ++ pretty requestId).

Section Dispatcher.

(** The local code and the type registry's own conversions are given from
    outside. *)

(** [object[method]] on a registered instance. *)
Variable methodOf : jsval → string → option Function_.

(** The disposal capability of an instance: what invoking it gives
    ([Ok] too when the instance has none). *)
Variable disposeOf : jsval → Result unit.

(** The type registry's conversion of a value of a type that is not a
    registered interface. *)
Variable marshalExternal : jsval → Ty → Result jsval.

(** The type registry's [unmarshalArguments]; it may look objects up. *)
Variable unmarshalExternal : ObjectRegistry → list jsval → list Ty → Result (list jsval).

Definition registry : M ObjectRegistry :=
  λ w, (Ok (_objectRegistry (server w)), w).

(** Modelled from the spec: [ObjectRegistry.add(interfaceName, instance)]
    allocates a fresh id, stores the instance under it, returns the id. *)
Definition ObjectRegistry_add (interfaceName : string) (instance : jsval) : M nat :=
  r <- registry ;;
  let id := _nextObjectId r in
  modify (set_objectRegistry (λ r,
    {| _registrations :=
         <[id := {| object := instance; _interface := interfaceName |}]> (_registrations r);
       _nextObjectId := S id;
       _subscriptions := _subscriptions r |})) ;;
  ret id.

(** Modelled from the spec: [ObjectRegistry.get(id)] fails with
    [UnknownObject] if absent. *)
Definition ObjectRegistry_get (objectId : nat) : M Registration :=
  r <- registry ;;
  match _registrations r !! objectId with
  | Some registration => ret registration
  | None => throw (UnknownObject objectId)
  end.

(** Modelled from the spec: [ObjectRegistry.disposeObject(id)] removes the
    mapping and invokes the instance's disposal capability; an unknown id
    is an error. *)
Definition ObjectRegistry_disposeObject (objectId : nat) : M unit :=
  registration <- ObjectRegistry_get objectId ;;
  modify (set_objectRegistry (λ r,
    {| _registrations := delete objectId (_registrations r);
       _nextObjectId := _nextObjectId r;
       _subscriptions := _subscriptions r |})) ;;
  lift (disposeOf (object registration)).

(** Modelled from the spec: [ObjectRegistry.addSubscription(requestId,
    handle)]; at most one subscription per request id. *)
Definition ObjectRegistry_addSubscription (requestId subscription : nat) : M unit :=
  r <- registry ;;
  match _subscriptions r !! requestId with
  | Some _ => throw (DuplicateSubscription requestId)
  | None =>
      modify (set_objectRegistry (λ r,
        {| _registrations := _registrations r;
           _nextObjectId := _nextObjectId r;
           _subscriptions := <[requestId := subscription]> (_subscriptions r) |}))
  end.

(** Modelled from the spec: [ObjectRegistry.removeSubscription(requestId)]
    drops the bookkeeping entry. *)
Definition ObjectRegistry_removeSubscription (requestId : nat) : M unit :=
  modify (set_objectRegistry (λ r,
    {| _registrations := _registrations r;
       _nextObjectId := _nextObjectId r;
       _subscriptions := delete requestId (_subscriptions r) |})).

(** Modelled from the spec: [ObjectRegistry.disposeSubscription(requestId)]
    cancels the underlying stream in addition to removing the entry. *)
Definition ObjectRegistry_disposeSubscription (requestId : nat) : M unit :=
  r <- registry ;;
  match _subscriptions r !! requestId with
  | Some subscription =>
      ObjectRegistry_removeSubscription requestId ;;
      modify (set_live (delete subscription))
  | None => ret tt
  end.

(** ** The type registry as the component uses it *)

(** [this._typeRegistry.marshal(value, type)], as a settled promise.  For a
    name registered by [addService] as an interface the marshaller is
    [object => this._objectRegistry.add(name, object)]. *)
Definition marshal (value : jsval) (type : Ty) : M jsval :=
  w <- get_world ;;
  match type with
  | TNamed name =>
      match _namedMarshallers (_typeRegistry (server w)) !! name with
      | Some (interfaceMarshaller interfaceName) =>
          id <- ObjectRegistry_add interfaceName value ;;
          ret (VNum (Z.of_nat id))
      | _ => lift (marshalExternal value type)
      end
  | _ => lift (marshalExternal value type)
  end.

(** [this._typeRegistry.unmarshalArguments(args, types)] *)
Definition unmarshalArguments (args : list jsval) (types : list Ty) : M (list jsval) :=
  r <- registry ;;
  lift (unmarshalExternal r args types).

(** ** The timing tracker *)

(** The injected collaborator: [startTracking(label)] gives an object with
    [onSuccess()] and [onError(error)].  Here it records its calls. *)
Record TimingTracker : Type := {
  tracker_onSuccess : M unit;
  tracker_onError : jsval → M unit
}.

Definition recordingTracker : TimingTracker :=
  {| tracker_onSuccess := track onSuccess;
     tracker_onError := λ error, track (onError error) |}.

Definition startTracking_ (label : string) : M TimingTracker :=
  track (startTracking label) ;;
  ret recordingTracker.

(** [trackingIdOfMessage(message)] *)
Definition trackingIdOfMessage (message : Request.t) : M string :=
  if String.eqb (Request.type message) "FunctionCall" then
    ret ("service-framework:" ++ Request.function message)
  else if String.eqb (Request.type message) "MethodCall" then
    found <- ObjectRegistry_get (Request.objectId message) ;;
    invariant (negb (isNullish (object found))) "false" ;;
    ret ("service-framework:" ++ _interface found ++ "." ++ Request.method message)
  else if String.eqb (Request.type message) "NewObject" then
    ret ("service-framework:new:" ++ Request.interface message)
  else if String.eqb (Request.type message) "DisposeObject" then
    found <- ObjectRegistry_get (Request.objectId message) ;;
    (if isNullish (object found)
     then throw (new_TypeError ("Cannot read property '_interface' of "
                                  ++ nullishName (object found)))
     else ret tt) ;;
    let interfaceName := _interface found in
    ret ("service-framework:dispose:" ++ interfaceName)
  else if String.eqb (Request.type message) "DisposeObservable" then
    ret "service-framework:disposeObservable"
  else
    throw (new_Error ("Unknown message type " ++ Request.type message)).

(** ** Streams *)

(** The three callbacks [returnObservable] subscribes with. *)
Definition observer_next (requestId : nat) (data : jsval) : M unit :=
  sendSocketMessage (createNextMessage requestId data).

Definition observer_error (requestId : nat) (error : jsval) : M unit :=
  message <- lift (createErrorMessage requestId error) ;;
  sendSocketMessage message ;;
  ObjectRegistry_removeSubscription requestId.

Definition observer_completed (requestId : nat) : M unit :=
  sendSocketMessage (createCompletedMessage requestId) ;;
  ObjectRegistry_removeSubscription requestId.

(** The conversions started by [concatMap] for values emitted in one go:
    each call of [marshal] is made at once, in order; a failed one is a
    rejected promise, not a throw. *)
Fixpoint marshal_all (values : list jsval) (elementType : Ty) : M (list (Result jsval)) :=
  match values with
  | [] => ret []
  | value :: rest =>
      data <- settled (marshal value elementType) ;;
      others <- marshal_all rest elementType ;;
      ret (data :: others)
  end.

Definition finish_events (t : Terminal) : list Event :=
  match t with
  | Completes => [completion]
  | Fails error => [failure error]
  | Silent => []
  end.

(** [result.concatMap(marshal).subscribe(next, error, completed)].  A
    source that plays from inside [subscribe] has each value's conversion
    started at once; its failure is forwarded at once, ahead of the
    conversions still unsettled; its completion waits for them, and is at
    once only when there are none.  Everything else is delivered in later
    turns, see [deliver].  A callback that throws inside [subscribe] throws
    out of it. *)
Definition subscribe (requestId : nat) (elementType : Ty) (result : Stream) : M nat :=
  w <- get_world ;;
  let subscription := nextSubscription w in
  let wait (events : list Event) : M unit :=
    modify (set_live (insert subscription
      {| observerId := requestId; elementType := elementType; pending := events |})) in
  modify (set_nextSubscription (S subscription)) ;;
  (if synchronous result then
     data <- marshal_all (emits result) elementType ;;
     match finish result, data with
     | Fails error, _ => observer_error requestId error
     | Completes, [] => observer_completed requestId
     | t, _ => wait ((converted <$> data) ++ finish_events t)%list
     end
   else
     wait ((emission <$> emits result) ++ finish_events (finish result))%list) ;;
  ret subscription.

(** One later turn of the stream runtime for a subscription: the next
    pending event reaches the callbacks.  A cancelled or finished
    subscription delivers nothing.  A value is converted when the source
    emits it, and the source emits the next one only after that. *)
Definition deliver (subscription : nat) : M unit :=
  w <- get_world ;;
  match live w !! subscription with
  | None => ret tt
  | Some s =>
      match pending s with
      | [] => ret tt
      | event :: rest =>
          let continue :=
            modify (set_live (insert subscription
              {| observerId := observerId s; elementType := elementType s;
                 pending := rest |})) in
          let stop := modify (set_live (delete subscription)) in
          match event with
          | emission value =>
              data <- settled (marshal value (elementType s)) ;;
              match data with
              | Ok data => continue ;; observer_next (observerId s) data
              | Throw error => stop ;; observer_error (observerId s) error
              end
          | converted (Ok data) => continue ;; observer_next (observerId s) data
          | converted (Throw error) => stop ;; observer_error (observerId s) error
          | completion => stop ;; observer_completed (observerId s)
          | failure error => stop ;; observer_error (observerId s) error
          end
      end
  end.

(** ** The message handler *)

Section Handler.

(** What the closures of [handleMessage] capture. *)
Variable requestId : nat.
Variable timingTracker : TimingTracker.

Definition returnPromise (candidate : Returned) (type : Ty) : M unit :=
  let returnVal :=
    match candidate with
    | thenable p => p
    | _ => Rejects (new_Error "Expected a Promise, but the function returned something else.")
    end in
  let send (outcome : Result jsval) : M unit :=
    match outcome with
    | Ok result =>
        reaction (
          sendSocketMessage (createPromiseMessage requestId result) ;;
          tracker_onSuccess timingTracker)
    | Throw error =>
        reaction (
          message <- lift (createErrorMessage requestId error) ;;
          sendSocketMessage message ;;
          tracker_onError timingTracker (if isNullish error then new_Error "" else error))
    end in
  match returnVal with
  | Resolves value =>
      outcome <- settled (marshal value type) ;;
      send outcome
  | Rejects error => send (Throw error)
  | Unsettled => ret tt
  end.

Definition returnObservable (returnVal : Returned) (elementType : Ty) : M unit :=
  let result :=
    match returnVal with
    | observable o => o
    | _ => Observable_throw
             (new_Error "Expected an Observable, but the function returned something else.")
    end in
  subscription <- subscribe requestId elementType result ;;
  ObjectRegistry_addSubscription requestId subscription.

(** Returns true if a promise was returned. *)
Definition returnValue (value : Returned) (type : Ty) : M bool :=
  match type with
  | TVoid => ret false
  | TPromise t => returnPromise value t ;; ret true
  | TObservable t => returnObservable value t ;; ret false
  | _ => throw (new_Error ("Unkown return type " ++ kind type ++ "."))
  end.

(** [f.apply(thisArg, args)]; [f] may be undefined. *)
Definition apply (f : option Function_) (args : list jsval) : M Returned :=
  match f with
  | Some f => lift (f args)
  | None => throw (new_TypeError "Cannot read property 'apply' of undefined")
  end.

Definition _getFunctionImplemention (name : string) : M FunctionImplementation :=
  w <- get_world ;;
  match _functionsByName (server w) !! name with
  | Some result => ret result
  | None => throw (AssertionError "undefined")
  end.

Definition callFunction (call : Request.t) : M bool :=
  implementation <- _getFunctionImplemention (Request.function call) ;;
  let type := ftype implementation in
  marshalledArgs <- unmarshalArguments (Request.args call) (argumentTypes type) ;;
  value <- apply (localImplementation implementation) marshalledArgs ;;
  returnValue value (returnType type).

Definition callMethod (call : Request.t) : M bool :=
  found <- ObjectRegistry_get (Request.objectId call) ;;
  invariant (negb (isNullish (object found))) "false" ;;
  w <- get_world ;;
  match _classesByName (server w) !! _interface found with
  | None => throw (AssertionError "false")
  | Some classDefinition =>
      match instanceMethods (definition classDefinition) !! Request.method call with
      | None => throw (AssertionError "false")
      | Some type =>
          marshalledArgs <- unmarshalArguments (Request.args call) (argumentTypes type) ;;
          value <- apply (methodOf (object found) (Request.method call)) marshalledArgs ;;
          returnValue value (returnType type)
      end
  end.

(** [construct(classObject, args)]; [classObject] may be undefined. *)
Definition construct (classObject : option LocalClass) (args : list jsval) : M jsval :=
  match classObject with
  | Some c => lift (construct_ c args)
  | None => throw (new_TypeError "Cannot read property 'prototype' of undefined")
  end.

Definition callConstructor (constructorMessage : Request.t) : M unit :=
  w <- get_world ;;
  match _classesByName (server w) !! Request.interface constructorMessage with
  | None => throw (AssertionError "false")
  | Some classDefinition =>
      marshalledArgs <- unmarshalArguments (Request.args constructorMessage)
                          (constructorArgs (definition classDefinition)) ;;
      newObject <- construct (classImplementation classDefinition) marshalledArgs ;;
      returnPromise (thenable (Resolves newObject))
        (TNamed (Request.interface constructorMessage))
  end.

(** The [try] block of [handleMessage] with its [catch]. *)
Definition handle (message : Request.t) : M unit :=
  try_catch
    (returnedPromise <-
       (if String.eqb (Request.type message) "FunctionCall" then
          callFunction message
        else if String.eqb (Request.type message) "MethodCall" then
          callMethod message
        else if String.eqb (Request.type message) "NewObject" then
          callConstructor message ;; ret true
        else if String.eqb (Request.type message) "DisposeObject" then
          ObjectRegistry_disposeObject (Request.objectId message) ;;
          returnPromise (thenable (Resolves VUndefined)) voidType ;;
          ret true
        else if String.eqb (Request.type message) "DisposeObservable" then
          ObjectRegistry_disposeSubscription requestId ;;
          ret false
        else
          throw (new_Error ("Unkown message type " ++ Request.type message))) ;;
     if returnedPromise : bool then ret tt else tracker_onSuccess timingTracker)
    (λ e,
       tracker_onError timingTracker (if isNullish e then new_Error "" else e) ;;
       response <- lift (createErrorMessage requestId e) ;;
       sendSocketMessage response).

(** *** The handlers up to their [await] *)

(** [callFunction(call)] up to [await unmarshalArguments(...)]: the
    implementation is looked up and the unmarshalling is started; the call
    of the implementation and [returnValue] are left for later. *)
Definition callFunction_await (call : Request.t) : M (M bool) :=
  async (
    implementation <- _getFunctionImplemention (Request.function call) ;;
    let type := ftype implementation in
    unmarshalling <-
      settled (unmarshalArguments (Request.args call) (argumentTypes type)) ;;
    ret (marshalledArgs <- lift unmarshalling ;;
         value <- apply (localImplementation implementation) marshalledArgs ;;
         returnValue value (returnType type))).

Definition callMethod_await (call : Request.t) : M (M bool) :=
  async (
    found <- ObjectRegistry_get (Request.objectId call) ;;
    invariant (negb (isNullish (object found))) "false" ;;
    w <- get_world ;;
    match _classesByName (server w) !! _interface found with
    | None => throw (AssertionError "false")
    | Some classDefinition =>
        match instanceMethods (definition classDefinition) !! Request.method call with
        | None => throw (AssertionError "false")
        | Some type =>
            unmarshalling <-
              settled (unmarshalArguments (Request.args call) (argumentTypes type)) ;;
            ret (marshalledArgs <- lift unmarshalling ;;
                 value <- apply (methodOf (object found) (Request.method call))
                            marshalledArgs ;;
                 returnValue value (returnType type))
        end
    end).

Definition callConstructor_await (constructorMessage : Request.t) : M (M unit) :=
  async (
    w <- get_world ;;
    match _classesByName (server w) !! Request.interface constructorMessage with
    | None => throw (AssertionError "false")
    | Some classDefinition =>
        unmarshalling <-
          settled (unmarshalArguments (Request.args constructorMessage)
                     (constructorArgs (definition classDefinition))) ;;
        ret (marshalledArgs <- lift unmarshalling ;;
             newObject <- construct (classImplementation classDefinition) marshalledArgs ;;
             returnPromise (thenable (Resolves newObject))
               (TNamed (Request.interface constructorMessage)))
    end).

(** The [try] block of [handleMessage] with its [catch], up to the first
    [await]: what is returned is the rest of the handler, to be run when
    the awaited promise has settled.  A [DisposeObservable] and a message
    of unknown type are handled to their end, there is no [await] on their
    way.  [disposeObject] is awaited: its failure is taken as a rejection,
    which reaches the [catch] block when the handler is resumed. *)
Definition handle_await (message : Request.t) : M (M unit) :=
  let catch (e : jsval) : M unit :=
    tracker_onError timingTracker (if isNullish e then new_Error "" else e) ;;
    response <- lift (createErrorMessage requestId e) ;;
    sendSocketMessage response in
  let finish (returnedPromise : bool) : M unit :=
    if returnedPromise then ret tt else tracker_onSuccess timingTracker in
  if String.eqb (Request.type message) "FunctionCall" then
    rest <- callFunction_await message ;;
    ret (try_catch (returnedPromise <- rest ;; finish returnedPromise) catch)
  else if String.eqb (Request.type message) "MethodCall" then
    rest <- callMethod_await message ;;
    ret (try_catch (returnedPromise <- rest ;; finish returnedPromise) catch)
  else if String.eqb (Request.type message) "NewObject" then
    rest <- callConstructor_await message ;;
    ret (try_catch (rest ;; finish true) catch)
  else if String.eqb (Request.type message) "DisposeObject" then
    disposal <- settled (ObjectRegistry_disposeObject (Request.objectId message)) ;;
    ret (try_catch
           (lift disposal ;;
            returnPromise (thenable (Resolves VUndefined)) voidType ;;
            finish true)
           catch)
  else if String.eqb (Request.type message) "DisposeObservable" then
    try_catch (ObjectRegistry_disposeSubscription requestId ;; finish false) catch ;;
    ret (ret tt)
  else
    try_catch (throw (new_Error ("Unkown message type " ++ Request.type message))) catch ;;
    ret (ret tt).

(** *** The two blocks of the [try] statement *)

(** The [try] block of [handleMessage] on its own. *)
Definition tryBlock (message : Request.t) : M unit :=
  returnedPromise <-
    (if String.eqb (Request.type message) "FunctionCall" then
       callFunction message
     else if String.eqb (Request.type message) "MethodCall" then
       callMethod message
     else if String.eqb (Request.type message) "NewObject" then
       callConstructor message ;; ret true
     else if String.eqb (Request.type message) "DisposeObject" then
       ObjectRegistry_disposeObject (Request.objectId message) ;;
       returnPromise (thenable (Resolves VUndefined)) voidType ;;
       ret true
     else if String.eqb (Request.type message) "DisposeObservable" then
       ObjectRegistry_disposeSubscription requestId ;;
       ret false
     else
       throw (new_Error ("Unkown message type " ++ Request.type message))) ;;
  if returnedPromise : bool then ret tt else tracker_onSuccess timingTracker.

(** The [catch] block of [handleMessage] on its own. *)
Definition catchBlock (e : jsval) : M unit :=
  tracker_onError timingTracker (if isNullish e then new_Error "" else e) ;;
  response <- lift (createErrorMessage requestId e) ;;
  sendSocketMessage response.

End Handler.

(** [handleMessage(client, message)]: the result is the settlement of the
    promise the async function returns. *)
Definition handleMessage (message : Request.t) : M unit :=
  let requestId := Request.requestId message in
  label <- trackingIdOfMessage message ;;
  timingTracker <- startTracking_ label ;;
  handle requestId timingTracker message.

(** [handleMessage(client, message)] up to its first [await]: the label is
    computed and the tracker started, then the handler runs until it is
    suspended.  Other messages can be handled before the rest is run. *)
Definition handleMessage_await (message : Request.t) : M (M unit) :=
  let requestId := Request.requestId message in
  label <- trackingIdOfMessage message ;;
  timingTracker <- startTracking_ label ;;
  handle_await requestId timingTracker message.

(** The dispatcher without its tracking span: no label is computed, no
    tracker is started, and the calls on the tracker do nothing. *)
Definition noTracker : TimingTracker :=
  {| tracker_onSuccess := ret tt; tracker_onError := λ _, ret tt |}.

Definition handleMessage_untracked (message : Request.t) : M unit :=
  handle (Request.requestId message) noTracker message.

End Dispatcher.

(** ** Service registration *)

(** The module [require(service.implementation)] gives: its functions and
    its classes by export name; a missing export reads as undefined. *)
Record LocalModule : Type := {
  functions : string → option Function_;
  classes : string → option LocalClass
}.

(** A configured service, with what the definition parser and the module
    loader give for it: each throws or returns. *)
Record ConfigEntry : Type := {
  serviceName : string;
  definitions : Result (list Definition_);
  implementation : Result LocalModule
}.

Definition set_functionsByName
    (f : gmap string FunctionImplementation → gmap string FunctionImplementation)
    (w : World) : World :=
  {| server :=
       {| _typeRegistry := _typeRegistry (server w);
          _functionsByName := f (_functionsByName (server w));
          _classesByName := _classesByName (server w);
          _objectRegistry := _objectRegistry (server w) |};
     sent := sent w;
     tracked := tracked w;
     live := live w;
     nextSubscription := nextSubscription w |}.

Definition set_classesByName
    (f : gmap string ClassEntry → gmap string ClassEntry) (w : World) : World :=
  {| server :=
       {| _typeRegistry := _typeRegistry (server w);
          _functionsByName := _functionsByName (server w);
          _classesByName := f (_classesByName (server w));
          _objectRegistry := _objectRegistry (server w) |};
     sent := sent w;
     tracked := tracked w;
     live := live w;
     nextSubscription := nextSubscription w |}.

Definition set_typeRegistry (f : TypeRegistry → TypeRegistry) (w : World) : World :=
  {| server :=
       {| _typeRegistry := f (_typeRegistry (server w));
          _functionsByName := _functionsByName (server w);
          _classesByName := _classesByName (server w);
          _objectRegistry := _objectRegistry (server w) |};
     sent := sent w;
     tracked := tracked w;
     live := live w;
     nextSubscription := nextSubscription w |}.

Section Registration.

(** What the type registry itself says to a registration: it may refuse
    the name (the component does not check it). *)
Variable registerTypeCheck : TypeRegistry → string → Result unit.
Variable registerAliasCheck : TypeRegistry → string → Ty → Result unit.

(** [this._typeRegistry.registerType(name, marshaller, unmarshaller)] *)
Definition registerType (name : string) (marshaller : Marshaller) : M unit :=
  w <- get_world ;;
  lift (registerTypeCheck (_typeRegistry (server w)) name) ;;
  modify (set_typeRegistry (λ r,
    {| _namedMarshallers := <[name := marshaller]> (_namedMarshallers r);
       _aliases := _aliases r |})).

(** [this._typeRegistry.registerAlias(name, type)] *)
Definition registerAlias (name : string) (type : Ty) : M unit :=
  w <- get_world ;;
  lift (registerAliasCheck (_typeRegistry (server w)) name type) ;;
  modify (set_typeRegistry (λ r,
    {| _namedMarshallers := _namedMarshallers r;
       _aliases := <[name := type]> (_aliases r) |})).

Definition _registerFunction
    (name : string) (localImpl : option Function_) (type : FunctionType) : M unit :=
  w <- get_world ;;
  match _functionsByName (server w) !! name with
  | Some _ => throw (new_Error ("Duplicate RPC function: " ++ name))
  | None =>
      modify (set_functionsByName
        (insert name {| localImplementation := localImpl; ftype := type |}))
  end.

(** [list.forEach(f)]: stops at the first throw. *)
Fixpoint forEach {A} (f : A → M unit) (l : list A) : M unit :=
  match l with
  | [] => ret tt
  | x :: rest => f x ;; forEach f rest
  end.

(** The body of [defs.forEach(...)] in [addService]. *)
Definition addDefinition (service : string) (localImpl : LocalModule)
    (d : Definition_) : M unit :=
  match d with
  | alias name (Some type) => registerAlias name type
  | alias name None => ret tt
  | function name type =>
      _registerFunction (service ++ "/" ++ name) (functions localImpl name) type
  | interface definition =>
      let name := interfaceName definition in
      modify (set_classesByName (insert name
        {| classImplementation := classes localImpl name;
           definition := definition |})) ;;
      registerType name (interfaceMarshaller name) ;;
      forEach (λ '(funcName, funcType),
        match classes localImpl name with
        | Some c => _registerFunction (name ++ "/" ++ funcName) (statics c funcName) funcType
        | None => throw (new_TypeError ("Cannot read property '" ++ funcName ++ "' of undefined"))
        end) (staticMethods definition)
  end.

Definition addService (service : ConfigEntry) : M unit :=
  defs <- lift (definitions service) ;;
  localImpl <- lift (implementation service) ;;
  forEach (addDefinition (serviceName service) localImpl) defs.

Definition addServices (services : list ConfigEntry) : M unit :=
  forEach addService services.

(** The world a new component starts in. *)
Definition emptyWorld : World :=
  {| server :=
       {| _typeRegistry := {| _namedMarshallers := ∅; _aliases := ∅ |};
          _functionsByName := ∅;
          _classesByName := ∅;
          _objectRegistry :=
            {| _registrations := ∅; _nextObjectId := 1; _subscriptions := ∅ |} |};
     sent := [];
     tracked := [];
     live := ∅;
     nextSubscription := 0 |}.

(** [new ServerComponent(services)] *)
Definition constructor (services : list ConfigEntry) : M unit :=
  registerType "NuclideUri" identityMarshaller ;;
  addServices services.

End Registration.

(** ** A small configuration to run the component on *)

Module Sample.

(** Collaborators that convert nothing and refuse nothing. *)
Definition methodOf (o : jsval) (method : string) : option Function_ := None.
Definition disposeOf (o : jsval) : Result unit := Ok tt.
Definition marshalExternal (value : jsval) (type : Ty) : Result jsval := Ok value.
Definition unmarshalExternal (r : ObjectRegistry) (args : list jsval) (types : list Ty)
  : Result (list jsval) := Ok args.
Definition registerTypeCheck (r : TypeRegistry) (name : string) : Result unit := Ok tt.
Definition registerAliasCheck (r : TypeRegistry) (name : string) (type : Ty)
  : Result unit := Ok tt.

Definition Counter : InterfaceDefinition :=
  {| interfaceName := "Counter";
     constructorArgs := [TOther "number"];
     staticMethods := [];
     instanceMethods :=
       {[ "increment" := {| argumentTypes := []; returnType := TPromise (TOther "number") |} ]} |}.

Definition CounterClass : LocalClass :=
  {| construct_ := λ _, Ok (VObject 0);
     statics := λ _, None |}.

Definition promiseOfNumber : FunctionType :=
  {| argumentTypes := []; returnType := TPromise (TOther "number") |}.

Definition observableOfNumber : FunctionType :=
  {| argumentTypes := []; returnType := TObservable (TOther "number") |}.

Definition voidFunction : FunctionType :=
  {| argumentTypes := []; returnType := TVoid |}.

(** A module whose functions throw [null], reject with [null], return
    something that is no stream, and return a stream of three numbers. *)
Definition module : LocalModule :=
  {| functions := λ name,
       if String.eqb name "throwNull" then Some (λ _, Throw VNull)
       else if String.eqb name "rejectNull" then Some (λ _, Ok (thenable (Rejects VNull)))
       else if String.eqb name "resolve" then Some (λ _, Ok (thenable (Resolves (VNum 6))))
       else if String.eqb name "notAStream" then Some (λ _, Ok (plain VUndefined))
       else if String.eqb name "ticks" then
         Some (λ _, Ok (observable
           {| emits := [VNum 1; VNum 2; VNum 3]; finish := Completes; synchronous := false |}))
       else None;
     classes := λ name,
       if String.eqb name "Counter" then Some CounterClass else None |}.

Definition service : ConfigEntry :=
  {| serviceName := "sample";
     definitions := Ok [
       interface Counter;
       function "throwNull" voidFunction;
       function "rejectNull" promiseOfNumber;
       function "resolve" promiseOfNumber;
       function "notAStream" observableOfNumber;
       function "ticks" observableOfNumber ];
     implementation := Ok module |}.

(** The component after [new ServerComponent([service])]. *)
Definition world : World :=
  (constructor registerTypeCheck registerAliasCheck [service] emptyWorld).2.

Definition handleMessage : Request.t → M unit :=
  handleMessage methodOf disposeOf marshalExternal unmarshalExternal.

Definition handleMessage_untracked : Request.t → M unit :=
  handleMessage_untracked methodOf disposeOf marshalExternal unmarshalExternal.

Definition request (type : string) (requestId : nat) : Request.t :=
  {| Request.type := type; Request.requestId := requestId;
     Request.function := ""; Request.objectId := 0; Request.method := "";
     Request.interface := ""; Request.args := [] |}.

Definition FunctionCall (requestId : nat) (function : string) : Request.t :=
  {| Request.type := "FunctionCall"; Request.requestId := requestId;
     Request.function := function; Request.objectId := 0; Request.method := "";
     Request.interface := ""; Request.args := [] |}.

Definition MethodCall (requestId objectId : nat) (method : string) : Request.t :=
  {| Request.type := "MethodCall"; Request.requestId := requestId;
     Request.function := ""; Request.objectId := objectId; Request.method := method;
     Request.interface := ""; Request.args := [] |}.

Definition NewObject (requestId : nat) (interface : string) (args : list jsval) : Request.t :=
  {| Request.type := "NewObject"; Request.requestId := requestId;
     Request.function := ""; Request.objectId := 0; Request.method := "";
     Request.interface := interface; Request.args := args |}.

Definition DisposeObject (requestId objectId : nat) : Request.t :=
  {| Request.type := "DisposeObject"; Request.requestId := requestId;
     Request.function := ""; Request.objectId := objectId; Request.method := "";
     Request.interface := ""; Request.args := [] |}.

Definition DisposeObservable (requestId : nat) : Request.t :=
  {| Request.type := "DisposeObservable"; Request.requestId := requestId;
     Request.function := ""; Request.objectId := 0; Request.method := "";
     Request.interface := ""; Request.args := [] |}.

(** The traffic after a call of [ticks] under request id 3: turns of its
    subscription, with a call of another function in between. *)
Definition traffic : list Activity :=
  [turn 0; turn 0; inbound (FunctionCall 4 "sample/resolve"); turn 0; turn 0].

End Sample.

(** ** A second service, with an interface that has a static method *)

Module More.

Definition Shape : InterfaceDefinition :=
  {| interfaceName := "Shape";
     constructorArgs := [];
     staticMethods := [("unit", Sample.voidFunction)];
     instanceMethods := ∅ |}.

Definition ShapeClass : LocalClass :=
  {| construct_ := λ _, Ok (VObject 1);
     statics := λ name,
       if String.eqb name "unit" then Some (λ _, Ok (plain VUndefined)) else None |}.

Definition numberFunction : FunctionType :=
  {| argumentTypes := []; returnType := TOther "number" |}.

(** A module whose functions return nothing, throw a string, return a
    number, reject with a string, and return a number where a promise is
    declared; [absent] is declared but not exported. *)
Definition module : LocalModule :=
  {| functions := λ name,
       if String.eqb name "ping" then Some (λ _, Ok (plain VUndefined))
       else if String.eqb name "fail" then Some (λ _, Throw (VStr "boom"))
       else if String.eqb name "count" then Some (λ _, Ok (plain (VNum 1)))
       else if String.eqb name "reject" then Some (λ _, Ok (thenable (Rejects (VStr "no"))))
       else if String.eqb name "plain" then Some (λ _, Ok (plain (VNum 1)))
       else None;
     classes := λ name,
       if String.eqb name "Shape" then Some ShapeClass else None |}.

Definition service : ConfigEntry :=
  {| serviceName := "more";
     definitions := Ok [
       interface Shape;
       function "ping" Sample.voidFunction;
       function "fail" Sample.voidFunction;
       function "absent" Sample.voidFunction;
       function "count" numberFunction;
       function "reject" Sample.promiseOfNumber;
       function "plain" Sample.promiseOfNumber ];
     implementation := Ok module |}.

(** The sample component after [addServices([service])]. *)
Definition world : World :=
  (addServices Sample.registerTypeCheck Sample.registerAliasCheck [service] Sample.world).2.

(** The sample component with a stream of request 3 that is about to end. *)
Definition ending (event : Event) : World :=
  set_live (insert 0 {| observerId := 3; elementType := TOther "number";
                        pending := [event] |})
    (set_objectRegistry (λ r,
       {| _registrations := _registrations r;
          _nextObjectId := _nextObjectId r;
          _subscriptions := <[3 := 0]> (_subscriptions r) |})
       (set_nextSubscription 1 Sample.world)).

End More.

(** The type tags [handleMessage] knows. *)
Definition knownTypes : list string :=
  ["FunctionCall"; "MethodCall"; "NewObject"; "DisposeObject"; "DisposeObservable"].

(** The errors the registration of the static methods of interface [name]
    can end in: a taken function key, or a missing export. *)
Definition staticMethodError (name : string) (e : jsval) : Prop :=
  ∃ funcName,
    e = new_Error ("Duplicate RPC function: " ++ name ++ "/" ++ funcName)
    ∨ e = new_TypeError ("Cannot read property '" ++ funcName ++ "' of undefined").

(** ** Traffic on a connection *)

(** The responses written so far for a request id, oldest first. *)
Definition responsesTo (id : nat) (w : World) : list ResponseMessage :=
  filter (λ response, requestId response = id) (sent w).

(** The traffic that concerns other requests: no inbound message carries
    this request id. *)
Definition others (id : nat) (schedule : list Activity) : Prop :=
  Forall (λ a, match a with
               | inbound message => Request.requestId message ≠ id
               | turn _ => True
               end) schedule.

(** How many turns a schedule gives to a subscription. *)
Fixpoint turnsOf (subscription : nat) (schedule : list Activity) : nat :=
  match schedule with
  | [] => 0
  | inbound _ :: rest => turnsOf subscription rest
  | turn s :: rest =>
      if decide (s = subscription)
      then S (turnsOf subscription rest)
      else turnsOf subscription rest
  end.

(** A request id the connection has not used, and a next subscription
    number neither the registry nor the stream runtime holds. *)
Definition newRequest (id : nat) (w : World) : Prop :=
  _subscriptions (_objectRegistry (server w)) !! id = None
  ∧ map_Forall (λ _ s, observerId s ≠ id) (live w)
  ∧ map_Forall (λ _ s, s ≠ nextSubscription w) (_subscriptions (_objectRegistry (server w)))
  ∧ live w !! nextSubscription w = None.

Section Traffic.

Variable methodOf : jsval → string → option Function_.
Variable disposeOf : jsval → Result unit.
Variable marshalExternal : jsval → Ty → Result jsval.
Variable unmarshalExternal : ObjectRegistry → list jsval → list Ty → Result (list jsval).

Definition perform (a : Activity) (w : World) : World :=
  match a with
  | inbound message =>
      (handleMessage methodOf disposeOf marshalExternal unmarshalExternal message w).2
  | turn subscription => (deliver marshalExternal subscription w).2
  end.

Definition run (schedule : list Activity) (w : World) : World :=
  foldl (λ w a, perform a w) w schedule.

(** A message that is a call reaching a local implementation which returns
    a stream, for a declared return type [observable<elementType>]: a
    [FunctionCall] of a registered function, or a [MethodCall] on a
    registered object, whose arguments unmarshal. *)
Definition callsStream (message : Request.t) (w : World)
    (elementType : Ty) (o : Stream) : Prop :=
  (Request.type message = "FunctionCall"
   ∧ ∃ implementation f args,
       _functionsByName (server w) !! Request.function message = Some implementation
       ∧ unmarshalExternal (_objectRegistry (server w)) (Request.args message)
           (argumentTypes (ftype implementation)) = Ok args
       ∧ localImplementation implementation = Some f
       ∧ returnType (ftype implementation) = TObservable elementType
       ∧ f args = Ok (observable o))
  ∨ (Request.type message = "MethodCall"
     ∧ ∃ found classDefinition type f args,
         _registrations (_objectRegistry (server w)) !! Request.objectId message
           = Some found
         ∧ isNullish (object found) = false
         ∧ _classesByName (server w) !! _interface found = Some classDefinition
         ∧ instanceMethods (definition classDefinition) !! Request.method message
           = Some type
         ∧ unmarshalExternal (_objectRegistry (server w)) (Request.args message)
             (argumentTypes type) = Ok args
         ∧ methodOf (object found) (Request.method message) = Some f
         ∧ returnType type = TObservable elementType
         ∧ f args = Ok (observable o)).

(** The values [marshal] does not fail on, for a type registry. *)
Definition converts (types : TypeRegistry) (type : Ty) (value : jsval) : bool :=
  match type with
  | TNamed name =>
      match _namedMarshallers types !! name with
      | Some (interfaceMarshaller _) => true
      | _ => match marshalExternal value type with Ok _ => true | Throw _ => false end
      end
  | _ => match marshalExternal value type with Ok _ => true | Throw _ => false end
  end.

(** [data] is what [marshal] gives for [value] in some world with this
    type registry. *)
Definition conversion (types : TypeRegistry) (type : Ty) (value data : jsval) : Prop :=
  ∃ w w', _typeRegistry (server w) = types
          ∧ marshal marshalExternal value type w = (Ok data, w').

End Traffic.

(** A world that differs from another in the registered objects only. *)
Definition objectsOnly (w w' : World) : Prop :=
  ∃ objects nextId,
    w' = set_objectRegistry (λ r,
           {| _registrations := objects;
              _nextObjectId := nextId;
              _subscriptions := _subscriptions r |}) w.

(** ** What the traffic of other requests leaves alone *)

(** A request id with an invariant of worlds, and what a step may not
    change between the world it starts in and the world it ends in. *)
Record Frame : Type := {
  subject : nat;
  Inv : World → Prop;
  Rel : World → World → Prop
}.

(** A computation that keeps the invariant and changes nothing it may not;
    [P] holds of what it returns. *)
Definition ok (F : Frame) {A} (m : M A) (P : A → Prop) : Prop :=
  ∀ w, Inv F w → Inv F (m w).2 ∧ Rel F w (m w).2 ∧ ∀ a, (m w).1 = Ok a → P a.

Definition fine (F : Frame) {A} (m : M A) : Prop := ok F m (λ _, True).

Class Laws (F : Frame) : Prop := {
  Rel_refl : ∀ w, Rel F w w;
  Rel_trans : ∀ w1 w2 w3, Rel F w1 w2 → Rel F w2 w3 → Rel F w1 w3
}.

(** The changes of the world a handler is made of keep the frame, when they
    are made for another request id than its subject. *)
Class Keeps (F : Frame) : Prop := {
  keeps_objects : ∀ w w', objectsOnly w w' → Inv F w → Inv F w' ∧ Rel F w w';
  keeps_tracked : ∀ f w, Inv F w → Inv F (set_tracked f w) ∧ Rel F w (set_tracked f w);
  keeps_sent : ∀ message w,
    requestId message ≠ subject F →
    Inv F w →
    Inv F (set_sent (λ l, (l ++ [message])%list) w)
    ∧ Rel F w (set_sent (λ l, (l ++ [message])%list) w);
  keeps_removed : ∀ id w,
    id ≠ subject F →
    Inv F w →
    Inv F (set_objectRegistry (λ r,
             {| _registrations := _registrations r;
                _nextObjectId := _nextObjectId r;
                _subscriptions := delete id (_subscriptions r) |}) w)
    ∧ Rel F w (set_objectRegistry (λ r,
                 {| _registrations := _registrations r;
                    _nextObjectId := _nextObjectId r;
                    _subscriptions := delete id (_subscriptions r) |}) w)
}.

(** So do the two places where a handler touches the streams. *)
Class KeepsStreams (marshalExternal : jsval → Ty → Result jsval)
    (F : Frame) : Prop := {
  keeps_disposeSubscription : ∀ id,
    id ≠ subject F → fine F (ObjectRegistry_disposeSubscription id);
  keeps_returnObservable : ∀ id returnVal type,
    id ≠ subject F → fine F (returnObservable marshalExternal id returnVal type)
}.

Section Frame.

(** A request id and the number of its subscription. *)
Variable rid sid : nat.

(** The subscription number is taken, every other live subscription
    reports to another request id, and every other request id holds
    another subscription. *)
Definition Good (w : World) : Prop :=
  sid < nextSubscription w
  ∧ map_Forall (λ s x, s ≠ sid → observerId x ≠ rid) (live w)
  ∧ map_Forall (λ r s, r ≠ rid → s ≠ sid) (_subscriptions (_objectRegistry (server w))).

Definition Same (w w' : World) : Prop :=
  live w' !! sid = live w !! sid
  ∧ _subscriptions (_objectRegistry (server w')) !! rid
    = _subscriptions (_objectRegistry (server w)) !! rid
  ∧ responsesTo rid w' = responsesTo rid w
  ∧ _typeRegistry (server w') = _typeRegistry (server w).

(** The frame of a request whose stream is registered: what other requests
    keep and leave alone. *)
Definition streamFrame : Frame := {| subject := rid; Inv := Good; Rel := Same |}.

(** The stream of the request is live, with these events pending and
    these responses written. *)
Definition Streaming (types : TypeRegistry) (elementType : Ty)
    (events : list Event) (responses : list ResponseMessage) (w : World) : Prop :=
  Good w
  ∧ live w !! sid
    = Some {| observerId := rid; elementType := elementType; pending := events |}
  ∧ _subscriptions (_objectRegistry (server w)) !! rid = Some sid
  ∧ responsesTo rid w = responses
  ∧ _typeRegistry (server w) = types.

(** The stream of the request is over, or cancelled. *)
Definition Finished (responses : list ResponseMessage) (w : World) : Prop :=
  Good w
  ∧ live w !! sid = None
  ∧ responsesTo rid w = responses.

(** Every subscription number in use is below the next one. *)
Definition Tidy (w : World) : Prop :=
  map_Forall (λ _ s, s < nextSubscription w) (_subscriptions (_objectRegistry (server w)))
  ∧ map_Forall (λ s _, s < nextSubscription w) (live w).

(** The request id has not been used. *)
Definition Unused (w : World) : Prop :=
  _subscriptions (_objectRegistry (server w)) !! rid = None
  ∧ map_Forall (λ _ x, observerId x ≠ rid) (live w).

(** The frame of a request id before it is used, while at least [n]
    subscription numbers have been given out: they are never given back. *)
Definition historyFrame (n : nat) : Frame :=
  {| subject := rid;
     Inv := λ w, Tidy w ∧ Unused w ∧ (n ≤ nextSubscription w)%nat;
     Rel := λ w w', (nextSubscription w ≤ nextSubscription w')%nat |}.

End Frame.

(** What the registration of services leaves alone: the object registry
    and the streams. *)
Definition registering : Frame :=
  {| subject := 0;
     Inv := λ _, True;
     Rel := λ w w',
       _objectRegistry (server w') = _objectRegistry (server w)
       ∧ live w' = live w
       ∧ nextSubscription w' = nextSubscription w |}.

(** ** The events of one stream *)

Section Playing.

Variable marshalExternal : jsval → Ty → Result jsval.
Variable rid : nat.
Variable types : TypeRegistry.
Variable type : Ty.

(** A pending event that becomes a [next] message: a value that converts,
    or a conversion that has succeeded. *)
Definition playable (event : Event) : Prop :=
  match event with
  | emission value => converts marshalExternal types type value = true
  | converted (Ok _) => True
  | _ => False
  end.

(** The message a pending event of the stream becomes. *)
Definition expected (event : Event) (response : ResponseMessage) : Prop :=
  match event with
  | emission value =>
      ∃ data, conversion marshalExternal types type value data
              ∧ response = createNextMessage rid data
  | converted (Ok data) => response = createNextMessage rid data
  | completion => response = createCompletedMessage rid
  | _ => False
  end.

End Playing.

(** ** The dispatcher with and without its tracking span *)

(** Two worlds that differ in the calls made on timing trackers only. *)
Definition alike (w1 w2 : World) : Prop :=
  server w1 = server w2
  ∧ sent w1 = sent w2
  ∧ live w1 = live w2
  ∧ nextSubscription w1 = nextSubscription w2.

(** Two computations that, from alike worlds, end in alike worlds, both
    returning (related values) or both throwing (the same value). *)
Definition matching {A} (R : A → A → Prop) (m1 m2 : M A) : Prop :=
  ∀ w1 w2, alike w1 w2 →
    alike (m1 w1).2 (m2 w2).2
    ∧ match (m1 w1).1, (m2 w2).1 with
      | Ok a1, Ok a2 => R a1 a2
      | Throw e1, Throw e2 => e1 = e2
      | _, _ => False
      end.

(** What a handler writes while it serves another request id than [id]:
    messages that do not carry [id], after those already written. *)
Definition elsewhere (id : nat) : Frame :=
  {| subject := id;
     Inv := λ _, True;
     Rel := λ w w',
       ∃ new, sent w' = (sent w ++ new)%list ∧ Forall (λ r, requestId r ≠ id) new |}.

(** The request id holds no subscription in the object registry. *)
Definition unsubscribed (id : nat) (w : World) : Prop :=
  _subscriptions (_objectRegistry (server w)) !! id = None.

(** The steps of a handler that write nothing for its own request id and
    leave it without a subscription. *)
Definition quiet (id : nat) : Frame :=
  {| subject := id;
     Inv := unsubscribed id;
     Rel := λ w w', responsesTo id w' = responsesTo id w |}.

(** A computation that writes at most one message for the request id, and
    none when it throws. *)
Definition once (id : nat) {A} (m : M A) : Prop :=
  ∀ w, unsubscribed id w →
    match (m w).1 with
    | Ok _ => (length (responsesTo id (m w).2) ≤ S (length (responsesTo id w)))%nat
    | Throw _ => responsesTo id (m w).2 = responsesTo id w
    end.

(** A computation that returns and writes nothing for the request id. *)
Definition calm (id : nat) {A} (m : M A) : Prop :=
  ∀ w, (∃ a, (m w).1 = Ok a) ∧ responsesTo id (m w).2 = responsesTo id w.

(** What registration keeps: a registered function stays as it is, and
    the names of classes, types and aliases stay registered. *)
Definition kept : Frame :=
  {| subject := 0;
     Inv := λ _, True;
     Rel := λ w w',
       (∀ name f, _functionsByName (server w) !! name = Some f →
                  _functionsByName (server w') !! name = Some f)
       ∧ (∀ name, is_Some (_classesByName (server w) !! name) →
                  is_Some (_classesByName (server w') !! name))
       ∧ (∀ name, is_Some (_namedMarshallers (_typeRegistry (server w)) !! name) →
                  is_Some (_namedMarshallers (_typeRegistry (server w')) !! name))
       ∧ (∀ name, is_Some (_aliases (_typeRegistry (server w)) !! name) →
                  is_Some (_aliases (_typeRegistry (server w')) !! name)) |}.

(** An interface of a service as [addService] registers it: its values
    convert through the object registry, and the class table holds the
    export of the implementation module with a definition of that name. *)
Definition interfaceEntry (localImpl : LocalModule) (defs : list Definition_)
    (name : string) (w : World) : Prop :=
  _namedMarshallers (_typeRegistry (server w)) !! name = Some (interfaceMarshaller name)
  ∧ ∃ d, interface d ∈ defs
         ∧ interfaceName d = name
         ∧ _classesByName (server w) !! name
           = Some {| classImplementation := classes localImpl name; definition := d |}.

(** What registration keeps of such an entry. *)
Definition keptInterface (localImpl : LocalModule) (defs : list Definition_)
    (name : string) : Frame :=
  {| subject := 0;
     Inv := λ _, True;
     Rel := λ w w', interfaceEntry localImpl defs name w →
                    interfaceEntry localImpl defs name w' |}.

(** * Properties *)

(** ** Error formatting *)

Lemma formatError_Error message code stack :
  formatError (VError message code stack) = Ok (FObject message code stack).
Proof. reflexivity. Qed.

Lemma formatError_string s : formatError (VStr s) = Ok (FString s).
Proof. reflexivity. Qed.

Lemma formatError_undefined : formatError VUndefined = Ok FUndefined.
Proof. reflexivity. Qed.

(** Booleans, numbers and other objects are prefixed. *)
Lemma formatError_other error :
  match error with
  | VBool _ | VNum _ | VObject _ => True
  | _ => False
  end →
  ∃ s, toString error = Ok s ∧ formatError error = Ok (FString ("Unknown Error: " ++ s)).
Proof.
  destruct error as [| |b|n|s|m c st|r]; try contradiction; intros _.
  - destruct b; eexists; split; reflexivity.
  - eexists; split; reflexivity.
  - eexists; split; reflexivity.
Qed.

(** C9: on [null], which is neither an [Error], a string nor [undefined],
    [formatError] returns no string prefixed with "Unknown Error:": it
    throws the [TypeError] of [null.toString()]. *)
Theorem formatError_null :
  formatError VNull
  = Throw (new_TypeError "Cannot read property 'toString' of null")
  ∧ ∀ s, formatError VNull ≠ Ok (FString ("Unknown Error: " ++ s)).
Proof. split; [reflexivity | intros s H; discriminate H]. Qed.

(** Hence no error message can be built for [null]. *)
Lemma createErrorMessage_null requestId :
  createErrorMessage requestId VNull
  = Throw (new_TypeError "Cannot read property 'toString' of null").
Proof. reflexivity. Qed.

(** ** Registration *)

Section RegistrationFacts.

Variable registerTypeCheck : TypeRegistry → string → Result unit.
Variable registerAliasCheck : TypeRegistry → string → Ty → Result unit.

(** C6: registering a function under a name the function table already
    holds throws the duplicate error and changes nothing: the existing
    entry, with its implementation and type, is still there. *)
Theorem registerFunction_duplicate
    (w : World) (name : string) (existing : FunctionImplementation)
    (localImpl : option Function_) (type : FunctionType) :
  _functionsByName (server w) !! name = Some existing →
  _registerFunction name localImpl type w
  = (Throw (new_Error ("Duplicate RPC function: " ++ name)), w)
  ∧ _functionsByName (server (_registerFunction name localImpl type w).2) !! name
    = Some existing.
Proof.
  intros Hin.
  assert (_registerFunction name localImpl type w
          = (Throw (new_Error ("Duplicate RPC function: " ++ name)), w)) as ->.
  { unfold _registerFunction, bind, get_world. by rewrite Hin. }
  done.
Qed.

Lemma registerFunction_fresh w name localImpl type :
  _functionsByName (server w) !! name = None →
  _registerFunction name localImpl type w
  = (Ok tt, set_functionsByName
              (insert name {| localImplementation := localImpl; ftype := type |}) w).
Proof. intros Hout. unfold _registerFunction, bind, get_world. by rewrite Hout. Qed.

(** Registering functions never touches the class table. *)
Lemma registerFunction_classes w name localImpl type :
  _classesByName (server (_registerFunction name localImpl type w).2)
  = _classesByName (server w).
Proof.
  unfold _registerFunction, bind, get_world.
  by destruct (_functionsByName (server w) !! name).
Qed.

Lemma registerType_classes w name marshaller :
  _classesByName (server (registerType registerTypeCheck name marshaller w).2)
  = _classesByName (server w).
Proof.
  unfold registerType, bind, get_world, lift.
  by destruct (registerTypeCheck _ _).
Qed.

Lemma registerStatics_outcome (name : string) (c : option LocalClass)
    (methods : list (string * FunctionType)) (w : World) :
  let run := forEach (λ '(funcName, funcType),
    match c with
    | Some c => _registerFunction (name ++ "/" ++ funcName) (statics c funcName) funcType
    | None => throw (new_TypeError ("Cannot read property '" ++ funcName ++ "' of undefined"))
    end) methods w in
  _classesByName (server run.2) = _classesByName (server w)
  ∧ match run.1 with
    | Ok _ => True
    | Throw e => staticMethodError name e
    end.
Proof.
  revert w. induction methods as [|[funcName funcType] rest IH]; intros w; simpl.
  - done.
  - unfold bind at 1 2. destruct c as [c|].
    + pose proof (registerFunction_classes w (name ++ "/" ++ funcName)
                    (statics c funcName) funcType) as Hc.
      destruct (_functionsByName (server w) !! (name ++ "/" ++ funcName)) as [old|] eqn:Hf.
      * unfold _registerFunction, bind, get_world. rewrite Hf. simpl.
        split; [done|]. exists funcName. by left.
      * rewrite (registerFunction_fresh _ _ _ _ Hf) in Hc |- *.
        specialize (IH (set_functionsByName
          (insert (name ++ "/" ++ funcName)
             {| localImplementation := statics c funcName; ftype := funcType |}) w)).
        simpl in IH. destruct IH as [IH1 IH2]. split; [by rewrite IH1|done].
    + simpl. split; [done|]. exists funcName. by right.
Qed.

(** The static methods of an exported class are all registered exactly
    when their keys are free in the function table and differ from each
    other. *)
Lemma registerStatics_succeeds (name : string) (c : LocalClass)
    (methods : list (string * FunctionType)) (w : World) :
  (forEach (λ '(funcName, funcType),
     match Some c with
     | Some c => _registerFunction (name ++ "/" ++ funcName) (statics c funcName) funcType
     | None => throw (new_TypeError ("Cannot read property '" ++ funcName ++ "' of undefined"))
     end) methods w).1 = Ok tt
  ↔ NoDup ((λ method, name ++ "/" ++ method.1) <$> methods)
    ∧ Forall (λ key, _functionsByName (server w) !! key = None)
        ((λ method, name ++ "/" ++ method.1) <$> methods).
Proof.
  revert w. induction methods as [|[funcName funcType] rest IH]; intros w; simpl.
  - split; [intros _; split; constructor|done].
  - unfold bind at 1.
    destruct (_functionsByName (server w) !! (name ++ "/" ++ funcName)) as [old|] eqn:Hf.
    + unfold _registerFunction, bind, get_world. rewrite Hf. simpl. split; [done|].
      intros [_ [Hfree _]%Forall_cons]. congruence.
    + rewrite (registerFunction_fresh _ _ _ _ Hf). rewrite IH. simpl.
      rewrite NoDup_cons, Forall_cons.
      setoid_rewrite lookup_insert_None.
      rewrite Forall_and.
      assert (Forall (λ key, name ++ "/" ++ funcName ≠ key)
                ((λ method, name ++ "/" ++ method.1) <$> rest)
              ↔ name ++ "/" ++ funcName ∉ (λ method, name ++ "/" ++ method.1) <$> rest)
        as ->; [|tauto].
      rewrite Forall_forall. split.
      * intros Hall Hin. by apply (Hall _ Hin).
      * intros Hout key Hin Heq. by rewrite Heq in Hout.
Qed.

(** The error of a failed registration of static methods: a taken function
    key, or the first method read off a class the module does not
    export. *)
Lemma registerStatics_error (name : string) (c : option LocalClass)
    (methods : list (string * FunctionType)) (w : World) (e : jsval) :
  (forEach (λ '(funcName, funcType),
     match c with
     | Some c => _registerFunction (name ++ "/" ++ funcName) (statics c funcName) funcType
     | None => throw (new_TypeError ("Cannot read property '" ++ funcName ++ "' of undefined"))
     end) methods w).1 = Throw e →
  ∃ funcName funcType,
    (funcName, funcType) ∈ methods
    ∧ match c with
      | Some _ => e = new_Error ("Duplicate RPC function: " ++ name ++ "/" ++ funcName)
      | None => e = new_TypeError ("Cannot read property '" ++ funcName ++ "' of undefined")
      end.
Proof.
  revert w. induction methods as [|[funcName funcType] rest IH]; intros w; simpl.
  - done.
  - unfold bind at 1. destruct c as [c|].
    + destruct (_functionsByName (server w) !! (name ++ "/" ++ funcName)) as [old|] eqn:Hf.
      * unfold _registerFunction, bind, get_world. rewrite Hf. simpl. intros [= <-].
        exists funcName, funcType. split; [by left|done].
      * rewrite (registerFunction_fresh _ _ _ _ Hf). intros Hrest.
        destruct (IH _ Hrest) as (funcName' & funcType' & Hin & He).
        exists funcName', funcType'. split; [by right|done].
    + simpl. intros [= <-]. exists funcName, funcType.
      split; [by left|done].
Qed.

Lemma registerStatics_missing (name : string)
    (methods : list (string * FunctionType)) (w : World) :
  methods ≠ [] →
  (forEach (λ '(funcName, funcType),
     match @None LocalClass with
     | Some c => _registerFunction (name ++ "/" ++ funcName) (statics c funcName) funcType
     | None => throw (new_TypeError ("Cannot read property '" ++ funcName ++ "' of undefined"))
     end) methods w).1 ≠ Ok tt.
Proof. by destruct methods as [|[funcName funcType] rest]. Qed.

(** C10: processing an interface definition whose name the class table
    already holds.  Whatever the outcome, the class table afterwards is the
    one before with the later entry in place of the earlier one.  The
    definition is processed without an error exactly when the type registry
    accepts the name and the static methods can be registered: there are
    none, or the module exports the class, and their function keys are
    free in the function table and differ from each other.  An error is
    the type registry's refusal of the name, or comes from the registration
    of one of the static methods (its function key is taken, or the class
    is not exported); none comes from the class table. *)
Theorem interface_reregistration
    (w : World) (service : string) (localImpl : LocalModule)
    (d : InterfaceDefinition) (earlier : ClassEntry) :
  _classesByName (server w) !! interfaceName d = Some earlier →
  let name := interfaceName d in
  let later := {| classImplementation := classes localImpl name; definition := d |} in
  let keys := (λ method, name ++ "/" ++ method.1) <$> staticMethods d in
  let accepted := registerTypeCheck (_typeRegistry (server w)) name in
  let run := addDefinition registerTypeCheck registerAliasCheck service localImpl (interface d) w in
  _classesByName (server run.2) = <[name := later]> (_classesByName (server w))
  ∧ (run.1 = Ok tt
     ↔ accepted = Ok tt
       ∧ (staticMethods d = [] ∨ is_Some (classes localImpl name))
       ∧ NoDup keys
       ∧ Forall (λ key, _functionsByName (server w) !! key = None) keys)
  ∧ (∀ e, run.1 = Throw e →
       accepted = Throw e
       ∨ accepted = Ok tt
         ∧ ∃ funcName funcType,
             (funcName, funcType) ∈ staticMethods d
             ∧ match classes localImpl name with
               | Some _ =>
                   e = new_Error ("Duplicate RPC function: " ++ name ++ "/" ++ funcName)
               | None =>
                   e = new_TypeError ("Cannot read property '" ++ funcName
                                        ++ "' of undefined")
               end).
Proof.
  intros _. cbv zeta.
  set (entry := {| classImplementation := classes localImpl (interfaceName d);
                   definition := d |}).
  set (w1 := set_classesByName (insert (interfaceName d) entry) w).
  set (w2 := set_typeRegistry (λ r,
               {| _namedMarshallers :=
                    <[interfaceName d := interfaceMarshaller (interfaceName d)]>
                      (_namedMarshallers r);
                  _aliases := _aliases r |}) w1).
  assert (addDefinition registerTypeCheck registerAliasCheck service localImpl
            (interface d) w
          = match registerTypeCheck (_typeRegistry (server w)) (interfaceName d) with
            | Ok _ =>
                forEach (λ '(funcName, funcType),
                  match classes localImpl (interfaceName d) with
                  | Some c => _registerFunction (interfaceName d ++ "/" ++ funcName)
                                (statics c funcName) funcType
                  | None => throw (new_TypeError
                              ("Cannot read property '" ++ funcName ++ "' of undefined"))
                  end) (staticMethods d) w2
            | Throw e => (Throw e, w1)
            end) as ->.
  { unfold addDefinition, registerType, bind, get_world, lift, modify. simpl.
    by destruct (registerTypeCheck (_typeRegistry (server w)) (interfaceName d)). }
  destruct (registerTypeCheck (_typeRegistry (server w)) (interfaceName d))
    as [[]|refusal] eqn:Hcheck.
  - pose proof (registerStatics_outcome (interfaceName d)
                  (classes localImpl (interfaceName d)) (staticMethods d) w2) as [Hclasses _].
    cbv zeta in Hclasses. split; [by rewrite Hclasses|]. split.
    + destruct (classes localImpl (interfaceName d)) as [c|] eqn:Hclass.
      * rewrite registerStatics_succeeds. change (_functionsByName (server w2))
          with (_functionsByName (server w)).
        split; [intros [? ?]; eauto 10|]. by intros (_ & _ & ? & ?).
      * destruct (staticMethods d) as [|method methods] eqn:Hmethods.
        { simpl. split; [|done]. intros _. repeat split; eauto; constructor. }
        split.
        -- intros Hok. by apply registerStatics_missing in Hok.
        -- intros (_ & [?|[? ?]] & _); done.
    + intros e He. right. split; [done|]. by eapply registerStatics_error.
  - simpl. split; [done|]. split.
    + split; [done|]. by intros [? _].
    + intros e [= <-]. by left.
Qed.

End RegistrationFacts.

(** ** Running the model symbolically *)

(** Unfold the monad and the state accessors, leaving map operations,
    strings and the collaborators folded. *)
Ltac unfold_model :=
  cbv [handleMessage handleMessage_untracked handle trackingIdOfMessage startTracking_
       callFunction callMethod callConstructor returnValue returnPromise
       returnObservable subscribe deliver marshal_all finish_events
       observer_next observer_error observer_completed
       ObjectRegistry_add ObjectRegistry_get ObjectRegistry_disposeObject
       ObjectRegistry_addSubscription ObjectRegistry_removeSubscription
       ObjectRegistry_disposeSubscription registry
       marshal unmarshalArguments apply construct _getFunctionImplemention
       noTracker recordingTracker tracker_onSuccess tracker_onError Observable_throw voidType
       bind ret throw try_catch settled reaction lift get_world modify invariant
       sendSocketMessage track
       set_objectRegistry set_sent set_tracked set_live set_nextSubscription
       server sent tracked live nextSubscription
       _typeRegistry _functionsByName _classesByName _objectRegistry
       _registrations _nextObjectId _subscriptions _namedMarshallers _aliases
       emits finish synchronous observerId elementType pending
       fst snd negb].

(** Decide the comparisons of two literal type tags. *)
Ltac tags :=
  repeat match goal with
  | |- context [String.eqb ?a ?b] =>
      let v := eval vm_compute in (String.eqb a b) in
      match v with
      | true => idtac
      | false => idtac
      end;
      change (String.eqb a b) with v
  end;
  cbv beta iota zeta.

(** Split a world into its fields. *)
Ltac open_world w :=
  let nm := fresh "marshallers" in
  let al := fresh "aliases" in
  let fs := fresh "functions" in
  let cs := fresh "classes" in
  let regs := fresh "objects" in
  let nid := fresh "nextId" in
  let subs := fresh "subscriptions" in
  let snt := fresh "socket" in
  let trk := fresh "calls" in
  let lv := fresh "streams" in
  let nxt := fresh "nextSub" in
  destruct w as [[[nm al] fs cs [regs nid subs]] snt trk lv nxt]; simpl in *.

Ltac step H := rewrite H; cbv beta iota zeta.

(** ** The dispatcher boundary *)

Section DispatcherFacts.

Variable methodOf : jsval → string → option Function_.
Variable disposeOf : jsval → Result unit.
Variable marshalExternal : jsval → Ty → Result jsval.
Variable unmarshalExternal : ObjectRegistry → list jsval → list Ty → Result (list jsval).

Local Abbreviation handleMessage' :=
  (handleMessage methodOf disposeOf marshalExternal unmarshalExternal).
Local Abbreviation handleMessage_untracked' :=
  (handleMessage_untracked methodOf disposeOf marshalExternal unmarshalExternal).
Local Abbreviation handle' :=
  (handle methodOf disposeOf marshalExternal unmarshalExternal).

Lemma unknown_type_eqb (t : string) :
  t ∉ knownTypes →
  String.eqb t "FunctionCall" = false
  ∧ String.eqb t "MethodCall" = false
  ∧ String.eqb t "NewObject" = false
  ∧ String.eqb t "DisposeObject" = false
  ∧ String.eqb t "DisposeObservable" = false.
Proof.
  unfold knownTypes. intros Hnot.
  repeat split; apply String.eqb_neq; intros ->; apply Hnot; set_solver.
Qed.

(** The label of a message of unknown type cannot be computed. *)
Lemma trackingId_unknown_type message w :
  Request.type message ∉ knownTypes →
  trackingIdOfMessage message w
  = (Throw (new_Error ("Unknown message type " ++ Request.type message)), w).
Proof.
  intros (H1 & H2 & H3 & H4 & H5)%unknown_type_eqb.
  unfold trackingIdOfMessage. by rewrite H1, H2, H3, H4, H5.
Qed.

(** Nor that of a message naming an object the registry does not hold. *)
Lemma trackingId_unknown_object message w :
  Request.type message = "MethodCall" ∨ Request.type message = "DisposeObject" →
  _registrations (_objectRegistry (server w)) !! Request.objectId message = None →
  trackingIdOfMessage message w = (Throw (UnknownObject (Request.objectId message)), w).
Proof.
  intros [Ht|Ht] Hnone; unfold trackingIdOfMessage; rewrite Ht; simpl;
    unfold bind, ObjectRegistry_get, registry, bind; by rewrite Hnone.
Qed.

(** An error of [trackingIdOfMessage] is raised before the [try] block is
    entered: it leaves [handleMessage] and the world is as it was. *)
Lemma label_error_escapes message w e :
  trackingIdOfMessage message w = (Throw e, w) →
  handleMessage' message w = (Throw e, w).
Proof. intros H. unfold handleMessage, bind. by rewrite H. Qed.

(** Inside the [try] block the same errors are caught and answered. *)
Lemma untracked_unknown_type message w :
  Request.type message ∉ knownTypes →
  ∃ response,
    createErrorMessage (Request.requestId message)
      (new_Error ("Unkown message type " ++ Request.type message)) = Ok response
    ∧ handleMessage_untracked' message w
      = (Ok tt, set_sent (λ l, (l ++ [response])%list) w).
Proof.
  intros (H1 & H2 & H3 & H4 & H5)%unknown_type_eqb.
  eexists. split; [reflexivity|].
  unfold handleMessage_untracked, handle. by rewrite H1, H2, H3, H4, H5.
Qed.

Lemma untracked_unknown_object message w :
  Request.type message = "MethodCall" ∨ Request.type message = "DisposeObject" →
  _registrations (_objectRegistry (server w)) !! Request.objectId message = None →
  ∃ response,
    createErrorMessage (Request.requestId message)
      (UnknownObject (Request.objectId message)) = Ok response
    ∧ handleMessage_untracked' message w
      = (Ok tt, set_sent (λ l, (l ++ [response])%list) w).
Proof.
  intros Ht Hnone. eexists. split; [reflexivity|].
  unfold handleMessage_untracked, handle, try_catch.
  destruct Ht as [Ht|Ht]; rewrite Ht; simpl.
  - unfold callMethod, bind at 1 2. unfold ObjectRegistry_get at 1.
    unfold bind at 1. unfold registry at 1. by rewrite Hnone.
  - unfold ObjectRegistry_disposeObject, bind at 1 2 3. unfold ObjectRegistry_get at 1.
    unfold bind at 1. unfold registry at 1. by rewrite Hnone.
Qed.

(** C8: a message whose type tag is none of the five known ones makes
    [handleMessage] reject with the error of [trackingIdOfMessage]; the
    world is unchanged, so no [ErrorMessage] is written to the socket. *)
Theorem unknown_type_not_reported (message : Request.t) (w : World) :
  Request.type message ∉ knownTypes →
  handleMessage' message w
  = (Throw (new_Error ("Unknown message type " ++ Request.type message)), w)
  ∧ sent (handleMessage' message w).2 = sent w.
Proof.
  intros H%(trackingId_unknown_type _ w)%label_error_escapes.
  by rewrite H.
Qed.

(** C2: for a message of unknown type, and for a [MethodCall] or
    [DisposeObject] naming an unregistered object, the dispatcher with its
    tracking span writes nothing to the socket, while the dispatcher
    without it writes one error response carrying the request id. *)
Theorem tracking_changes_responses (message : Request.t) (w : World) :
  Request.type message ∉ knownTypes
  ∨ ((Request.type message = "MethodCall" ∨ Request.type message = "DisposeObject")
     ∧ _registrations (_objectRegistry (server w)) !! Request.objectId message = None) →
  sent (handleMessage' message w).2 = sent w
  ∧ ∃ response,
      sent (handleMessage_untracked' message w).2 = (sent w ++ [response])%list
      ∧ requestId response = Request.requestId message
      ∧ type response = "ErrorMessage"
      ∧ hadError response = true.
Proof.
  intros [Hu|[Ht Hnone]].
  - split.
    + by rewrite (label_error_escapes _ _ _ (trackingId_unknown_type _ w Hu)).
    + destruct (untracked_unknown_type _ w Hu) as (response & Hr & ->).
      exists response. split; [done|]. by injection Hr as <-.
  - split.
    + by rewrite (label_error_escapes _ _ _ (trackingId_unknown_object _ w Ht Hnone)).
    + destruct (untracked_unknown_object _ w Ht Hnone) as (response & Hr & ->).
      exists response. split; [done|]. by injection Hr as <-.
Qed.

(** A local implementation that throws [null]: the [catch] block itself
    throws while it builds the error message. *)
Lemma thrown_null_escapes message w implementation f args :
  Request.type message = "FunctionCall" →
  _functionsByName (server w) !! Request.function message = Some implementation →
  unmarshalExternal (_objectRegistry (server w)) (Request.args message)
    (argumentTypes (ftype implementation)) = Ok args →
  localImplementation implementation = Some f →
  f args = Throw VNull →
  handleMessage' message w
  = (Throw (new_TypeError "Cannot read property 'toString' of null"),
     set_tracked (λ l, ((l ++ [startTracking
                                 ("service-framework:" ++ Request.function message)])
                          ++ [onError (new_Error "")])%list) w).
Proof.
  intros Ht Hf Hu Hl Hthrow.
  unfold handleMessage, trackingIdOfMessage. rewrite Ht. simpl.
  unfold bind at 1. unfold ret at 1. unfold bind at 1.
  unfold startTracking_, bind at 1. unfold track at 1, modify at 1. unfold ret at 1.
  unfold handle, try_catch. rewrite Ht. simpl.
  unfold callFunction, bind at 1 2. unfold _getFunctionImplemention, bind at 1.
  unfold get_world at 1. simpl. rewrite Hf. unfold ret at 1.
  unfold bind at 1. unfold unmarshalArguments, bind at 1, registry at 1. simpl.
  rewrite Hu. unfold lift at 1. unfold bind at 1. unfold apply. rewrite Hl.
  unfold lift at 1. rewrite Hthrow. simpl.
  destruct w as [[tr fs cs r] s t l n]. reflexivity.
Qed.

(** C1: some per-request errors are not turned into a response: a
    [MethodCall] on an object the registry does not hold, and a function
    call whose local implementation throws [null], both make
    [handleMessage] reject, and nothing is written to the socket. *)
Theorem request_error_escapes
    (message : Request.t) (w : World)
    (implementation : FunctionImplementation) (f : Function_) (args : list jsval) :
  (Request.type message = "MethodCall"
   ∧ _registrations (_objectRegistry (server w)) !! Request.objectId message = None)
  ∨ (Request.type message = "FunctionCall"
     ∧ _functionsByName (server w) !! Request.function message = Some implementation
     ∧ unmarshalExternal (_objectRegistry (server w)) (Request.args message)
         (argumentTypes (ftype implementation)) = Ok args
     ∧ localImplementation implementation = Some f
     ∧ f args = Throw VNull) →
  (∃ e, (handleMessage' message w).1 = Throw e)
  ∧ sent (handleMessage' message w).2 = sent w.
Proof.
  intros [[Ht Hnone]|(Ht & Hf & Hu & Hl & Hthrow)].
  - rewrite (label_error_escapes _ _ _
               (trackingId_unknown_object _ w (or_introl Ht) Hnone)).
    eauto.
  - rewrite (thrown_null_escapes _ _ _ _ _ Ht Hf Hu Hl Hthrow). eauto.
Qed.

(** The first disposal of a registered object is answered and removes it. *)
Lemma dispose_registered message w registration data :
  Request.type message = "DisposeObject" →
  _registrations (_objectRegistry (server w)) !! Request.objectId message
    = Some registration →
  isNullish (object registration) = false →
  disposeOf (object registration) = Ok tt →
  marshalExternal VUndefined voidType = Ok data →
  let w' := (handleMessage' message w).2 in
  (handleMessage' message w).1 = Ok tt
  ∧ sent w' = (sent w ++ [createPromiseMessage (Request.requestId message) data])%list
  ∧ _registrations (_objectRegistry (server w'))
    = delete (Request.objectId message) (_registrations (_objectRegistry (server w))).
Proof.
  intros Ht Hreg Hnn Hd Hm.
  unfold voidType in Hm. open_world w. unfold_model.
  step Ht. tags.
  repeat (progress (rewrite ?Hreg, ?Hnn, ?Hd, ?Hm; cbv beta iota zeta)).
  done.
Qed.

(** A [NewObject] that succeeds is answered with the id of the object it
    registers. *)
Lemma new_object_registered message w classDefinition c args instance name :
  Request.type message = "NewObject" →
  _classesByName (server w) !! Request.interface message = Some classDefinition →
  unmarshalExternal (_objectRegistry (server w)) (Request.args message)
    (constructorArgs (definition classDefinition)) = Ok args →
  classImplementation classDefinition = Some c →
  construct_ c args = Ok instance →
  _namedMarshallers (_typeRegistry (server w)) !! Request.interface message
    = Some (interfaceMarshaller name) →
  let id := _nextObjectId (_objectRegistry (server w)) in
  let w' := (handleMessage' message w).2 in
  sent w' = (sent w ++ [createPromiseMessage (Request.requestId message)
                          (VNum (Z.of_nat id))])%list
  ∧ _registrations (_objectRegistry (server w'))
    = <[id := {| object := instance; _interface := name |}]>
        (_registrations (_objectRegistry (server w))).
Proof.
  intros Ht Hclass Hu Hc Hnew Hm.
  open_world w. unfold_model. step Ht. tags.
  repeat (progress (rewrite ?Hclass, ?Hu, ?Hc, ?Hnew, ?Hm; cbv beta iota zeta)).
  done.
Qed.

(** C5: a [NewObject] that succeeds is answered with a new object id; the
    first [DisposeObject] for that id is answered with one void
    [PromiseMessage]; a second [DisposeObject] for the same id makes
    [handleMessage] reject with [UnknownObject]: the world is unchanged, no
    error response is written. *)
Theorem second_dispose_not_reported
    (create first second : Request.t) (w : World)
    (classDefinition : ClassEntry) (c : LocalClass) (args : list jsval)
    (instance : jsval) (name : string) (data : jsval) :
  let id := _nextObjectId (_objectRegistry (server w)) in
  Request.type create = "NewObject" →
  _classesByName (server w) !! Request.interface create = Some classDefinition →
  unmarshalExternal (_objectRegistry (server w)) (Request.args create)
    (constructorArgs (definition classDefinition)) = Ok args →
  classImplementation classDefinition = Some c →
  construct_ c args = Ok instance →
  _namedMarshallers (_typeRegistry (server w)) !! Request.interface create
    = Some (interfaceMarshaller name) →
  isNullish instance = false →
  disposeOf instance = Ok tt →
  marshalExternal VUndefined voidType = Ok data →
  Request.type first = "DisposeObject" →
  Request.objectId first = id →
  Request.type second = "DisposeObject" →
  Request.objectId second = id →
  let created := (handleMessage' create w).2 in
  let disposed := (handleMessage' first created).2 in
  sent created
  = (sent w ++ [createPromiseMessage (Request.requestId create) (VNum (Z.of_nat id))])%list
  ∧ sent disposed
    = (sent created ++ [createPromiseMessage (Request.requestId first) data])%list
  ∧ handleMessage' second disposed = (Throw (UnknownObject id), disposed).
Proof.
  intros id Ht Hclass Hu Hc Hnew Hm Hnn Hd Hvoid Ht1 Hid1 Ht2 Hid2 created disposed.
  destruct (new_object_registered create w classDefinition c args instance name
              Ht Hclass Hu Hc Hnew Hm) as (Hsent & Hregs).
  fold id created in Hsent, Hregs.
  assert (_registrations (_objectRegistry (server created)) !! Request.objectId first
          = Some {| object := instance; _interface := name |}) as Hreg.
  { rewrite Hregs, Hid1. apply lookup_insert_eq. }
  destruct (dispose_registered first created _ data Ht1 Hreg Hnn Hd Hvoid)
    as (_ & Hsent' & Hregs').
  fold disposed in Hsent', Hregs'.
  split; [done|]. split; [done|].
  rewrite <- Hid2. apply label_error_escapes, trackingId_unknown_object; [by right|].
  rewrite Hregs', Hid2, Hid1. apply lookup_delete_eq.
Qed.

(** ** Promise-returning calls *)

Local Abbreviation returnPromise' :=
  (returnPromise marshalExternal).
Local Abbreviation marshal' := (marshal marshalExternal).

(** A deferred that resolves with a value that marshals: one
    [PromiseMessage], then the span is closed with success. *)
Lemma promise_resolved requestId value type w data w1 :
  marshal' value type w = (Ok data, w1) →
  returnPromise' requestId recordingTracker (thenable (Resolves value)) type w
  = (Ok tt,
     set_tracked (λ l, (l ++ [onSuccess])%list)
       (set_sent (λ l, (l ++ [createPromiseMessage requestId data])%list) w1)).
Proof.
  intros Hm. unfold returnPromise, bind, settled. rewrite Hm.
  by destruct w1.
Qed.


(** A deferred that rejects with an error that can be formatted: one error
    response. *)
Lemma promise_rejected requestId error type w response :
  createErrorMessage requestId error = Ok response →
  returnPromise' requestId recordingTracker (thenable (Rejects error)) type w
  = (Ok tt,
     set_tracked (λ l, (l ++ [onError (if isNullish error then new_Error "" else error)])%list)
       (set_sent (λ l, (l ++ [response])%list) w)).
Proof.
  intros Hr. unfold returnPromise, reaction, bind, lift. rewrite Hr. by destruct w.
Qed.

(** A value that is no deferred: one error response, for the synthesized
    rejection. *)
Lemma promise_expected requestId candidate type w :
  isThenable candidate = false →
  ∃ response,
    createErrorMessage requestId
      (new_Error "Expected a Promise, but the function returned something else.")
      = Ok response
    ∧ sent (returnPromise' requestId recordingTracker candidate type w).2
      = (sent w ++ [response])%list.
Proof.
  intros Hno. eexists. split; [reflexivity|].
  destruct candidate; [|discriminate Hno|]; by destruct w.
Qed.

(** A deferred that rejects with [null]: the rejection handler throws
    while it builds the error message, and nothing is sent. *)
Lemma promise_rejected_null requestId timingTracker type w :
  returnPromise' requestId timingTracker (thenable (Rejects VNull)) type w = (Ok tt, w).
Proof. reflexivity. Qed.

(** C4: a call of a function declared to return a promise, whose local
    implementation returns a deferred that rejects with [null], is
    answered by no message at all: [handleMessage] completes and the
    socket is as it was. *)
Theorem rejection_with_null_unanswered
    (message : Request.t) (w : World)
    (implementation : FunctionImplementation) (f : Function_) (args : list jsval)
    (t : Ty) :
  Request.type message = "FunctionCall" →
  _functionsByName (server w) !! Request.function message = Some implementation →
  unmarshalExternal (_objectRegistry (server w)) (Request.args message)
    (argumentTypes (ftype implementation)) = Ok args →
  localImplementation implementation = Some f →
  returnType (ftype implementation) = TPromise t →
  f args = Ok (thenable (Rejects VNull)) →
  (handleMessage' message w).1 = Ok tt
  ∧ sent (handleMessage' message w).2 = sent w.
Proof.
  intros Ht Hf Hu Hl Hr Hreject.
  open_world w. unfold_model. step Ht. tags.
  repeat (progress (rewrite ?Hf, ?Hu, ?Hl, ?Hr, ?Hreject; cbv beta iota zeta)).
  done.
Qed.

(** ** Streams that end inside [subscribe] *)

Local Abbreviation returnObservable' := (returnObservable marshalExternal).

(** A stream that completes inside [subscribe] without a value: the
    [completed] event is sent, the (absent) entry is removed, and then
    the entry is added. *)
Lemma completed_stream_stays_registered requestId elementType w :
  let empty := {| emits := []; finish := Completes; synchronous := true |} in
  let w' := (returnObservable' requestId (observable empty) elementType w).2 in
  sent w' = (sent w ++ [createCompletedMessage requestId])%list
  ∧ _subscriptions (_objectRegistry (server w')) !! requestId
    = Some (nextSubscription w).
Proof.
  open_world w. unfold_model. rewrite lookup_delete_eq. cbv beta iota zeta.
  split; [done|]. apply lookup_insert_eq.
Qed.

(** C7: when the function returns something that is no stream, the
    synthesized stream fails inside [subscribe]: its error event is sent,
    and after it the object registry holds a subscription entry for the
    request id. *)
Theorem failed_stream_stays_registered
    (requestId : nat) (value : jsval) (elementType : Ty) (w : World) :
  let w' := (returnObservable' requestId (plain value) elementType w).2 in
  (∃ response,
     createErrorMessage requestId
       (new_Error "Expected an Observable, but the function returned something else.")
       = Ok response
     ∧ sent w' = (sent w ++ [response])%list)
  ∧ _subscriptions (_objectRegistry (server w')) !! requestId
    = Some (nextSubscription w).
Proof.
  open_world w. unfold_model. cbv [createErrorMessage formatError new_Error].
  rewrite lookup_delete_eq. cbv beta iota zeta.
  split; [eexists; split; reflexivity|]. apply lookup_insert_eq.
Qed.

End DispatcherFacts.

(** ** Steps that keep a frame *)

Section ObjectsOnly.

Variable marshalExternal : jsval → Ty → Result jsval.

Lemma objectsOnly_refl w : objectsOnly w w.
Proof.
  exists (_registrations (_objectRegistry (server w))),
         (_nextObjectId (_objectRegistry (server w))).
  destruct w as [[? ? ? []] ? ? ? ?]. reflexivity.
Qed.

Lemma objectsOnly_trans w1 w2 w3 : objectsOnly w1 w2 → objectsOnly w2 w3 → objectsOnly w1 w3.
Proof. intros (o1 & n1 & ->) (o2 & n2 & ->). by exists o2, n2. Qed.

Lemma add_objectsOnly name instance w :
  objectsOnly w (ObjectRegistry_add name instance w).2.
Proof. eexists _, _. destruct w as [[? ? ? []] ? ? ? ?]. reflexivity. Qed.

Lemma marshal_objectsOnly value type w :
  objectsOnly w (marshal marshalExternal value type w).2.
Proof.
  unfold marshal, bind at 1, get_world.
  destruct type as [| | |name|]; try apply objectsOnly_refl.
  destruct (_ !! name) as [[|interfaceName]|]; try apply objectsOnly_refl.
  pose proof (add_objectsOnly interfaceName value w) as Hadd. unfold bind.
  by destruct (ObjectRegistry_add interfaceName value w) as [[id|e] w1].
Qed.

Lemma marshal_all_objectsOnly values type w :
  objectsOnly w (marshal_all marshalExternal values type w).2.
Proof.
  revert w. induction values as [|value rest IH]; intros w; simpl.
  - apply objectsOnly_refl.
  - unfold bind at 1, settled.
    pose proof (marshal_objectsOnly value type w) as H1.
    destruct (marshal marshalExternal value type w) as [[data|e] w1]; simpl in H1.
    + unfold bind. specialize (IH w1).
      destruct (marshal_all marshalExternal rest type w1) as [[others|e] w2];
        simpl in *; by eapply objectsOnly_trans.
    + unfold bind. specialize (IH w1).
      destruct (marshal_all marshalExternal rest type w1) as [[others|e'] w2];
        simpl in *; by eapply objectsOnly_trans.
Qed.

Lemma createErrorMessage_requestId id error response :
  createErrorMessage id error = Ok response →
  requestId response = id.
Proof.
  unfold createErrorMessage. destruct (formatError error); [|done].
  by intros [= <-].
Qed.

Lemma responsesTo_send id w message :
  responsesTo id (set_sent (λ l, (l ++ [message])%list) w)
  = (responsesTo id w
       ++ if decide (requestId message = id) then [message] else [])%list.
Proof. unfold responsesTo. simpl. by rewrite filter_app. Qed.

End ObjectsOnly.

Section Preserved.

Context {disposeOf : jsval → Result unit}.
Context {marshalExternal : jsval → Ty → Result jsval}.
Context {unmarshalExternal : ObjectRegistry → list jsval → list Ty → Result (list jsval)}.
Context {F : Frame} `{!Laws F}.

(** *** The monad *)

Lemma ok_weaken {A} (m : M A) (P Q : A → Prop) :
  ok F m P → (∀ a, P a → Q a) → ok F m Q.
Proof. intros Hm HPQ w Hg. destruct (Hm w Hg) as (? & ? & ?). eauto. Qed.

Lemma ok_fine {A} (m : M A) (P : A → Prop) : ok F m P → fine F m.
Proof. intros Hm. by eapply ok_weaken. Qed.

Lemma ok_ret {A} (a : A) (P : A → Prop) : P a → ok F (ret a) P.
Proof.
  intros HP w Hg. split; [exact Hg|]. split; [apply Rel_refl|].
  intros a' [= <-]. done.
Qed.

Lemma fine_ret {A} (a : A) : fine F (ret a).
Proof. by apply ok_ret. Qed.

Lemma ok_throw {A} (e : jsval) (P : A → Prop) : ok F (throw e) P.
Proof. intros w Hg. split; [exact Hg|]. split; [apply Rel_refl|done]. Qed.

Lemma fine_lift {A} (r : Result A) : fine F (lift r).
Proof. intros w Hg. split; [exact Hg|]. split; [apply Rel_refl|done]. Qed.

Lemma fine_get_world : fine F get_world.
Proof. intros w Hg. split; [exact Hg|]. split; [apply Rel_refl|done]. Qed.

Lemma fine_registry : fine F registry.
Proof. intros w Hg. split; [exact Hg|]. split; [apply Rel_refl|done]. Qed.

Lemma ok_bind {A B} (m : M A) (k : A → M B) (P : A → Prop) (Q : B → Prop) :
  ok F m P → (∀ a, P a → ok F (k a) Q) → ok F (bind m k) Q.
Proof.
  intros Hm Hk w Hg. destruct (Hm w Hg) as (Hg1 & Hs1 & HP).
  unfold bind. destruct (m w) as [[a|e] w1]; simpl in *.
  - destruct (Hk a (HP a eq_refl) w1 Hg1) as (Hg2 & Hs2 & HQ).
    split; [done|]. split; [by eapply Rel_trans|done].
  - done.
Qed.

Lemma fine_bind {A B} (m : M A) (k : A → M B) :
  fine F m → (∀ a, fine F (k a)) → fine F (bind m k).
Proof. intros Hm Hk. eapply ok_bind; [exact Hm|]. intros a _. apply Hk. Qed.

Lemma ok_then {A B} (m : M A) (k : M B) (Q : B → Prop) :
  fine F m → ok F k Q → ok F (bind m (λ _, k)) Q.
Proof. intros Hm Hk. eapply ok_bind; [exact Hm|]. by intros a _. Qed.

Lemma fine_try_catch {A} (m : M A) (handler : jsval → M A) :
  fine F m → (∀ e, fine F (handler e)) → fine F (try_catch m handler).
Proof.
  intros Hm Hh w Hg. destruct (Hm w Hg) as (Hg1 & Hs1 & _).
  unfold try_catch. destruct (m w) as [[a|e] w1]; simpl in *.
  - done.
  - destruct (Hh e w1 Hg1) as (Hg2 & Hs2 & _).
    split; [done|]. split; [by eapply Rel_trans|done].
Qed.

Lemma fine_settled {A} (m : M A) : fine F m → fine F (settled m).
Proof.
  intros Hm w Hg. destruct (Hm w Hg) as (Hg1 & Hs1 & _).
  unfold settled. by destruct (m w) as [[a|e] w1].
Qed.

Lemma fine_reaction (m : M unit) : fine F m → fine F (reaction m).
Proof.
  intros Hm w Hg. destruct (Hm w Hg) as (Hg1 & Hs1 & _).
  unfold reaction. by destruct (m w) as [r w1].
Qed.

Lemma fine_modify (f : World → World) :
  (∀ w, Inv F w → Inv F (f w) ∧ Rel F w (f w)) → fine F (modify f).
Proof. intros Hf w Hg. destruct (Hf w Hg). split; [done|]. split; done. Qed.

Lemma fine_invariant condition shown : fine F (invariant condition shown).
Proof. destruct condition; [apply fine_ret|apply ok_throw]. Qed.

Lemma fine_get objectId : fine F (ObjectRegistry_get objectId).
Proof.
  apply fine_bind; [apply fine_registry|]. intros r.
  destruct (_ !! _); [apply fine_ret|apply ok_throw].
Qed.

Lemma fine_unmarshalArguments args types :
  fine F (unmarshalArguments unmarshalExternal args types).
Proof. apply fine_bind; [apply fine_registry|]. intros r. apply fine_lift. Qed.

Lemma ok_error_response id error :
  id ≠ subject F →
  ok F (lift (createErrorMessage id error))
    (λ response, requestId response ≠ subject F).
Proof.
  intros Hne w Hg. split; [exact Hg|]. split; [apply Rel_refl|].
  intros response Hr. simpl in Hr.
  by rewrite (createErrorMessage_requestId _ _ _ Hr).
Qed.

Lemma fine_respond {B} id error (k : ResponseMessage → M B) :
  id ≠ subject F →
  (∀ response, requestId response ≠ subject F → fine F (k response)) →
  fine F (bind (lift (createErrorMessage id error)) k).
Proof. intros Hne Hk. eapply ok_bind; [by apply ok_error_response|]. exact Hk. Qed.

(** *** The collaborators *)

Context `{!Keeps F}.

Lemma fine_send message : requestId message ≠ subject F → fine F (sendSocketMessage message).
Proof. intros Hne. apply fine_modify. intros w Hg. by apply keeps_sent. Qed.

Lemma fine_track t : fine F (track t).
Proof. apply fine_modify. intros w Hg. by apply keeps_tracked. Qed.

Lemma objectsOnly_fine {A} (m : M A) : (∀ w, objectsOnly w (m w).2) → fine F m.
Proof.
  intros Hm w Hg. destruct (keeps_objects _ _ (Hm w) Hg).
  split; [done|]. split; done.
Qed.

Lemma fine_add interfaceName instance : fine F (ObjectRegistry_add interfaceName instance).
Proof. apply objectsOnly_fine, add_objectsOnly. Qed.

Lemma fine_disposeObject objectId : fine F (ObjectRegistry_disposeObject disposeOf objectId).
Proof.
  apply fine_bind; [apply fine_get|]. intros registration.
  apply fine_bind; [|intros; apply fine_lift].
  apply objectsOnly_fine. intros w. eexists _, _.
  destruct w as [[? ? ? []] ? ? ? ?]. reflexivity.
Qed.

Lemma fine_removeSubscription id :
  id ≠ subject F → fine F (ObjectRegistry_removeSubscription id).
Proof. intros Hr. apply fine_modify. intros w Hg. by apply keeps_removed. Qed.

Lemma fine_marshal value type : fine F (marshal marshalExternal value type).
Proof. apply objectsOnly_fine, marshal_objectsOnly. Qed.

Lemma fine_marshal_all values type : fine F (marshal_all marshalExternal values type).
Proof. apply objectsOnly_fine, marshal_all_objectsOnly. Qed.

Lemma fine_observer_next id data : id ≠ subject F → fine F (observer_next id data).
Proof. intros Hne. by apply fine_send. Qed.

Lemma fine_observer_error id error : id ≠ subject F → fine F (observer_error id error).
Proof.
  intros Hne. apply fine_respond; [done|].
  intros response Hr. apply fine_bind; [by apply fine_send|]. intros _.
  by apply fine_removeSubscription.
Qed.

Lemma fine_observer_completed id : id ≠ subject F → fine F (observer_completed id).
Proof.
  intros Hne. apply fine_bind; [by apply fine_send|]. intros _.
  by apply fine_removeSubscription.
Qed.

End Preserved.

(** Take a computation apart along its binds and branches, closing the
    steps that are known to keep the frame. *)
Ltac frame_laws :=
  match goal with
  | |- Laws _ => exact _
  | |- Keeps _ => exact _
  | |- KeepsStreams _ _ => exact _
  end.

Ltac fine_basic :=
  first
    [ apply fine_ret | apply ok_throw | apply fine_lift | apply fine_get_world
    | apply fine_registry | apply fine_track | apply fine_invariant
    | apply fine_get | apply fine_add | apply fine_disposeObject
    | apply fine_marshal | apply fine_marshal_all | apply fine_unmarshalArguments
    | solve [apply fine_send; first [frame_laws | done]]
    | solve [apply fine_observer_next; first [frame_laws | done]]
    | solve [apply fine_observer_error; first [frame_laws | done]]
    | solve [apply fine_observer_completed; first [frame_laws | done]]
    | solve [apply fine_removeSubscription; first [frame_laws | done]] ].

Ltac fine_with known :=
  repeat first
    [ progress intros
    | frame_laws
    | known
    | fine_basic
    | solve [auto]
    | apply fine_settled | apply fine_reaction | apply fine_try_catch
    | apply fine_respond; [frame_laws .. | done | ]
    | apply fine_bind
    | case_match ].

Ltac fine_auto := fine_with fail.

(** ** The handler of another request keeps a frame *)

Section PreservedHandler.

Context {methodOf : jsval → string → option Function_}.
Context {disposeOf : jsval → Result unit}.
Context {marshalExternal : jsval → Ty → Result jsval}.
Context {unmarshalExternal : ObjectRegistry → list jsval → list Ty → Result (list jsval)}.
Context {F : Frame} `{!Laws F, !Keeps F, !KeepsStreams marshalExternal F}.

Section OtherHandler.

Variable id : nat.
Variable timingTracker : TimingTracker.
Hypothesis other : id ≠ subject F.
Hypothesis fine_onSuccess : fine F (tracker_onSuccess timingTracker).
Hypothesis fine_onError : ∀ e, fine F (tracker_onError timingTracker e).

Lemma fine_returnPromise candidate type :
  fine F (returnPromise marshalExternal id timingTracker candidate type).
Proof. unfold returnPromise. fine_auto. Qed.

Lemma fine_returnValue value type :
  fine F (returnValue marshalExternal id timingTracker value type).
Proof.
  unfold returnValue. destruct type;
    fine_with ltac:(first [ apply fine_returnPromise
                          | solve [apply keeps_returnObservable; first [frame_laws | done]] ]).
Qed.

Lemma fine_apply f args : fine F (apply f args).
Proof. unfold apply. fine_auto. Qed.

Lemma fine_callFunction call :
  fine F (callFunction marshalExternal unmarshalExternal id timingTracker call).
Proof.
  unfold callFunction, _getFunctionImplemention.
  fine_with ltac:(first [apply fine_apply | apply fine_returnValue]).
Qed.

Lemma fine_callMethod call :
  fine F (callMethod methodOf marshalExternal unmarshalExternal id timingTracker call).
Proof.
  unfold callMethod.
  fine_with ltac:(first [apply fine_apply | apply fine_returnValue]).
Qed.

Lemma fine_callConstructor call :
  fine F (callConstructor marshalExternal unmarshalExternal id timingTracker call).
Proof.
  unfold callConstructor, construct.
  fine_with ltac:(apply fine_returnPromise).
Qed.

Lemma fine_handle message :
  fine F (handle methodOf disposeOf marshalExternal unmarshalExternal
            id timingTracker message).
Proof.
  unfold handle.
  fine_with ltac:(first [ apply fine_callFunction | apply fine_callMethod
                        | apply fine_callConstructor | apply fine_returnPromise
                        | solve [apply keeps_disposeSubscription; first [frame_laws | done]] ]).
Qed.

End OtherHandler.

Lemma fine_trackingIdOfMessage message : fine F (trackingIdOfMessage message).
Proof. unfold trackingIdOfMessage. fine_auto. Qed.

(** A message with another request id. *)
Lemma fine_handleMessage message :
  Request.requestId message ≠ subject F →
  fine F (handleMessage methodOf disposeOf marshalExternal unmarshalExternal message).
Proof.
  intros Hne. unfold handleMessage.
  apply fine_bind; [apply fine_trackingIdOfMessage|]. intros label.
  apply ok_bind with (P := λ t, t = recordingTracker).
  { unfold startTracking_. apply ok_then; [apply fine_track|by apply ok_ret]. }
  intros timingTracker ->.
  apply fine_handle; [done|apply fine_track|intros e; apply fine_track].
Qed.

End PreservedHandler.

(** ** Other requests leave a stream alone *)

Section FrameFacts.

Variable methodOf : jsval → string → option Function_.
Variable disposeOf : jsval → Result unit.
Variable marshalExternal : jsval → Ty → Result jsval.
Variable unmarshalExternal : ObjectRegistry → list jsval → list Ty → Result (list jsval).
Variable rid sid : nat.

Local Abbreviation Good' := (Good rid sid).
Local Abbreviation Same' := (Same rid sid).
Local Abbreviation F := (streamFrame rid sid).

Lemma Same_refl w : Same' w w.
Proof. by repeat split. Qed.

Lemma Same_trans w1 w2 w3 : Same' w1 w2 → Same' w2 w3 → Same' w1 w3.
Proof.
  intros (H1 & H2 & H3 & H4) (K1 & K2 & K3 & K4).
  repeat split; congruence.
Qed.

#[local] Instance stream_laws : Laws F.
Proof. split; [apply Same_refl|apply Same_trans]. Qed.

Lemma objectsOnly_frame w w' : objectsOnly w w' → Good' w → Good' w' ∧ Same' w w'.
Proof. intros (o & n & ->) Hg. split; [exact Hg|by repeat split]. Qed.

#[local] Instance stream_keeps : Keeps F.
Proof.
  split.
  - apply objectsOnly_frame.
  - intros f w Hg. split; [exact Hg|by repeat split].
  - intros message w Hne Hg. split; [exact Hg|].
    repeat split; try done.
    rewrite responsesTo_send. rewrite decide_False by done. apply app_nil_r.
  - intros id w Hne (Hg1 & Hg2 & Hg3). split.
    + split; [done|]. split; [done|]. simpl. by apply map_Forall_delete.
    + repeat split; try done. simpl. by rewrite lookup_delete_ne.
Qed.

Lemma fine_addSubscription id subscription :
  id ≠ rid → subscription ≠ sid →
  fine F (ObjectRegistry_addSubscription id subscription).
Proof.
  intros Hr Hs. apply fine_bind; [apply fine_registry|]. intros r.
  destruct (_ !! _); [apply ok_throw|].
  apply fine_modify. intros w (Hg1 & Hg2 & Hg3). split.
  - split; [done|]. split; [done|]. simpl. by apply map_Forall_insert_2.
  - repeat split; try done. simpl. by rewrite lookup_insert_ne.
Qed.

Lemma fine_disposeSubscription id :
  id ≠ rid → fine F (ObjectRegistry_disposeSubscription id).
Proof.
  intros Hr w Hg.
  assert (ObjectRegistry_disposeSubscription id w
          = match _subscriptions (_objectRegistry (server w)) !! id with
            | Some subscription =>
                (ObjectRegistry_removeSubscription id ;;
                 modify (set_live (delete subscription))) w
            | None => ret tt w
            end) as ->.
  { unfold ObjectRegistry_disposeSubscription, bind at 1, registry.
    by destruct (_ !! _). }
  destruct (_subscriptions (_objectRegistry (server w)) !! id)
    as [subscription|] eqn:Hsub; [|by apply fine_ret].
  assert (subscription ≠ sid) as Hs.
  { destruct Hg as (_ & _ & Hg3). by apply (Hg3 id). }
  revert w Hg Hsub. intros w Hg _. revert w Hg.
  change (fine F (ObjectRegistry_removeSubscription id ;;
                  modify (set_live (delete subscription)))).
  apply fine_bind; [by apply fine_removeSubscription|]. intros _.
  apply fine_modify. intros w (Hg1 & Hg2 & Hg3). split.
  - split; [done|]. split; [|done]. simpl. by apply map_Forall_delete.
  - repeat split; try done. simpl. by rewrite lookup_delete_ne.
Qed.

Lemma ok_subscribe id type result :
  id ≠ rid → ok F (subscribe marshalExternal id type result) (λ s, s ≠ sid).
Proof.
  intros Hne w Hg.
  set (rest := λ subscription : nat,
    let wait (events : list Event) : M unit :=
      modify (set_live (insert subscription
        {| observerId := id; elementType := type; pending := events |})) in
    modify (set_nextSubscription (S subscription)) ;;
    (if synchronous result then
       data <- marshal_all marshalExternal (emits result) type ;;
       match finish result, data with
       | Fails error, _ => observer_error id error
       | Completes, [] => observer_completed id
       | t, _ => wait ((converted <$> data) ++ finish_events t)%list
       end
     else
       wait ((emission <$> emits result) ++ finish_events (finish result))%list) ;;
    ret subscription).
  change (subscribe marshalExternal id type result w)
    with (rest (nextSubscription w) w).
  assert (∀ s, sid < s → ok F (rest s) (λ s', s' ≠ sid)) as Hrest.
  { clear w Hg. intros s Hlt. subst rest. cbv beta zeta.
    assert (∀ events, fine F (modify (set_live (insert s
              {| observerId := id; elementType := type; pending := events |}))))
      as Hwait.
    { intros events. apply fine_modify. intros w (Hg1 & Hg2 & Hg3). split.
      - split; [done|]. split; [|done]. simpl. by apply map_Forall_insert_2.
      - repeat split; try done. simpl. rewrite lookup_insert_ne; [done|lia]. }
    apply ok_then.
    { apply fine_modify. intros w (Hg1 & Hg2 & Hg3). split.
      - split; [simpl; lia|]. by split.
      - by repeat split. }
    apply ok_then; [|apply ok_ret; lia].
    fine_with ltac:(apply Hwait). }
  destruct Hg as (Hg1 & Hg2 & Hg3). by apply Hrest.
Qed.

Lemma fine_returnObservable id returnVal type :
  id ≠ rid → fine F (returnObservable marshalExternal id returnVal type).
Proof.
  intros Hne. unfold returnObservable.
  apply ok_bind with (P := λ s, s ≠ sid); [by apply ok_subscribe|].
  intros subscription Hs. by apply fine_addSubscription.
Qed.

#[local] Instance stream_keeps_streams : KeepsStreams marshalExternal F.
Proof. split; [apply fine_disposeSubscription|apply fine_returnObservable]. Qed.

(** *** The turns of other subscriptions *)

Lemma fine_deliver subscription :
  subscription ≠ sid → fine F (deliver marshalExternal subscription).
Proof.
  intros Hne w Hg.
  set (body := λ s : Subscription,
    match pending s with
    | [] => ret tt
    | event :: rest =>
        let continue :=
          modify (set_live (insert subscription
            {| observerId := observerId s; elementType := elementType s;
               pending := rest |})) in
        let stop := modify (set_live (delete subscription)) in
        match event with
        | emission value =>
            data <- settled (marshal marshalExternal value (elementType s)) ;;
            match data with
            | Ok data => continue ;; observer_next (observerId s) data
            | Throw error => stop ;; observer_error (observerId s) error
            end
        | converted (Ok data) => continue ;; observer_next (observerId s) data
        | converted (Throw error) => stop ;; observer_error (observerId s) error
        | completion => stop ;; observer_completed (observerId s)
        | failure error => stop ;; observer_error (observerId s) error
        end
    end).
  assert (deliver marshalExternal subscription w
          = match live w !! subscription with
            | Some s => body s w
            | None => ret tt w
            end) as ->.
  { unfold deliver, bind at 1, get_world. by destruct (live w !! subscription). }
  destruct (live w !! subscription) as [s|] eqn:Hs; [|by apply fine_ret].
  assert (observerId s ≠ rid) as Hobs.
  { destruct Hg as (_ & Hg2 & _). by apply (Hg2 subscription). }
  revert w Hg Hs. intros w Hg _. revert w Hg. change (fine F (body s)).
  assert (∀ rest, fine F (modify (set_live (insert subscription
            {| observerId := observerId s; elementType := elementType s;
               pending := rest |})))) as Hcontinue.
  { intros rest. apply fine_modify. intros w (Hg1 & Hg2 & Hg3). split.
    - split; [done|]. split; [|done]. simpl. by apply map_Forall_insert_2.
    - repeat split; try done. simpl. by rewrite lookup_insert_ne. }
  assert (fine F (modify (set_live (delete subscription)))) as Hstop.
  { apply fine_modify. intros w (Hg1 & Hg2 & Hg3). split.
    - split; [done|]. split; [|done]. simpl. by apply map_Forall_delete.
    - repeat split; try done. simpl. by rewrite lookup_delete_ne. }
  subst body. cbv beta zeta.
  fine_with ltac:(first [apply Hcontinue | apply Hstop]).
Qed.

(** Any activity that is not this request's own. *)
Lemma perform_other a w :
  match a with
  | inbound message => Request.requestId message ≠ rid
  | turn subscription => subscription ≠ sid
  end →
  Good' w →
  Good' (perform methodOf disposeOf marshalExternal unmarshalExternal a w)
  ∧ Same' w (perform methodOf disposeOf marshalExternal unmarshalExternal a w).
Proof.
  intros Ha Hg. destruct a as [message|subscription]; simpl.
  - destruct (fine_handleMessage (methodOf := methodOf) (disposeOf := disposeOf)
                (unmarshalExternal := unmarshalExternal) (F := F) message Ha w Hg)
      as (? & ? & _). done.
  - destruct (fine_deliver subscription Ha w Hg) as (? & ? & _). done.
Qed.

End FrameFacts.

(** ** One stream among the traffic *)

Section StreamFacts.

Variable methodOf : jsval → string → option Function_.
Variable disposeOf : jsval → Result unit.
Variable marshalExternal : jsval → Ty → Result jsval.
Variable unmarshalExternal : ObjectRegistry → list jsval → list Ty → Result (list jsval).
Variable rid sid : nat.
Variable types : TypeRegistry.
Variable type : Ty.

Local Abbreviation marshal' := (marshal marshalExternal).
Local Abbreviation perform' :=
  (perform methodOf disposeOf marshalExternal unmarshalExternal).
Local Abbreviation run' := (run methodOf disposeOf marshalExternal unmarshalExternal).
Local Abbreviation Streaming' := (Streaming rid sid types type).
Local Abbreviation Finished' := (Finished rid sid).
Local Abbreviation converts' := (converts marshalExternal types type).
Local Abbreviation conversion' := (conversion marshalExternal types type).
Local Abbreviation playable' := (playable marshalExternal types type).
Local Abbreviation expected' := (expected marshalExternal rid types type).

(** A value that converts is marshalled, and only the registered objects
    change. *)
Lemma marshal_converts value w :
  _typeRegistry (server w) = types →
  converts' value = true →
  ∃ data w', marshal' value type w = (Ok data, w')
             ∧ objectsOnly w w'
             ∧ conversion' value data.
Proof.
  intros Ht Hc.
  pose proof (marshal_objectsOnly marshalExternal value type w) as Ho.
  destruct (marshal' value type w) as [[data|e] w'] eqn:Hm.
  - exists data, w'. split; [done|]. split; [done|]. by exists w, w'.
  - exfalso. unfold converts in Hc. unfold marshal, bind at 1, get_world in Hm.
    rewrite Ht in Hm.
    destruct type as [| | |name|]; unfold lift in Hm;
      try (destruct (marshalExternal value _); congruence).
    destruct (_namedMarshallers types !! name) as [[|interfaceName]|];
      try (destruct (marshalExternal value _); congruence).
    unfold bind, ObjectRegistry_add, bind, registry, modify, ret in Hm. congruence.
Qed.

Lemma objectsOnly_types w w' :
  objectsOnly w w' → _typeRegistry (server w') = _typeRegistry (server w).
Proof. by intros (o & n & ->). Qed.

(** Values that all convert are marshalled in one go. *)
Lemma marshal_all_converts values w :
  _typeRegistry (server w) = types →
  Forall (λ value, converts' value = true) values →
  ∃ data w', marshal_all marshalExternal values type w = (Ok (Ok <$> data), w')
             ∧ objectsOnly w w'
             ∧ Forall2 conversion' values data.
Proof.
  revert w. induction values as [|value rest IH]; intros w Ht Hall.
  - exists [], w. split; [done|]. split; [apply objectsOnly_refl|constructor].
  - apply Forall_cons in Hall as [Hv Hrest].
    destruct (marshal_converts value w Ht Hv) as (d & w1 & Hm & Ho1 & Hc).
    destruct (IH w1) as (ds & w2 & Hms & Ho2 & Hcs); [|done|].
    { by rewrite (objectsOnly_types _ _ Ho1). }
    exists (d :: ds), w2. split.
    + simpl. unfold bind at 1, settled. rewrite Hm. unfold bind. by rewrite Hms.
    + split; [by eapply objectsOnly_trans|by constructor].
Qed.

(** *** The turns of the stream itself *)

Lemma streaming_objectsOnly events responses w w' :
  Streaming' events responses w → objectsOnly w w' → Streaming' events responses w'.
Proof. by intros H (o & n & ->). Qed.

Lemma streaming_next events events' responses data w :
  Streaming' events responses w →
  Streaming' events' (responses ++ [createNextMessage rid data])%list
    (set_sent (λ l, (l ++ [createNextMessage rid data])%list)
       (set_live (insert sid
          {| observerId := rid; elementType := type; pending := events' |}) w)).
Proof.
  intros ((Hg1 & Hg2 & Hg3) & Hlive & Hsub & Hresp & Ht).
  split; [|split; [|split; [|split]]]; try done.
  - split; [done|]. split; [|done]. simpl.
    apply map_Forall_insert_2; [done|]. done.
  - simpl. apply lookup_insert_eq.
  - rewrite responsesTo_send. rewrite decide_True by done.
    unfold responsesTo in *. simpl. by rewrite Hresp.
Qed.

Lemma streaming_completed events responses w :
  Streaming' events responses w →
  Finished' (responses ++ [createCompletedMessage rid])%list
    (set_objectRegistry (λ r,
       {| _registrations := _registrations r;
          _nextObjectId := _nextObjectId r;
          _subscriptions := delete rid (_subscriptions r) |})
       (set_sent (λ l, (l ++ [createCompletedMessage rid])%list)
          (set_live (delete sid) w))).
Proof.
  intros ((Hg1 & Hg2 & Hg3) & Hlive & Hsub & Hresp & Ht).
  split; [|split].
  - split; [done|]. split; simpl.
    + by apply map_Forall_delete.
    + by apply map_Forall_delete.
  - simpl. apply lookup_delete_eq.
  - change (responsesTo rid (set_sent (λ l, (l ++ [createCompletedMessage rid])%list)
                               (set_live (delete sid) w))
            = (responses ++ [createCompletedMessage rid])%list).
    rewrite responsesTo_send. rewrite decide_True by done.
    unfold responsesTo in *. simpl. by rewrite Hresp.
Qed.

(** A turn with a playable event pending: one [next] message. *)
Lemma own_turn event events responses w :
  Streaming' (event :: events) responses w →
  playable' event →
  ∃ response,
    expected' event response
    ∧ Streaming' events (responses ++ [response])%list
        (deliver marshalExternal sid w).2.
Proof.
  intros Hs Hp. pose proof Hs as (Hg & Hlive & Hsub & Hresp & Ht).
  destruct event as [value|[data|e]| |e]; try done.
  - destruct (marshal_converts value w Ht Hp) as (data & w1 & Hm & Ho & Hc).
    exists (createNextMessage rid data). split; [by exists data|].
    assert (deliver marshalExternal sid w
            = (Ok tt,
               set_sent (λ l, (l ++ [createNextMessage rid data])%list)
                 (set_live (insert sid
                    {| observerId := rid; elementType := type; pending := events |})
                    w1))) as ->.
    { unfold deliver, bind at 1, get_world. rewrite Hlive. simpl.
      unfold bind at 1, settled. by rewrite Hm. }
    simpl. eapply streaming_next, streaming_objectsOnly; done.
  - exists (createNextMessage rid data). split; [done|].
    assert (deliver marshalExternal sid w
            = (Ok tt,
               set_sent (λ l, (l ++ [createNextMessage rid data])%list)
                 (set_live (insert sid
                    {| observerId := rid; elementType := type; pending := events |})
                    w))) as ->.
    { unfold deliver, bind at 1, get_world. by rewrite Hlive. }
    simpl. by eapply streaming_next.
Qed.

(** The turn with the completion pending: the [completed] message, and
    the stream is over. *)
Lemma own_last_turn events responses w :
  Streaming' (completion :: events) responses w →
  Finished' (responses ++ [createCompletedMessage rid])%list
    (deliver marshalExternal sid w).2.
Proof.
  intros Hs. pose proof Hs as (Hg & Hlive & Hsub & Hresp & Ht).
  assert (deliver marshalExternal sid w
          = (Ok tt,
             set_objectRegistry (λ r,
               {| _registrations := _registrations r;
                  _nextObjectId := _nextObjectId r;
                  _subscriptions := delete rid (_subscriptions r) |})
               (set_sent (λ l, (l ++ [createCompletedMessage rid])%list)
                  (set_live (delete sid) w)))) as ->.
  { unfold deliver, bind at 1, get_world. by rewrite Hlive. }
  simpl. by eapply streaming_completed.
Qed.

(** A turn of a stream that is over delivers nothing. *)
Lemma finished_turn responses w :
  Finished' responses w → deliver marshalExternal sid w = (Ok tt, w).
Proof.
  intros (Hg & Hlive & Hresp). unfold deliver, bind at 1, get_world. by rewrite Hlive.
Qed.


(** *** The stream under a whole schedule *)

Lemma streaming_same events responses w w' :
  Streaming' events responses w → Good rid sid w' → Same rid sid w w' →
  Streaming' events responses w'.
Proof.
  intros (Hg & Hlive & Hsub & Hresp & Ht) Hg' (S1 & S2 & S3 & S4).
  repeat split; try apply Hg'; congruence.
Qed.

Lemma finished_same responses w w' :
  Finished' responses w → Good rid sid w' → Same rid sid w w' →
  Finished' responses w'.
Proof.
  intros (Hg & Hlive & Hresp) Hg' (S1 & S2 & S3 & S4).
  repeat split; try apply Hg'; congruence.
Qed.

Lemma run_cons a schedule w : run' (a :: schedule) w = run' schedule (perform' a w).
Proof. reflexivity. Qed.

Lemma run_app schedule schedule' w :
  run' (schedule ++ schedule') w = run' schedule' (run' schedule w).
Proof. unfold run. apply foldl_app. Qed.

(** Once the stream is over, no schedule of other traffic adds a
    response. *)
Lemma run_finished schedule w responses :
  Finished' responses w → others rid schedule →
  Finished' responses (run' schedule w).
Proof.
  revert w. induction schedule as [|a rest IH]; intros w Hf Hothers; [done|].
  apply Forall_cons in Hothers as [Ha Hrest]. rewrite run_cons. apply IH; [|done].
  destruct a as [message|s].
  - destruct (perform_other methodOf disposeOf marshalExternal unmarshalExternal
                rid sid (inbound message) w Ha) as [Hg Hs]; [apply Hf|].
    by eapply finished_same.
  - destruct (decide (s = sid)) as [->|Hne].
    + simpl. by rewrite (finished_turn _ _ Hf).
    + destruct (perform_other methodOf disposeOf marshalExternal unmarshalExternal
                  rid sid (turn s) w Hne) as [Hg Hs]; [apply Hf|].
      by eapply finished_same.
Qed.

Lemma expected_exists events w :
  _typeRegistry (server w) = types →
  Forall playable' events →
  ∃ messages, Forall2 expected' (events ++ [completion]) messages.
Proof.
  intros Ht. induction 1 as [|event events Hp _ (messages & IH)].
  - exists [createCompletedMessage rid]. by repeat constructor.
  - destruct event as [value|[data|e]| |e]; try done.
    + destruct (marshal_converts value w Ht Hp) as (data & w1 & _ & _ & Hc).
      exists (createNextMessage rid data :: messages).
      constructor; [by exists data|done].
    + exists (createNextMessage rid data :: messages). by constructor.
Qed.

(** While the stream is live, a schedule that gives it [k] turns makes
    the first [k] of its messages arrive, in order. *)
Lemma run_streaming schedule events w responses :
  Forall playable' events →
  Streaming' (events ++ [completion]) responses w →
  others rid schedule →
  ∃ messages,
    Forall2 expected' (events ++ [completion]) messages
    ∧ let arrived := (responses ++ take (turnsOf sid schedule) messages)%list in
      Finished' arrived (run' schedule w)
      ∨ ∃ pending, Streaming' pending arrived (run' schedule w).
Proof.
  revert events w responses.
  induction schedule as [|a rest IH]; intros events w responses Hplay Hs Hothers.
  - destruct (expected_exists events w) as (messages & Hm); [apply Hs|done|].
    exists messages. split; [done|]. simpl. rewrite app_nil_r. right. eauto.
  - apply Forall_cons in Hothers as [Ha Hrest]. rewrite run_cons.
    assert (∀ w', Good rid sid w' → Same rid sid w w' →
              turnsOf sid (a :: rest) = turnsOf sid rest →
              perform' a w = w' →
              ∃ messages,
                Forall2 expected' (events ++ [completion]) messages
                ∧ let arrived :=
                    (responses ++ take (turnsOf sid (a :: rest)) messages)%list in
                  Finished' arrived (run' rest (perform' a w))
                  ∨ ∃ pending, Streaming' pending arrived (run' rest (perform' a w)))
      as Hframe.
    { intros w' Hg' Hsame -> ->.
      apply IH; [done| |done]. by eapply streaming_same. }
    destruct a as [message|s].
    + destruct (perform_other methodOf disposeOf marshalExternal unmarshalExternal
                  rid sid (inbound message) w Ha) as [Hg' Hsame]; [apply Hs|].
      by eapply Hframe.
    + destruct (decide (s = sid)) as [->|Hne].
      * simpl turnsOf. rewrite decide_True by done.
        destruct events as [|event events].
        -- exists [createCompletedMessage rid]. split; [by repeat constructor|].
           left. cbv zeta.
           replace (take (S (turnsOf sid rest)) [createCompletedMessage rid])
             with [createCompletedMessage rid] by (simpl; by rewrite take_nil).
           apply run_finished; [|done].
           by apply (own_last_turn []).
        -- apply Forall_cons in Hplay as [Hp Hplay].
           destruct (own_turn event (events ++ [completion]) responses w Hs Hp)
             as (response & He & Hs').
           destruct (IH events _ _ Hplay Hs' Hrest) as (messages & Hm & Hend).
           exists (response :: messages). split; [by constructor|].
           cbv zeta in Hend |- *.
           change (take (S (turnsOf sid rest)) (response :: messages))
             with (response :: take (turnsOf sid rest) messages).
           by rewrite <- app_assoc in Hend.
      * destruct (perform_other methodOf disposeOf marshalExternal unmarshalExternal
                    rid sid (turn s) w Hne) as [Hg' Hsame]; [apply Hs|].
        eapply Hframe; try done. simpl. by rewrite decide_False.
Qed.


(** *** Cancelling the stream *)

Lemma dispose_effect responses w :
  Finished' responses w ∨ (∃ pending, Streaming' pending responses w) →
  Finished' responses (ObjectRegistry_disposeSubscription rid w).2.
Proof.
  intros H.
  assert (ObjectRegistry_disposeSubscription rid w
          = match _subscriptions (_objectRegistry (server w)) !! rid with
            | Some subscription =>
                (Ok tt,
                 set_live (delete subscription)
                   (set_objectRegistry (λ r,
                      {| _registrations := _registrations r;
                         _nextObjectId := _nextObjectId r;
                         _subscriptions := delete rid (_subscriptions r) |}) w))
            | None => (Ok tt, w)
            end) as ->.
  { unfold ObjectRegistry_disposeSubscription, bind at 1, registry.
    by destruct (_ !! _). }
  destruct H as [(Hg & Hlive & Hresp)|(pending & Hg & Hlive & Hsub & Hresp & Ht)].
  - destruct (_ !! rid) as [subscription|]; [|done].
    destruct Hg as (Hg1 & Hg2 & Hg3). split; [|split]; simpl.
    + split; [done|]. split; simpl; by apply map_Forall_delete.
    + apply lookup_delete_None. by right.
    + done.
  - rewrite Hsub. destruct Hg as (Hg1 & Hg2 & Hg3). split; [|split]; simpl.
    + split; [done|]. split; simpl; by apply map_Forall_delete.
    + apply lookup_delete_eq.
    + done.
Qed.

(** A [DisposeObservable] for the request ends its stream and writes
    nothing. *)
Lemma dispose_ends dispose responses w :
  Request.type dispose = "DisposeObservable" →
  Request.requestId dispose = rid →
  Finished' responses w ∨ (∃ pending, Streaming' pending responses w) →
  Finished' responses (perform' (inbound dispose) w).
Proof.
  intros Ht Hr H.
  set (w0 := set_tracked
               (λ l, (l ++ [startTracking "service-framework:disposeObservable"])%list) w).
  assert (perform' (inbound dispose) w
          = set_tracked (λ l, (l ++ [onSuccess])%list)
              (ObjectRegistry_disposeSubscription rid w0).2) as ->.
  { assert (∃ w1, ObjectRegistry_disposeSubscription rid w0 = (Ok tt, w1)) as [w1 H1].
    { unfold ObjectRegistry_disposeSubscription, bind at 1, registry.
      destruct (_ !! _); eauto. }
    unfold perform, handleMessage, trackingIdOfMessage, handle. rewrite Ht, Hr. tags.
    unfold startTracking_, try_catch, bind, track, modify, ret. fold w0.
    by rewrite H1. }
  assert (Finished' responses w0 ∨ (∃ pending, Streaming' pending responses w0)) as H0.
  { destruct H as [H|[pending H]]; [by left|right; by exists pending]. }
  apply dispose_effect in H0.
  by destruct (ObjectRegistry_disposeSubscription rid w0) as [r w1].
Qed.


(** *** The call that starts the stream *)

Local Abbreviation returnObservable' := (returnObservable marshalExternal).

(** The world once a stream with these pending events has been subscribed
    to and registered. *)
Lemma streaming_start events w :
  newRequest rid w →
  nextSubscription w = sid →
  _typeRegistry (server w) = types →
  Streaming' events (responsesTo rid w)
    (set_objectRegistry (λ r,
       {| _registrations := _registrations r;
          _nextObjectId := _nextObjectId r;
          _subscriptions := <[rid := sid]> (_subscriptions r) |})
       (set_live (insert sid
          {| observerId := rid; elementType := type; pending := events |})
          (set_nextSubscription (S sid) w))).
Proof.
  intros (Hn1 & Hn2 & Hn3 & Hn4) Hsid Ht.
  split; [|split; [|split; [|split]]]; simpl; try done.
  - split; [simpl; lia|]. split; simpl.
    + apply map_Forall_insert_2; [done|].
      intros s x Hx _. by apply (Hn2 s).
    + apply map_Forall_insert_2; [done|].
      intros r s Hs _. rewrite <- Hsid. by apply (Hn3 r).
  - apply lookup_insert_eq.
  - apply lookup_insert_eq.
Qed.

Lemma start_async o w :
  newRequest rid w →
  nextSubscription w = sid →
  _typeRegistry (server w) = types →
  synchronous o = false →
  finish o = Completes →
  ∃ w', returnObservable' rid (observable o) type w = (Ok tt, w')
        ∧ Streaming' ((emission <$> emits o) ++ [completion]) (responsesTo rid w) w'.
Proof.
  intros Hn Hsid Ht Hsync Hfin. eexists. split.
  - unfold returnObservable, subscribe, ObjectRegistry_addSubscription.
    cbv [bind get_world modify ret registry]. rewrite Hsync, Hfin. simpl.
    destruct Hn as (-> & _). rewrite Hsid. reflexivity.
  - by apply streaming_start.
Qed.

Lemma start_sync_values o w :
  newRequest rid w →
  nextSubscription w = sid →
  _typeRegistry (server w) = types →
  synchronous o = true →
  finish o = Completes →
  emits o ≠ [] →
  Forall (λ value, converts' value = true) (emits o) →
  ∃ w' data,
    returnObservable' rid (observable o) type w = (Ok tt, w')
    ∧ Forall2 conversion' (emits o) data
    ∧ Streaming' ((converted <$> (Ok <$> data)) ++ [completion]) (responsesTo rid w) w'.
Proof.
  intros Hn Hsid Ht Hsync Hfin Hne Hall.
  destruct (marshal_all_converts (emits o) (set_nextSubscription (S sid) w))
    as (data & w1 & Hm & (objects & nextId & ->) & Hc); [done|done|].
  exists (set_objectRegistry (λ r,
            {| _registrations := _registrations r;
               _nextObjectId := _nextObjectId r;
               _subscriptions := <[rid := sid]> (_subscriptions r) |})
            (set_live (insert sid
               {| observerId := rid; elementType := type;
                  pending := ((converted <$> (Ok <$> data)) ++ [completion])%list |})
               (set_objectRegistry (λ r,
                  {| _registrations := objects;
                     _nextObjectId := nextId;
                     _subscriptions := _subscriptions r |})
                  (set_nextSubscription (S sid) w)))), data.
  split; [|split; [done|]].
  - unfold returnObservable, subscribe, ObjectRegistry_addSubscription.
    cbv [bind get_world modify ret registry]. rewrite Hsync, Hfin, Hsid, Hm.
    destruct data as [|d data].
    { apply Forall2_nil_inv_r in Hc. done. }
    simpl. destruct Hn as (-> & _). reflexivity.
  - pose proof (streaming_start ((converted <$> (Ok <$> data)) ++ [completion]) w
                  Hn Hsid Ht) as Hs.
    eapply streaming_objectsOnly in Hs; [exact Hs|].
    by exists objects, nextId.
Qed.

Lemma start_sync_empty o w :
  newRequest rid w →
  nextSubscription w = sid →
  synchronous o = true →
  finish o = Completes →
  emits o = [] →
  ∃ w', returnObservable' rid (observable o) type w = (Ok tt, w')
        ∧ Finished' (responsesTo rid w ++ [createCompletedMessage rid])%list w'.
Proof.
  intros (Hn1 & Hn2 & Hn3 & Hn4) Hsid Hsync Hfin Hempty. eexists. split.
  - unfold returnObservable, subscribe, ObjectRegistry_addSubscription.
    cbv [bind get_world modify ret registry]. rewrite Hsync, Hfin, Hempty. simpl.
    rewrite lookup_delete_eq. reflexivity.
  - split; [|split]; simpl.
    + split; [simpl; lia|]. split; simpl.
      * intros s x Hx _. by apply (Hn2 s).
      * apply map_Forall_insert_2; [done|]. apply map_Forall_delete.
        intros r s Hs _. rewrite <- Hsid. by apply (Hn3 r).
    + by rewrite <- Hsid.
    + unfold responsesTo. simpl. rewrite filter_app. f_equal.
      rewrite filter_cons, filter_nil. by rewrite decide_True.
Qed.


Lemma server_set_tracked g w : server (set_tracked g w) = server w.
Proof. reflexivity. Qed.

(** A call of a function that returns a stream comes down to
    [returnObservable]. *)
Lemma perform_stream_call message w o :
  callsStream methodOf unmarshalExternal message w type o →
  Request.requestId message = rid →
  ∃ label,
    ∀ w',
      returnObservable' rid (observable o) type
        (set_tracked (λ l, (l ++ [startTracking label])%list) w) = (Ok tt, w') →
      perform' (inbound message) w = set_tracked (λ l, (l ++ [onSuccess])%list) w'.
Proof.
  intros [(Ht & implementation & f & args & Hf & Hu & Hl & Hr & Hcall)
         |(Ht & found & classDefinition & ftype & f & args
              & Hfound & Hnn & Hclass & Hmethod & Hu & Hl & Hr & Hcall)] Hid.
  - exists ("service-framework:" ++ Request.function message). intros w' Hret.
    unfold perform, handleMessage, trackingIdOfMessage. rewrite Ht, Hid. tags.
    cbv [bind ret get_world track modify lift try_catch registry
         startTracking_ handle callFunction _getFunctionImplemention
         unmarshalArguments apply recordingTracker tracker_onSuccess].
    rewrite Ht. tags. rewrite !server_set_tracked.
    step Hf. rewrite !server_set_tracked. step Hu. step Hl. step Hcall.
    rewrite Hr. unfold returnValue. cbv [bind ret]. by rewrite Hret.
  - exists ("service-framework:" ++ _interface found ++ "." ++ Request.method message).
    intros w' Hret.
    unfold perform, handleMessage, trackingIdOfMessage. rewrite Ht, Hid. tags.
    cbv [bind ret throw get_world track modify lift try_catch registry invariant negb
         startTracking_ handle callMethod ObjectRegistry_get
         unmarshalArguments apply recordingTracker tracker_onSuccess].
    step Hfound. step Hnn. rewrite Ht. tags. rewrite !server_set_tracked.
    step Hfound. step Hnn. rewrite !server_set_tracked. step Hclass. step Hmethod.
    rewrite !server_set_tracked. step Hu. step Hl. step Hcall.
    rewrite Hr. unfold returnValue. cbv [bind ret]. by rewrite Hret.
Qed.

(** *** What the peer receives *)

Lemma expected_emissions values messages :
  Forall2 expected' ((emission <$> values) ++ [completion]) messages →
  ∃ data, Forall2 conversion' values data
          ∧ messages = ((createNextMessage rid <$> data) ++ [createCompletedMessage rid])%list.
Proof.
  revert messages. induction values as [|value values IH]; intros messages H.
  - apply Forall2_cons_inv_l in H as (m & rest & Hm & Hrest & ->).
    apply Forall2_nil_inv_l in Hrest as ->. simpl in Hm. subst m.
    exists []. by split.
  - apply Forall2_cons_inv_l in H as (m & rest & (d & Hd & ->) & Hrest & ->).
    destruct (IH rest Hrest) as (data & Hdata & ->).
    exists (d :: data). split; [by constructor|done].
Qed.

Lemma expected_converted data messages :
  Forall2 expected' ((converted <$> (Ok <$> data)) ++ [completion]) messages →
  messages = ((createNextMessage rid <$> data) ++ [createCompletedMessage rid])%list.
Proof.
  revert messages. induction data as [|d data IH]; intros messages H.
  - apply Forall2_cons_inv_l in H as (m & rest & Hm & Hrest & ->).
    apply Forall2_nil_inv_l in Hrest as ->. simpl in Hm. by subst m.
  - apply Forall2_cons_inv_l in H as (m & rest & Hm & Hrest & ->).
    simpl in Hm. subst m. by rewrite (IH rest Hrest).
Qed.

Lemma playable_emissions values :
  Forall (λ value, converts' value = true) values →
  Forall playable' (emission <$> values).
Proof. intros H. apply Forall_fmap. by eapply Forall_impl. Qed.

Lemma playable_converted data : Forall playable' (converted <$> (Ok <$> data)).
Proof. apply Forall_fmap, Forall_fmap. by apply Forall_true. Qed.

(** After any schedule the stream is live or over; a [DisposeObservable]
    then ends it, and the rest of the traffic adds nothing. *)
Lemma disposed_silent schedule dispose after w :
  (Finished' (responsesTo rid (run' schedule w)) (run' schedule w)
   ∨ ∃ pending, Streaming' pending (responsesTo rid (run' schedule w)) (run' schedule w)) →
  Request.type dispose = "DisposeObservable" →
  Request.requestId dispose = rid →
  others rid after →
  responsesTo rid (run' (schedule ++ inbound dispose :: after) w)
  = responsesTo rid (run' schedule w).
Proof.
  intros H Ht Hid Hafter. rewrite run_app, run_cons.
  apply (dispose_ends dispose) in H; [|done|done].
  apply (run_finished after) in H; [|done].
  by destruct H as (_ & _ & ->).
Qed.

(** The whole story from a live stream. *)
Lemma stream_outcome schedule events values w responses :
  Forall playable' events →
  Streaming' (events ++ [completion]) responses w →
  (∀ messages,
     Forall2 expected' (events ++ [completion]) messages →
     ∃ data, Forall2 conversion' values data
             ∧ messages
               = ((createNextMessage rid <$> data) ++ [createCompletedMessage rid])%list) →
  others rid schedule →
  ∃ data,
    Forall2 conversion' values data
    ∧ let events := ((createNextMessage rid <$> data)
                       ++ [createCompletedMessage rid])%list in
      (∃ arrived,
         responsesTo rid (run' schedule w) = (responses ++ arrived)%list
         ∧ arrived `prefix_of` events
         ∧ (length values < turnsOf sid schedule → arrived = events))
      ∧ ∀ dispose after,
          Request.type dispose = "DisposeObservable" →
          Request.requestId dispose = rid →
          others rid after →
          responsesTo rid (run' (schedule ++ inbound dispose :: after) w)
          = responsesTo rid (run' schedule w).
Proof.
  intros Hplay Hs Hdata Hothers.
  destruct (run_streaming schedule events w responses Hplay Hs Hothers)
    as (messages & Hm & Hend).
  destruct (Hdata messages Hm) as (data & Hc & ->).
  exists data. split; [done|]. cbv zeta in Hend |- *.
  set (all := ((createNextMessage rid <$> data) ++ [createCompletedMessage rid])%list) in *.
  set (arrived := take (turnsOf sid schedule) all) in *.
  assert (responsesTo rid (run' schedule w) = (responses ++ arrived)%list) as Hresp.
  { destruct Hend as [(_ & _ & H)|(pending & _ & _ & _ & H & _)]; exact H. }
  split.
  - exists arrived. split; [done|]. split; [apply prefix_take|].
    intros Hturns. subst arrived. apply take_ge. subst all.
    rewrite length_app, length_fmap. simpl.
    apply Forall2_length in Hc. lia.
  - intros dispose after. apply disposed_silent. by rewrite Hresp.
Qed.

(** The whole story from a stream that ended inside [subscribe]. *)
Lemma stream_outcome_at_once schedule w responses :
  Finished' (responses ++ [createCompletedMessage rid])%list w →
  others rid schedule →
  (∃ arrived,
     responsesTo rid (run' schedule w) = (responses ++ arrived)%list
     ∧ arrived `prefix_of` [createCompletedMessage rid]
     ∧ (0 < turnsOf sid schedule → arrived = [createCompletedMessage rid]))
  ∧ ∀ dispose after,
      Request.type dispose = "DisposeObservable" →
      Request.requestId dispose = rid →
      others rid after →
      responsesTo rid (run' (schedule ++ inbound dispose :: after) w)
      = responsesTo rid (run' schedule w).
Proof.
  intros Hf Hothers. pose proof (run_finished schedule w _ Hf Hothers) as Hend.
  assert (responsesTo rid (run' schedule w)
          = (responses ++ [createCompletedMessage rid])%list) as Hresp.
  { by destruct Hend as (_ & _ & ->). }
  split.
  - by exists [createCompletedMessage rid].
  - intros dispose after. apply disposed_silent. left. by rewrite Hresp.
Qed.


End StreamFacts.

(** ** A request id that has not been used *)

Section HistoryFacts.

Variable methodOf : jsval → string → option Function_.
Variable disposeOf : jsval → Result unit.
Variable marshalExternal : jsval → Ty → Result jsval.
Variable unmarshalExternal : ObjectRegistry → list jsval → list Ty → Result (list jsval).
Variable rid : nat.

Local Abbreviation H := (historyFrame rid).

#[local] Instance history_laws n : Laws (H n).
Proof. split; simpl; intros; lia. Qed.

#[local] Instance history_keeps n : Keeps (H n).
Proof.
  split.
  - intros w w' (o & i & ->) Hi. split; [done|simpl; lia].
  - intros f w Hi. split; [done|simpl; lia].
  - intros message w _ Hi. split; [done|simpl; lia].
  - intros id w Hne ((Ht1 & Ht2) & (Hu1 & Hu2) & Hn). split; [|simpl; lia].
    split; [|split; [|done]].
    + split; [|done]. simpl. by apply map_Forall_delete.
    + split; [|done]. simpl. by rewrite lookup_delete_ne.
Qed.

Lemma history_weaken n n' w : (n' ≤ n)%nat → Inv (H n) w → Inv (H n') w.
Proof. intros Hle (Ht & Hu & Hn). split; [done|]. split; [done|]. simpl in *. lia. Qed.

Lemma history_live s x n :
  s < n → observerId x ≠ rid → fine (H n) (modify (set_live (insert s x))).
Proof.
  intros Hs Hx. apply fine_modify.
  intros w ((Ht1 & Ht2) & (Hu1 & Hu2) & Hn). split; [|simpl; lia].
  split; [|split; [|done]].
  - split; [done|]. simpl. apply map_Forall_insert_2; [|done]. simpl in Hn. lia.
  - split; [done|]. simpl. by apply map_Forall_insert_2.
Qed.

Lemma history_cancel s n : fine (H n) (modify (set_live (delete s))).
Proof.
  apply fine_modify.
  intros w ((Ht1 & Ht2) & (Hu1 & Hu2) & Hn). split; [|simpl; lia].
  split; [|split; [|done]].
  - split; [done|]. simpl. by apply map_Forall_delete.
  - split; [done|]. simpl. by apply map_Forall_delete.
Qed.

Lemma history_addSubscription id s n :
  id ≠ rid → s < n → fine (H n) (ObjectRegistry_addSubscription id s).
Proof.
  intros Hne Hs. apply fine_bind; [apply fine_registry|]. intros r.
  destruct (_ !! _); [apply ok_throw|].
  apply fine_modify.
  intros w ((Ht1 & Ht2) & (Hu1 & Hu2) & Hn). split; [|simpl; lia].
  split; [|split; [|done]].
  - split; [|done]. simpl. apply map_Forall_insert_2; [|done]. simpl in Hn. lia.
  - split; [|done]. simpl. by rewrite lookup_insert_ne.
Qed.

Lemma history_disposeSubscription id n :
  id ≠ rid → fine (H n) (ObjectRegistry_disposeSubscription id).
Proof.
  intros Hne. unfold ObjectRegistry_disposeSubscription.
  fine_with ltac:(apply history_cancel).
Qed.

(** The subscription number a stream gets is the next one, which is then
    taken. *)
Lemma history_returnObservable id returnVal type n :
  id ≠ rid → fine (H n) (returnObservable marshalExternal id returnVal type).
Proof.
  intros Hne w Hi. unfold returnObservable.
  set (result := match returnVal with observable o => o | _ => _ end).
  set (s := nextSubscription w).
  set (rest :=
    (if synchronous result then
       data <- marshal_all marshalExternal (emits result) type ;;
       match finish result, data with
       | Fails error, _ => observer_error id error
       | Completes, [] => observer_completed id
       | t, _ =>
           modify (set_live (insert s
             {| observerId := id; elementType := type;
                pending := ((converted <$> data) ++ finish_events t)%list |}))
       end
     else
       modify (set_live (insert s
         {| observerId := id; elementType := type;
            pending := ((emission <$> emits result)
                        ++ finish_events (finish result))%list |}))) ;;
    ObjectRegistry_addSubscription id s).
  assert (fine (H (S s)) rest) as Hrest.
  { subst rest.
    fine_with ltac:(first [ apply history_live; [lia|done]
                          | apply history_addSubscription; [done|lia] ]). }
  assert (Inv (H (S s)) (set_nextSubscription (S s) w)) as Hi'.
  { destruct Hi as ((Ht1 & Ht2) & Hu & Hn). split; [|split; [done|simpl; lia]].
    split; simpl.
    - eapply map_Forall_impl; [exact Ht1|]. simpl. intros ? ? ?. subst s. lia.
    - eapply map_Forall_impl; [exact Ht2|]. simpl. intros ? ? ?. subst s. lia. }
  assert ((subscription <- subscribe marshalExternal id type result ;;
           ObjectRegistry_addSubscription id subscription) w
          = rest (set_nextSubscription (S s) w)) as ->.
  { subst rest s. unfold subscribe, bind, get_world, modify, ret. simpl.
    repeat case_match; simplify_eq; done. }
  destruct (Hrest _ Hi') as (Hi'' & Hr & _). simpl in Hr.
  assert (s < nextSubscription (rest (set_nextSubscription (S s) w)).2) as Hlt by lia.
  split; [|split; [simpl; subst s; lia|done]].
  eapply history_weaken; [|exact Hi''].
  destruct Hi as (_ & _ & Hn). simpl in Hn. subst s. lia.
Qed.

#[local] Instance history_keeps_streams n : KeepsStreams marshalExternal (H n).
Proof.
  split.
  - intros id Hne. by apply history_disposeSubscription.
  - intros id returnVal type Hne. by apply history_returnObservable.
Qed.

(** A turn of any subscription: none reports to the request id. *)
Lemma history_deliver subscription n : fine (H n) (deliver marshalExternal subscription).
Proof.
  intros w Hi.
  set (body := λ s : Subscription,
    match pending s with
    | [] => ret tt
    | event :: rest =>
        let continue :=
          modify (set_live (insert subscription
            {| observerId := observerId s; elementType := elementType s;
               pending := rest |})) in
        let stop := modify (set_live (delete subscription)) in
        match event with
        | emission value =>
            data <- settled (marshal marshalExternal value (elementType s)) ;;
            match data with
            | Ok data => continue ;; observer_next (observerId s) data
            | Throw error => stop ;; observer_error (observerId s) error
            end
        | converted (Ok data) => continue ;; observer_next (observerId s) data
        | converted (Throw error) => stop ;; observer_error (observerId s) error
        | completion => stop ;; observer_completed (observerId s)
        | failure error => stop ;; observer_error (observerId s) error
        end
    end).
  assert (deliver marshalExternal subscription w
          = match live w !! subscription with
            | Some s => body s w
            | None => ret tt w
            end) as ->.
  { unfold deliver, bind at 1, get_world. by destruct (live w !! subscription). }
  destruct (live w !! subscription) as [s|] eqn:Hs; [|by apply fine_ret].
  assert (observerId s ≠ rid) as Hobs.
  { destruct Hi as (_ & (_ & Hu2) & _). by apply (Hu2 subscription). }
  assert (subscription < nextSubscription w) as Hlt.
  { destruct Hi as ((_ & Ht2) & _ & _). by apply (Ht2 subscription s). }
  assert (Inv (H (S subscription)) w) as Hi'.
  { destruct Hi as (Ht & Hu & _). split; [done|]. split; [done|]. simpl. lia. }
  assert (fine (H (S subscription)) (body s)) as Hbody.
  { subst body. cbv beta zeta.
    fine_with ltac:(first [ apply history_live; [lia|done] | apply history_cancel ]). }
  destruct (Hbody w Hi') as (Hi'' & Hr & _). simpl in Hr.
  split; [|split; [exact Hr|done]].
  split; [apply Hi''|]. split; [apply Hi''|].
  destruct Hi as (_ & _ & Hn). simpl in *. lia.
Qed.

(** Whatever does not carry the request id keeps it unused. *)
Lemma history_perform a w n :
  match a with
  | inbound message => Request.requestId message ≠ rid
  | turn _ => True
  end →
  Inv (H n) w →
  Inv (H n) (perform methodOf disposeOf marshalExternal unmarshalExternal a w).
Proof.
  intros Ha Hi. destruct a as [message|subscription]; simpl.
  - by destruct (fine_handleMessage (methodOf := methodOf) (disposeOf := disposeOf)
                   (unmarshalExternal := unmarshalExternal) (F := H n)
                   message Ha w Hi) as (? & _ & _).
  - by destruct (history_deliver subscription n w Hi) as (? & _ & _).
Qed.

Lemma history_run schedule w n :
  others rid schedule →
  Inv (H n) w →
  Inv (H n) (run methodOf disposeOf marshalExternal unmarshalExternal schedule w).
Proof.
  revert w. induction schedule as [|a rest IH]; intros w Ho Hi; [done|].
  apply Forall_cons in Ho as [Ha Hrest]. simpl.
  apply IH; [done|]. by apply history_perform.
Qed.

(** An unused request id is a new one. *)
Lemma history_newRequest w : Inv (H 0) w → newRequest rid w.
Proof.
  intros ((Ht1 & Ht2) & (Hu1 & Hu2) & _).
  split; [done|]. split; [done|]. split.
  - intros id s Hs. specialize (Ht1 id s Hs). simpl in Ht1. lia.
  - destruct (live w !! nextSubscription w) as [x|] eqn:Hx; [|done].
    specialize (Ht2 _ _ Hx). simpl in Ht2. lia.
Qed.

End HistoryFacts.

(** ** A component and the traffic it has seen *)

Section ReachableFacts.

Variable registerTypeCheck : TypeRegistry → string → Result unit.
Variable registerAliasCheck : TypeRegistry → string → Ty → Result unit.
Variable methodOf : jsval → string → option Function_.
Variable disposeOf : jsval → Result unit.
Variable marshalExternal : jsval → Ty → Result jsval.
Variable unmarshalExternal : ObjectRegistry → list jsval → list Ty → Result (list jsval).

#[local] Instance registering_laws : Laws registering.
Proof.
  split; [done|]. intros w1 w2 w3 (H1 & H2 & H3) (K1 & K2 & K3).
  repeat split; congruence.
Qed.

Lemma registering_typeRegistry f : fine registering (modify (set_typeRegistry f)).
Proof. apply fine_modify. intros w _. split; [done|]. by destruct w as [[]]. Qed.

Lemma registering_functionsByName f : fine registering (modify (set_functionsByName f)).
Proof. apply fine_modify. intros w _. split; [done|]. by destruct w as [[]]. Qed.

Lemma registering_classesByName f : fine registering (modify (set_classesByName f)).
Proof. apply fine_modify. intros w _. split; [done|]. by destruct w as [[]]. Qed.

Lemma registering_forEach {A} (f : A → M unit) l :
  (∀ x, fine registering (f x)) → fine registering (forEach f l).
Proof.
  intros Hf. induction l as [|x rest IH]; simpl; [apply fine_ret|].
  apply fine_bind; [apply Hf|]. intros _. exact IH.
Qed.

Ltac registering_auto :=
  fine_with ltac:(first [ apply registering_typeRegistry
                        | apply registering_functionsByName
                        | apply registering_classesByName
                        | apply registering_forEach ]).

Lemma registering_registerType name marshaller :
  fine registering (registerType registerTypeCheck name marshaller).
Proof. unfold registerType. registering_auto. Qed.

Lemma registering_registerFunction name localImpl type :
  fine registering (_registerFunction name localImpl type).
Proof. unfold _registerFunction. registering_auto. Qed.

Lemma registering_addDefinition service localImpl d :
  fine registering
    (addDefinition registerTypeCheck registerAliasCheck service localImpl d).
Proof.
  unfold addDefinition, registerAlias.
  fine_with ltac:(first [ apply registering_typeRegistry
                        | apply registering_classesByName
                        | apply registering_registerType
                        | apply registering_registerFunction
                        | apply registering_forEach ]).
Qed.

Lemma registering_constructor services :
  fine registering (constructor registerTypeCheck registerAliasCheck services).
Proof.
  unfold constructor, addServices, addService.
  fine_with ltac:(first [ apply registering_registerType
                        | apply registering_addDefinition
                        | apply registering_forEach ]).
Qed.

(** On a component made from any services, after any traffic that does not
    carry a request id, that request id is new. *)
Lemma unused_request_is_new services schedule rid :
  others rid schedule →
  newRequest rid
    (run methodOf disposeOf marshalExternal unmarshalExternal schedule
       (constructor registerTypeCheck registerAliasCheck services emptyWorld).2).
Proof.
  intros Ho. apply history_newRequest, history_run; [done|].
  destruct (registering_constructor services emptyWorld I) as (_ & (H1 & H2 & H3) & _).
  split; [|split].
  - split; [rewrite H1|rewrite H2]; apply map_Forall_empty.
  - split; [by rewrite H1|rewrite H2; apply map_Forall_empty].
  - simpl. lia.
Qed.

End ReachableFacts.

(** ** Where the tracking span is a side channel *)

Section TrackingFacts.

Variable methodOf : jsval → string → option Function_.
Variable disposeOf : jsval → Result unit.
Variable marshalExternal : jsval → Ty → Result jsval.
Variable unmarshalExternal : ObjectRegistry → list jsval → list Ty → Result (list jsval).

Lemma alike_refl w : alike w w.
Proof. by repeat split. Qed.

Lemma matching_ret {A} (R : A → A → Prop) a1 a2 : R a1 a2 → matching R (ret a1) (ret a2).
Proof. intros HR w1 w2 Hw. by split. Qed.

Lemma matching_throw {A} (R : A → A → Prop) e : matching R (throw e) (throw e).
Proof. intros w1 w2 Hw. by split. Qed.

Lemma matching_lift {A} (r : Result A) : matching eq (lift r) (lift r).
Proof. intros w1 w2 Hw. split; [done|]. by destruct r. Qed.

Lemma matching_get_world : matching alike get_world get_world.
Proof. intros w1 w2 Hw. by split. Qed.

Lemma matching_bind {A B} (R : A → A → Prop) (Q : B → B → Prop)
    (m1 m2 : M A) (k1 k2 : A → M B) :
  matching R m1 m2 →
  (∀ a1 a2, R a1 a2 → matching Q (k1 a1) (k2 a2)) →
  matching Q (bind m1 k1) (bind m2 k2).
Proof.
  intros Hm Hk w1 w2 Hw. destruct (Hm w1 w2 Hw) as [Hw' Hr]. unfold bind.
  destruct (m1 w1) as [[a1|e1] w1'], (m2 w2) as [[a2|e2] w2']; simpl in *; try done.
  by apply Hk.
Qed.

Lemma matching_seq {A B} (Q : B → B → Prop) (m1 m2 : M A) (k1 k2 : M B) :
  matching (λ _ _, True) m1 m2 → matching Q k1 k2 →
  matching Q (bind m1 (λ _, k1)) (bind m2 (λ _, k2)).
Proof. intros Hm Hk. eapply matching_bind; [exact Hm|]. by intros. Qed.

Lemma matching_weaken {A} (R Q : A → A → Prop) (m1 m2 : M A) :
  matching R m1 m2 → (∀ a1 a2, R a1 a2 → Q a1 a2) → matching Q m1 m2.
Proof.
  intros Hm HRQ w1 w2 Hw. destruct (Hm w1 w2 Hw) as [Hw' Hr]. split; [done|].
  destruct (m1 w1).1, (m2 w2).1; auto.
Qed.

Lemma matching_loose {A} (R : A → A → Prop) (m1 m2 : M A) :
  matching R m1 m2 → matching (λ _ _, True) m1 m2.
Proof. intros Hm. by eapply matching_weaken. Qed.

Lemma matching_try_catch {A} (R : A → A → Prop) (m1 m2 : M A) (h1 h2 : jsval → M A) :
  matching R m1 m2 → (∀ e, matching R (h1 e) (h2 e)) →
  matching R (try_catch m1 h1) (try_catch m2 h2).
Proof.
  intros Hm Hh w1 w2 Hw. destruct (Hm w1 w2 Hw) as [Hw' Hr]. unfold try_catch.
  destruct (m1 w1) as [[a1|e1] w1'], (m2 w2) as [[a2|e2] w2']; simpl in *; try done.
  subst e2. by apply Hh.
Qed.

Lemma matching_settled {A} (m1 m2 : M A) :
  matching eq m1 m2 → matching eq (settled m1) (settled m2).
Proof.
  intros Hm w1 w2 Hw. destruct (Hm w1 w2 Hw) as [Hw' Hr]. unfold settled.
  destruct (m1 w1) as [[a1|e1] w1'], (m2 w2) as [[a2|e2] w2']; simpl in *;
    try done; by subst.
Qed.

Lemma matching_reaction (m1 m2 : M unit) :
  matching (λ _ _, True) m1 m2 → matching (λ _ _, True) (reaction m1) (reaction m2).
Proof.
  intros Hm w1 w2 Hw. destruct (Hm w1 w2 Hw) as [Hw' Hr]. unfold reaction.
  by destruct (m1 w1) as [r1 w1'], (m2 w2) as [r2 w2'].
Qed.

Lemma matching_modify (f : World → World) :
  (∀ w1 w2, alike w1 w2 → alike (f w1) (f w2)) →
  matching (λ _ _, True) (modify f) (modify f).
Proof. intros Hf w1 w2 Hw. split; [by apply Hf|done]. Qed.

(** A call on the recording tracker against no call at all. *)
Lemma matching_track t : matching (λ _ _, True) (track t) (ret tt).
Proof. intros w1 w2 (H1 & H2 & H3 & H4). by repeat split. Qed.

Lemma matching_registry : matching eq registry registry.
Proof. intros w1 w2 (H1 & H2 & H3 & H4). split; [done|]. simpl. by rewrite H1. Qed.

Lemma alike_set_objectRegistry f w1 w2 :
  alike w1 w2 → alike (set_objectRegistry f w1) (set_objectRegistry f w2).
Proof. intros (H1 & H2 & H3 & H4). repeat split; simpl; congruence. Qed.

Lemma alike_set_sent f w1 w2 : alike w1 w2 → alike (set_sent f w1) (set_sent f w2).
Proof. intros (H1 & H2 & H3 & H4). repeat split; simpl; congruence. Qed.

Lemma alike_set_live f w1 w2 : alike w1 w2 → alike (set_live f w1) (set_live f w2).
Proof. intros (H1 & H2 & H3 & H4). repeat split; simpl; congruence. Qed.

Lemma alike_set_nextSubscription n w1 w2 :
  alike w1 w2 → alike (set_nextSubscription n w1) (set_nextSubscription n w2).
Proof. intros (H1 & H2 & H3 & H4). repeat split; simpl; congruence. Qed.

Ltac matching_base :=
  first
    [ apply matching_ret; done
    | apply matching_throw
    | apply matching_lift
    | apply matching_registry
    | apply matching_track
    | apply matching_modify; first
        [ apply alike_set_objectRegistry | apply alike_set_sent
        | apply alike_set_live | apply alike_set_nextSubscription ] ].

Ltac matching_with known :=
  repeat first
    [ progress intros
    | progress subst
    | known
    | apply matching_loose; known
    | matching_base
    | apply matching_loose; matching_base
    | apply matching_settled
    | apply matching_reaction
    | apply matching_try_catch
    | eapply matching_bind; [solve [apply matching_get_world]|];
      let H1 := fresh in let H2 := fresh in let H3 := fresh in let H4 := fresh in
      intros ? ? (H1 & H2 & H3 & H4); rewrite ?H1, ?H2, ?H3, ?H4;
      clear H1 H2 H3 H4
    | eapply matching_bind
    | case_match ].

Ltac matching_auto := matching_with fail.

Lemma same_add interfaceName instance :
  matching eq (ObjectRegistry_add interfaceName instance)
    (ObjectRegistry_add interfaceName instance).
Proof. unfold ObjectRegistry_add. matching_auto. Qed.

Lemma same_get objectId :
  matching eq (ObjectRegistry_get objectId) (ObjectRegistry_get objectId).
Proof. unfold ObjectRegistry_get. matching_auto. Qed.

Lemma same_disposeObject objectId :
  matching eq (ObjectRegistry_disposeObject disposeOf objectId)
    (ObjectRegistry_disposeObject disposeOf objectId).
Proof.
  unfold ObjectRegistry_disposeObject. matching_with ltac:(apply same_get).
Qed.

Lemma same_addSubscription requestId subscription :
  matching (λ _ _, True) (ObjectRegistry_addSubscription requestId subscription)
    (ObjectRegistry_addSubscription requestId subscription).
Proof. unfold ObjectRegistry_addSubscription. matching_auto. Qed.

Lemma same_removeSubscription requestId :
  matching (λ _ _, True) (ObjectRegistry_removeSubscription requestId)
    (ObjectRegistry_removeSubscription requestId).
Proof. unfold ObjectRegistry_removeSubscription. matching_auto. Qed.

Lemma same_disposeSubscription requestId :
  matching (λ _ _, True) (ObjectRegistry_disposeSubscription requestId)
    (ObjectRegistry_disposeSubscription requestId).
Proof.
  unfold ObjectRegistry_disposeSubscription.
  matching_with ltac:(apply same_removeSubscription).
Qed.

Lemma same_marshal value type :
  matching eq (marshal marshalExternal value type) (marshal marshalExternal value type).
Proof. unfold marshal. matching_with ltac:(apply same_add). Qed.

Lemma same_marshal_all values type :
  matching eq (marshal_all marshalExternal values type)
    (marshal_all marshalExternal values type).
Proof.
  induction values as [|value rest IH]; simpl.
  - by apply matching_ret.
  - matching_with ltac:(first [apply same_marshal | apply IH]).
Qed.

Lemma same_unmarshalArguments args types :
  matching eq (unmarshalArguments unmarshalExternal args types)
    (unmarshalArguments unmarshalExternal args types).
Proof. unfold unmarshalArguments. matching_auto. Qed.

Lemma same_send message :
  matching (λ _ _, True) (sendSocketMessage message) (sendSocketMessage message).
Proof. unfold sendSocketMessage. matching_auto. Qed.

Lemma same_observer_error requestId error :
  matching (λ _ _, True) (observer_error requestId error) (observer_error requestId error).
Proof.
  unfold observer_error.
  matching_with ltac:(first [apply same_send | apply same_removeSubscription]).
Qed.

Lemma same_observer_completed requestId :
  matching (λ _ _, True) (observer_completed requestId) (observer_completed requestId).
Proof.
  unfold observer_completed.
  matching_with ltac:(first [apply same_send | apply same_removeSubscription]).
Qed.

Lemma same_subscribe requestId type result :
  matching eq (subscribe marshalExternal requestId type result)
    (subscribe marshalExternal requestId type result).
Proof.
  unfold subscribe.
  matching_with ltac:(first [ apply same_marshal_all | apply same_observer_error
                            | apply same_observer_completed ]).
Qed.

Section Trackers.

Variable requestId : nat.
Variable tracker1 tracker2 : TimingTracker.
Hypothesis matching_onSuccess :
  matching (λ _ _, True) (tracker_onSuccess tracker1) (tracker_onSuccess tracker2).
Hypothesis matching_onError :
  ∀ e, matching (λ _ _, True) (tracker_onError tracker1 e) (tracker_onError tracker2 e).

Lemma matching_returnPromise candidate type :
  matching (λ _ _, True)
    (returnPromise marshalExternal requestId tracker1 candidate type)
    (returnPromise marshalExternal requestId tracker2 candidate type).
Proof.
  unfold returnPromise.
  matching_with ltac:(first [ apply same_marshal | apply same_send
                            | apply matching_onSuccess | apply matching_onError ]).
Qed.

Lemma same_returnObservable returnVal type :
  matching (λ _ _, True)
    (returnObservable marshalExternal requestId returnVal type)
    (returnObservable marshalExternal requestId returnVal type).
Proof.
  unfold returnObservable.
  matching_with ltac:(first [apply same_subscribe | apply same_addSubscription]).
Qed.

Lemma matching_returnValue value type :
  matching eq
    (returnValue marshalExternal requestId tracker1 value type)
    (returnValue marshalExternal requestId tracker2 value type).
Proof.
  unfold returnValue. destruct type;
    matching_with ltac:(first [apply matching_returnPromise | apply same_returnObservable]).
Qed.

Lemma same_apply f args : matching eq (apply f args) (apply f args).
Proof. unfold apply. matching_auto. Qed.

Lemma matching_callFunction call :
  matching eq
    (callFunction marshalExternal unmarshalExternal requestId tracker1 call)
    (callFunction marshalExternal unmarshalExternal requestId tracker2 call).
Proof.
  unfold callFunction, _getFunctionImplemention.
  matching_with ltac:(first [ apply same_unmarshalArguments | apply same_apply
                            | apply matching_returnValue ]).
Qed.

Lemma matching_callMethod call :
  matching eq
    (callMethod methodOf marshalExternal unmarshalExternal requestId tracker1 call)
    (callMethod methodOf marshalExternal unmarshalExternal requestId tracker2 call).
Proof.
  unfold callMethod, invariant.
  matching_with ltac:(first [ apply same_get | apply same_unmarshalArguments
                            | apply same_apply | apply matching_returnValue ]).
Qed.

Lemma matching_callConstructor call :
  matching (λ _ _, True)
    (callConstructor marshalExternal unmarshalExternal requestId tracker1 call)
    (callConstructor marshalExternal unmarshalExternal requestId tracker2 call).
Proof.
  unfold callConstructor, construct.
  matching_with ltac:(first [ apply same_unmarshalArguments
                            | apply matching_returnPromise ]).
Qed.

Lemma matching_handle message :
  matching (λ _ _, True)
    (handle methodOf disposeOf marshalExternal unmarshalExternal
       requestId tracker1 message)
    (handle methodOf disposeOf marshalExternal unmarshalExternal
       requestId tracker2 message).
Proof.
  unfold handle.
  matching_with ltac:(first [ apply matching_callFunction | apply matching_callMethod
                            | apply matching_callConstructor
                            | apply same_disposeObject | apply same_disposeSubscription
                            | apply matching_returnPromise | apply same_send
                            | apply matching_onSuccess | apply matching_onError ]).
Qed.

End Trackers.

(** Computing the label changes nothing. *)
Lemma trackingId_world message w : (trackingIdOfMessage message w).2 = w.
Proof.
  unfold trackingIdOfMessage, ObjectRegistry_get, bind, registry, invariant, ret, throw.
  repeat case_match; simplify_eq/=; done.
Qed.

(** X5: whenever the label of a message can be computed, the dispatcher
    with its tracking span and the dispatcher without it settle alike and
    write the same messages, leave the same component and the same
    streams. *)
Lemma tracking_is_side_channel message w label :
  (trackingIdOfMessage message w).1 = Ok label →
  let tracked :=
    handleMessage methodOf disposeOf marshalExternal unmarshalExternal message w in
  let untracked :=
    handleMessage_untracked methodOf disposeOf marshalExternal unmarshalExternal message w in
  alike tracked.2 untracked.2
  ∧ match tracked.1, untracked.1 with
    | Ok _, Ok _ => True
    | Throw e1, Throw e2 => e1 = e2
    | _, _ => False
    end.
Proof.
  intros Hlabel. cbv zeta.
  pose proof (trackingId_world message w) as Hw.
  destruct (trackingIdOfMessage message w) as [[l|e] w0] eqn:Hid;
    simpl in Hlabel, Hw; [|done].
  subst w0.
  assert (handleMessage methodOf disposeOf marshalExternal unmarshalExternal message w
          = handle methodOf disposeOf marshalExternal unmarshalExternal
              (Request.requestId message) recordingTracker message
              (set_tracked (λ l', (l' ++ [startTracking l])%list) w)) as ->.
  { unfold handleMessage, bind at 1. by rewrite Hid. }
  unfold handleMessage_untracked.
  apply (matching_handle (Request.requestId message) recordingTracker noTracker).
  - apply matching_track.
  - intros e. apply matching_track.
  - by repeat split.
Qed.

End TrackingFacts.

(** ** What the peer is told *)

(** Unfold a call down to [returnPromise]. *)
Ltac unfold_call :=
  cbv [handleMessage handle trackingIdOfMessage startTracking_
       callFunction callMethod returnValue
       ObjectRegistry_get registry
       unmarshalArguments apply _getFunctionImplemention
       bind ret throw try_catch lift get_world modify invariant track
       set_tracked
       server sent tracked live nextSubscription
       _typeRegistry _functionsByName _classesByName _objectRegistry
       _registrations _nextObjectId _subscriptions
       fst snd negb].

Section Answers.

Variable methodOf : jsval → string → option Function_.
Variable disposeOf : jsval → Result unit.
Variable marshalExternal : jsval → Ty → Result jsval.
Variable unmarshalExternal : ObjectRegistry → list jsval → list Ty → Result (list jsval).

Local Abbreviation handleMessage' :=
  (handleMessage methodOf disposeOf marshalExternal unmarshalExternal).
Local Abbreviation marshal' := (marshal marshalExternal).
Local Abbreviation deliver' := (deliver marshalExternal).

(** The conversions do not look at the calls made on timing trackers. *)
Lemma marshal_set_tracked value type f w :
  marshal' value type (set_tracked f w)
  = ((marshal' value type w).1, set_tracked f (marshal' value type w).2).
Proof.
  destruct w as [[[nm al] fs cs [regs nid subs]] snt trk lv nxt].
  unfold marshal, bind at 1 3 5, get_world. simpl.
  destruct type as [| | |name|k]; try reflexivity.
  destruct (nm !! name) as [[|interfaceName]|]; reflexivity.
Qed.

Lemma marshal_sent value type w : sent (marshal' value type w).2 = sent w.
Proof. by destruct (marshal_objectsOnly marshalExternal value type w) as (o & n & ->). Qed.

Lemma marshal_tracked value type w : tracked (marshal' value type w).2 = tracked w.
Proof. by destruct (marshal_objectsOnly marshalExternal value type w) as (o & n & ->). Qed.

Lemma marshal_live value type w : live (marshal' value type w).2 = live w.
Proof. by destruct (marshal_objectsOnly marshalExternal value type w) as (o & n & ->). Qed.

(** X6: a [FunctionCall] naming a function that is not registered is
    answered by exactly one [ErrorMessage] carrying the request id; the
    span is closed with [onError], and the component and the streams are
    as they were. *)
Theorem unknown_function_reported (message : Request.t) (w : World) :
  Request.type message = "FunctionCall" →
  _functionsByName (server w) !! Request.function message = None →
  let w' := (handleMessage' message w).2 in
  (handleMessage' message w).1 = Ok tt
  ∧ (∃ response,
       sent w' = (sent w ++ [response])%list
       ∧ type response = "ErrorMessage"
       ∧ requestId response = Request.requestId message
       ∧ hadError response = true)
  ∧ (∃ error,
       tracked w'
       = (tracked w ++ [startTracking ("service-framework:" ++ Request.function message);
                        onError error])%list)
  ∧ server w' = server w
  ∧ live w' = live w.
Proof.
  intros Ht Hf. open_world w. unfold_model. step Ht. tags.
  repeat (progress (rewrite ?Hf; cbv beta iota zeta)).
  cbv [createErrorMessage formatError AssertionError].
  rewrite <- app_assoc.
  split; [done|]. split; [eexists; repeat split; reflexivity|].
  split; [eexists; reflexivity|]. done.
Qed.

(** X7: a [NewObject] naming an interface that is not registered is
    answered by exactly one [ErrorMessage] carrying the request id; the
    span is closed with [onError], and the component and the streams are
    as they were. *)
Theorem unknown_interface_reported (message : Request.t) (w : World) :
  Request.type message = "NewObject" →
  _classesByName (server w) !! Request.interface message = None →
  let w' := (handleMessage' message w).2 in
  (handleMessage' message w).1 = Ok tt
  ∧ (∃ response,
       sent w' = (sent w ++ [response])%list
       ∧ type response = "ErrorMessage"
       ∧ requestId response = Request.requestId message
       ∧ hadError response = true)
  ∧ (∃ error,
       tracked w'
       = (tracked w ++ [startTracking ("service-framework:new:" ++ Request.interface message);
                        onError error])%list)
  ∧ server w' = server w
  ∧ live w' = live w.
Proof.
  intros Ht Hc. open_world w. unfold_model. step Ht. tags.
  repeat (progress (rewrite ?Hc; cbv beta iota zeta)).
  cbv [createErrorMessage formatError AssertionError].
  rewrite <- app_assoc.
  split; [done|]. split; [eexists; repeat split; reflexivity|].
  split; [eexists; reflexivity|]. done.
Qed.

(** X8: a [MethodCall] on a registered object whose interface is not in
    the class table, or declares no such instance method, is answered by
    exactly one [ErrorMessage] carrying the request id; the component is as
    it was. *)
Theorem unknown_method_reported (message : Request.t) (w : World) (found : Registration) :
  Request.type message = "MethodCall" →
  _registrations (_objectRegistry (server w)) !! Request.objectId message = Some found →
  isNullish (object found) = false →
  match _classesByName (server w) !! _interface found with
  | Some classDefinition =>
      instanceMethods (definition classDefinition) !! Request.method message = None
  | None => True
  end →
  let w' := (handleMessage' message w).2 in
  (handleMessage' message w).1 = Ok tt
  ∧ (∃ response,
       sent w' = (sent w ++ [response])%list
       ∧ type response = "ErrorMessage"
       ∧ requestId response = Request.requestId message
       ∧ hadError response = true)
  ∧ (∃ error,
       tracked w'
       = (tracked w
            ++ [startTracking ("service-framework:" ++ _interface found ++ "."
                                 ++ Request.method message);
                onError error])%list)
  ∧ server w' = server w
  ∧ live w' = live w.
Proof.
  intros Ht Hreg Hnn Hm. open_world w. unfold_model. step Ht. tags.
  repeat (progress (rewrite ?Hreg, ?Hnn; cbv beta iota zeta)).
  match type of Hm with
  | context [?table !! _interface found] =>
      destruct (table !! _interface found) as [classDefinition|]
  end;
    repeat (progress (rewrite ?Hm; cbv beta iota zeta));
    cbv [createErrorMessage formatError AssertionError];
    rewrite <- app_assoc;
    (split; [done|]; split; [eexists; repeat split; reflexivity|];
     split; [eexists; reflexivity|]; done).
Qed.

(** X9: when the arguments of a [FunctionCall] do not unmarshal, the
    error of the type registry is what the peer gets: one error response
    built from it, the span closed with [onError] of that error ([new
    Error()] in place of a nullish one). *)
Theorem unmarshal_error_reported
    (message : Request.t) (w : World) (implementation : FunctionImplementation)
    (e : jsval) (response : ResponseMessage) :
  Request.type message = "FunctionCall" →
  _functionsByName (server w) !! Request.function message = Some implementation →
  unmarshalExternal (_objectRegistry (server w)) (Request.args message)
    (argumentTypes (ftype implementation)) = Throw e →
  createErrorMessage (Request.requestId message) e = Ok response →
  let w' := (handleMessage' message w).2 in
  (handleMessage' message w).1 = Ok tt
  ∧ sent w' = (sent w ++ [response])%list
  ∧ tracked w'
    = (tracked w ++ [startTracking ("service-framework:" ++ Request.function message);
                     onError (if isNullish e then new_Error "" else e)])%list
  ∧ server w' = server w
  ∧ live w' = live w.
Proof.
  intros Ht Hf Hu Hr. open_world w. unfold_model. step Ht. tags.
  repeat (progress (rewrite ?Hf, ?Hu, ?Hr; cbv beta iota zeta)).
  rewrite <- app_assoc. done.
Qed.

(** X10: when the local implementation throws a value that
    [formatError] accepts, [handleMessage] completes and the peer gets one
    error response built from the thrown value; the span is closed with
    [onError]. *)
Theorem thrown_error_reported
    (message : Request.t) (w : World) (implementation : FunctionImplementation)
    (f : Function_) (args : list jsval) (e : jsval) (response : ResponseMessage) :
  Request.type message = "FunctionCall" →
  _functionsByName (server w) !! Request.function message = Some implementation →
  unmarshalExternal (_objectRegistry (server w)) (Request.args message)
    (argumentTypes (ftype implementation)) = Ok args →
  localImplementation implementation = Some f →
  f args = Throw e →
  createErrorMessage (Request.requestId message) e = Ok response →
  let w' := (handleMessage' message w).2 in
  (handleMessage' message w).1 = Ok tt
  ∧ sent w' = (sent w ++ [response])%list
  ∧ tracked w'
    = (tracked w ++ [startTracking ("service-framework:" ++ Request.function message);
                     onError (if isNullish e then new_Error "" else e)])%list
  ∧ server w' = server w
  ∧ live w' = live w.
Proof.
  intros Ht Hf Hu Hl Hthrow Hr. open_world w. unfold_model. step Ht. tags.
  repeat (progress (rewrite ?Hf, ?Hu, ?Hl, ?Hthrow, ?Hr; cbv beta iota zeta)).
  rewrite <- app_assoc. done.
Qed.

(** X11: a function that was registered without an implementation (the
    module has no such export) can be called: the call is answered by one
    [ErrorMessage] carrying the request id. *)
Theorem missing_implementation_reported
    (message : Request.t) (w : World) (implementation : FunctionImplementation)
    (args : list jsval) :
  Request.type message = "FunctionCall" →
  _functionsByName (server w) !! Request.function message = Some implementation →
  unmarshalExternal (_objectRegistry (server w)) (Request.args message)
    (argumentTypes (ftype implementation)) = Ok args →
  localImplementation implementation = None →
  let w' := (handleMessage' message w).2 in
  (handleMessage' message w).1 = Ok tt
  ∧ (∃ response,
       sent w' = (sent w ++ [response])%list
       ∧ type response = "ErrorMessage"
       ∧ requestId response = Request.requestId message
       ∧ hadError response = true)
  ∧ server w' = server w
  ∧ live w' = live w.
Proof.
  intros Ht Hf Hu Hl. open_world w. unfold_model. step Ht. tags.
  repeat (progress (rewrite ?Hf, ?Hu, ?Hl; cbv beta iota zeta)).
  cbv [createErrorMessage formatError new_TypeError].
  split; [done|]. split; [eexists; repeat split; reflexivity|]. done.
Qed.

(** X12: a call of a function declared to return [void] writes nothing
    to the socket, whatever the implementation returns; the span is closed
    with [onSuccess]. *)
Theorem void_call_silent
    (message : Request.t) (w : World) (implementation : FunctionImplementation)
    (f : Function_) (args : list jsval) (value : Returned) :
  Request.type message = "FunctionCall" →
  _functionsByName (server w) !! Request.function message = Some implementation →
  unmarshalExternal (_objectRegistry (server w)) (Request.args message)
    (argumentTypes (ftype implementation)) = Ok args →
  localImplementation implementation = Some f →
  f args = Ok value →
  returnType (ftype implementation) = TVoid →
  let w' := (handleMessage' message w).2 in
  (handleMessage' message w).1 = Ok tt
  ∧ sent w' = sent w
  ∧ tracked w'
    = (tracked w ++ [startTracking ("service-framework:" ++ Request.function message);
                     onSuccess])%list
  ∧ server w' = server w
  ∧ live w' = live w.
Proof.
  intros Ht Hf Hu Hl Hv Hr. open_world w. unfold_model. step Ht. tags.
  repeat (progress (rewrite ?Hf, ?Hu, ?Hl, ?Hv, ?Hr; cbv beta iota zeta)).
  rewrite <- app_assoc. done.
Qed.

(** X13: a call of a function whose declared return type is neither
    [void], a promise nor an observable, and whose implementation
    returns, is answered by one error response for [Unkown return type
    <kind>.]; the component and the streams are as they were. *)
Theorem unknown_return_kind_reported
    (message : Request.t) (w : World) (implementation : FunctionImplementation)
    (f : Function_) (args : list jsval) (value : Returned) :
  Request.type message = "FunctionCall" →
  _functionsByName (server w) !! Request.function message = Some implementation →
  unmarshalExternal (_objectRegistry (server w)) (Request.args message)
    (argumentTypes (ftype implementation)) = Ok args →
  localImplementation implementation = Some f →
  f args = Ok value →
  (kind (returnType (ftype implementation)) ∉ ["void"; "promise"; "observable"]) →
  let w' := (handleMessage' message w).2 in
  (handleMessage' message w).1 = Ok tt
  ∧ (∃ response,
       createErrorMessage (Request.requestId message)
         (new_Error ("Unkown return type "
                       ++ kind (returnType (ftype implementation)) ++ ".")) = Ok response
       ∧ sent w' = (sent w ++ [response])%list)
  ∧ server w' = server w
  ∧ live w' = live w.
Proof.
  intros Ht Hf Hu Hl Hv Hk.
  assert (match returnType (ftype implementation) with
          | TNamed _ | TOther _ => True
          | _ => False
          end) as Hshape.
  { destruct (returnType (ftype implementation)); try done;
      exfalso; apply Hk; simpl; set_solver. }
  clear Hk. open_world w. unfold_model. step Ht. tags.
  repeat (progress (rewrite ?Hf, ?Hu, ?Hl, ?Hv; cbv beta iota zeta)).
  destruct (returnType (ftype implementation)) as [| | |name|k] eqn:Hr;
    try contradiction;
    cbv [createErrorMessage formatError new_Error];
    (split; [done|]; split; [eexists; split; reflexivity|]; done).
Qed.

(** A call that reaches [returnPromise]: what is left of [handleMessage]
    is [returnPromise] in the world where the span has been started. *)
Lemma promise_call message w implementation f args value t :
  Request.type message = "FunctionCall" →
  _functionsByName (server w) !! Request.function message = Some implementation →
  unmarshalExternal (_objectRegistry (server w)) (Request.args message)
    (argumentTypes (ftype implementation)) = Ok args →
  localImplementation implementation = Some f →
  f args = Ok value →
  returnType (ftype implementation) = TPromise t →
  handleMessage' message w
  = returnPromise marshalExternal (Request.requestId message) recordingTracker value t
      (set_tracked
         (λ l, (l ++ [startTracking ("service-framework:" ++ Request.function message)])%list)
         w).
Proof.
  intros Ht Hf Hu Hl Hv Hr.
  unfold handleMessage, trackingIdOfMessage. rewrite Ht. simpl.
  unfold bind at 1. unfold ret at 1. unfold bind at 1.
  unfold startTracking_, bind at 1. unfold track at 1, modify at 1. unfold ret at 1.
  unfold handle, try_catch. rewrite Ht. simpl.
  unfold callFunction, bind at 1 2. unfold _getFunctionImplemention, bind at 1.
  unfold get_world at 1. simpl. rewrite Hf. unfold ret at 1.
  unfold bind at 1. unfold unmarshalArguments, bind at 1, registry at 1. simpl.
  rewrite Hu. unfold lift at 1. unfold bind at 1. unfold apply. rewrite Hl.
  unfold lift at 1. rewrite Hv. unfold returnValue. rewrite Hr.
  unfold bind at 1.
  set (w1 := set_tracked _ w).
  assert (∀ w0 c, ∃ w2, returnPromise marshalExternal (Request.requestId message)
            recordingTracker c t w0 = (Ok tt, w2)) as Hok.
  { intros w0 c. unfold returnPromise, bind at 1, settled.
    destruct c as [v|[v|e|]|o]; unfold reaction, ret;
      try destruct (marshal _ _ _ _) as [[d|e'] w'];
      try match goal with |- context [let (_, _) := ?m ?w in _] => destruct (m w) end;
      eauto. }
  destruct (Hok w1 value) as (w2 & ->). reflexivity.
Qed.

(** X14: a promise-returning function whose deferred resolves with a
    value that marshals is answered by exactly one [PromiseMessage]
    carrying the marshalled value; the span is closed with [onSuccess],
    and the component changes only by what marshalling registers. *)
Theorem promise_call_resolved
    (message : Request.t) (w : World) (implementation : FunctionImplementation)
    (f : Function_) (args : list jsval) (t : Ty) (value data : jsval) (w1 : World) :
  Request.type message = "FunctionCall" →
  _functionsByName (server w) !! Request.function message = Some implementation →
  unmarshalExternal (_objectRegistry (server w)) (Request.args message)
    (argumentTypes (ftype implementation)) = Ok args →
  localImplementation implementation = Some f →
  f args = Ok (thenable (Resolves value)) →
  returnType (ftype implementation) = TPromise t →
  marshal' value t w = (Ok data, w1) →
  let w' := (handleMessage' message w).2 in
  (handleMessage' message w).1 = Ok tt
  ∧ sent w' = (sent w ++ [createPromiseMessage (Request.requestId message) data])%list
  ∧ tracked w'
    = (tracked w ++ [startTracking ("service-framework:" ++ Request.function message);
                     onSuccess])%list
  ∧ server w' = server w1
  ∧ live w' = live w.
Proof.
  intros Ht Hf Hu Hl Hv Hr Hm. cbv zeta.
  rewrite (promise_call _ _ _ _ _ _ _ Ht Hf Hu Hl Hv Hr).
  pose proof (marshal_sent value t w) as Hs.
  pose proof (marshal_tracked value t w) as Hk.
  pose proof (marshal_live value t w) as Hv'.
  rewrite Hm in Hs, Hk, Hv'. simpl in Hs, Hk, Hv'.
  erewrite promise_resolved; [|by rewrite marshal_set_tracked, Hm].
  simpl. rewrite Hs, Hk, Hv', <- app_assoc. done.
Qed.

(** X15: a promise-returning function whose deferred rejects with an
    error that [formatError] accepts is answered by exactly one error
    response built from that error; the span is closed with [onError]. *)
Theorem promise_call_rejected
    (message : Request.t) (w : World) (implementation : FunctionImplementation)
    (f : Function_) (args : list jsval) (t : Ty) (e : jsval) (response : ResponseMessage) :
  Request.type message = "FunctionCall" →
  _functionsByName (server w) !! Request.function message = Some implementation →
  unmarshalExternal (_objectRegistry (server w)) (Request.args message)
    (argumentTypes (ftype implementation)) = Ok args →
  localImplementation implementation = Some f →
  f args = Ok (thenable (Rejects e)) →
  returnType (ftype implementation) = TPromise t →
  createErrorMessage (Request.requestId message) e = Ok response →
  let w' := (handleMessage' message w).2 in
  (handleMessage' message w).1 = Ok tt
  ∧ sent w' = (sent w ++ [response])%list
  ∧ tracked w'
    = (tracked w ++ [startTracking ("service-framework:" ++ Request.function message);
                     onError (if isNullish e then new_Error "" else e)])%list
  ∧ server w' = server w
  ∧ live w' = live w.
Proof.
  intros Ht Hf Hu Hl Hv Hr He. cbv zeta.
  rewrite (promise_call _ _ _ _ _ _ _ Ht Hf Hu Hl Hv Hr).
  erewrite promise_rejected; [|done].
  simpl. rewrite <- app_assoc. done.
Qed.

(** X16: a function declared to return a promise that returns something
    that is no thenable is answered by exactly one error response, for
    [Expected a Promise, but the function returned something else.]. *)
Theorem promise_expected_reported
    (message : Request.t) (w : World) (implementation : FunctionImplementation)
    (f : Function_) (args : list jsval) (t : Ty) (value : Returned) :
  Request.type message = "FunctionCall" →
  _functionsByName (server w) !! Request.function message = Some implementation →
  unmarshalExternal (_objectRegistry (server w)) (Request.args message)
    (argumentTypes (ftype implementation)) = Ok args →
  localImplementation implementation = Some f →
  f args = Ok value →
  returnType (ftype implementation) = TPromise t →
  isThenable value = false →
  let w' := (handleMessage' message w).2 in
  let error :=
    new_Error "Expected a Promise, but the function returned something else." in
  (handleMessage' message w).1 = Ok tt
  ∧ (∃ response,
       createErrorMessage (Request.requestId message) error = Ok response
       ∧ sent w' = (sent w ++ [response])%list)
  ∧ tracked w'
    = (tracked w ++ [startTracking ("service-framework:" ++ Request.function message);
                     onError error])%list
  ∧ server w' = server w
  ∧ live w' = live w.
Proof.
  intros Ht Hf Hu Hl Hv Hr Hno. cbv zeta.
  rewrite (promise_call _ _ _ _ _ _ _ Ht Hf Hu Hl Hv Hr).
  destruct value as [v|p|o]; [|discriminate Hno|];
    (split; [done|]; split; [eexists; split; reflexivity|];
     simpl; rewrite <- app_assoc; done).
Qed.


(** What a [DisposeObservable] does. *)
Lemma dispose_observable_effect message w :
  Request.type message = "DisposeObservable" →
  handleMessage' message w
  = (Ok tt,
     set_tracked (λ l, (l ++ [startTracking "service-framework:disposeObservable";
                              onSuccess])%list)
       match _subscriptions (_objectRegistry (server w)) !! Request.requestId message with
       | Some subscription =>
           set_live (delete subscription)
             (set_objectRegistry (λ r,
                {| _registrations := _registrations r;
                   _nextObjectId := _nextObjectId r;
                   _subscriptions := delete (Request.requestId message) (_subscriptions r) |})
                w)
       | None => w
       end).
Proof.
  intros Ht. open_world w. unfold_model. step Ht. tags.
  destruct (subscriptions !! Request.requestId message) as [subscription|];
    cbv beta iota zeta; rewrite <- app_assoc; reflexivity.
Qed.

(** X18: a [DisposeObservable] is never answered: [handleMessage]
    completes, the socket is as it was, the request id holds no
    subscription afterwards and the one it held is cancelled; when it held
    none, the component and the streams are unchanged. *)
Theorem dispose_observable_silent (message : Request.t) (w : World) :
  Request.type message = "DisposeObservable" →
  let w' := (handleMessage' message w).2 in
  (handleMessage' message w).1 = Ok tt
  ∧ sent w' = sent w
  ∧ _subscriptions (_objectRegistry (server w')) !! Request.requestId message = None
  ∧ (∀ subscription,
       _subscriptions (_objectRegistry (server w)) !! Request.requestId message
         = Some subscription →
       live w' !! subscription = None)
  ∧ (_subscriptions (_objectRegistry (server w)) !! Request.requestId message = None →
     server w' = server w ∧ live w' = live w).
Proof.
  intros Ht. cbv zeta. rewrite (dispose_observable_effect _ _ Ht).
  destruct (_subscriptions (_objectRegistry (server w)) !! Request.requestId message)
    as [subscription|] eqn:Hs; simpl.
  - split; [done|]. split; [done|]. split; [apply lookup_delete_eq|].
    split; [|done]. intros ? [= <-]. apply lookup_delete_eq.
  - done.
Qed.

(** X19: a second [DisposeObservable] for the same request id changes
    neither the component nor the streams, and still nothing is
    written. *)
Theorem dispose_observable_twice (first second : Request.t) (w : World) :
  Request.type first = "DisposeObservable" →
  Request.type second = "DisposeObservable" →
  Request.requestId second = Request.requestId first →
  let w1 := (handleMessage' first w).2 in
  let w2 := (handleMessage' second w1).2 in
  server w2 = server w1 ∧ live w2 = live w1 ∧ sent w2 = sent w.
Proof.
  intros Ht1 Ht2 Hid. cbv zeta.
  rewrite (dispose_observable_effect second _ Ht2), Hid.
  rewrite (dispose_observable_effect first _ Ht1).
  destruct (_subscriptions (_objectRegistry (server w)) !! Request.requestId first)
    as [subscription|] eqn:Hs; simpl.
  - rewrite lookup_delete_eq. by repeat split.
  - rewrite Hs. by repeat split.
Qed.

(** X20: when the completion of a stream reaches its subscriber in a
    turn of the stream runtime, one [completed] event is written for the
    request id of the subscription, the subscription is over, and the
    object registry holds no entry for that request id any more. *)
Theorem completion_removes_entry
    (subscription : nat) (s : Subscription) (rest : list Event) (w : World) :
  live w !! subscription = Some s →
  pending s = completion :: rest →
  let w' := (deliver' subscription w).2 in
  (deliver' subscription w).1 = Ok tt
  ∧ sent w' = (sent w ++ [createCompletedMessage (observerId s)])%list
  ∧ live w' !! subscription = None
  ∧ _subscriptions (_objectRegistry (server w')) !! observerId s = None.
Proof.
  intros Hs Hp. destruct s as [id type events]. simpl in Hp. subst events.
  open_world w. unfold_model.
  repeat (progress (rewrite ?Hs; cbv beta iota zeta)).
  split; [done|]. split; [done|]. split; apply lookup_delete_eq.
Qed.

(** X21: when the failure of a stream reaches its subscriber in a turn
    of the stream runtime, with an error that [formatError] accepts, one
    error response is written for the request id of the subscription, the
    subscription is over, and the object registry holds no entry for that
    request id any more. *)
Theorem failure_removes_entry
    (subscription : nat) (s : Subscription) (rest : list Event) (error : jsval)
    (response : ResponseMessage) (w : World) :
  live w !! subscription = Some s →
  pending s = failure error :: rest →
  createErrorMessage (observerId s) error = Ok response →
  let w' := (deliver' subscription w).2 in
  (deliver' subscription w).1 = Ok tt
  ∧ sent w' = (sent w ++ [response])%list
  ∧ live w' !! subscription = None
  ∧ _subscriptions (_objectRegistry (server w')) !! observerId s = None.
Proof.
  intros Hs Hp Hr. destruct s as [id type events]. simpl in Hp. subst events.
  open_world w. unfold_model.
  repeat (progress (rewrite ?Hs, ?Hr; cbv beta iota zeta)).
  split; [done|]. split; [done|]. split; apply lookup_delete_eq.
Qed.

(** *** Methods *)

Lemma returnPromise_returns requestId timingTracker candidate type w :
  ∃ w', returnPromise marshalExternal requestId timingTracker candidate type w = (Ok tt, w').
Proof.
  unfold returnPromise, bind at 1, settled.
  destruct candidate as [v|[v|e|]|o]; unfold reaction, ret;
    try destruct (marshal _ _ _ _) as [[d|e'] w'];
    try match goal with |- context [let (_, _) := ?m ?w in _] => destruct (m w) end;
    eauto.
Qed.

(** A method call that reaches [returnPromise]. *)
Lemma method_call message w found classDefinition type args f value t :
  Request.type message = "MethodCall" →
  _registrations (_objectRegistry (server w)) !! Request.objectId message = Some found →
  isNullish (object found) = false →
  _classesByName (server w) !! _interface found = Some classDefinition →
  instanceMethods (definition classDefinition) !! Request.method message = Some type →
  unmarshalExternal (_objectRegistry (server w)) (Request.args message)
    (argumentTypes type) = Ok args →
  methodOf (object found) (Request.method message) = Some f →
  f args = Ok value →
  returnType type = TPromise t →
  handleMessage' message w
  = returnPromise marshalExternal (Request.requestId message) recordingTracker value t
      (set_tracked
         (λ l, (l ++ [startTracking ("service-framework:" ++ _interface found ++ "."
                                       ++ Request.method message)])%list)
         w).
Proof.
  intros Ht Hreg Hnn Hc Hm Hu Hf Hv Hr.
  open_world w. unfold_call. step Ht. tags.
  repeat (progress (rewrite ?Hreg, ?Hnn, ?Hc, ?Hm, ?Hu, ?Hf, ?Hv, ?Hr; cbv beta iota zeta)).
  match goal with
  | |- context [returnPromise ?a ?b ?c ?d ?e ?world] =>
      destruct (returnPromise_returns b c d e world) as (w2 & ->)
  end.
  reflexivity.
Qed.

(** X29: a [MethodCall] on a registered object, for an instance method
    its interface declares to return a promise: when the method of that
    name of the object, applied to the unmarshalled arguments, returns a
    deferred that resolves with a value that marshals, the call is
    answered by exactly one [PromiseMessage] carrying the marshalled
    value, and the span, labelled with interface and method, is closed
    with [onSuccess]. *)
Theorem method_call_resolved
    (message : Request.t) (w : World) (found : Registration)
    (classDefinition : ClassEntry) (type : FunctionType) (f : Function_)
    (args : list jsval) (t : Ty) (value data : jsval) (w1 : World) :
  Request.type message = "MethodCall" →
  _registrations (_objectRegistry (server w)) !! Request.objectId message = Some found →
  isNullish (object found) = false →
  _classesByName (server w) !! _interface found = Some classDefinition →
  instanceMethods (definition classDefinition) !! Request.method message = Some type →
  unmarshalExternal (_objectRegistry (server w)) (Request.args message)
    (argumentTypes type) = Ok args →
  methodOf (object found) (Request.method message) = Some f →
  f args = Ok (thenable (Resolves value)) →
  returnType type = TPromise t →
  marshal' value t w = (Ok data, w1) →
  let w' := (handleMessage' message w).2 in
  (handleMessage' message w).1 = Ok tt
  ∧ sent w' = (sent w ++ [createPromiseMessage (Request.requestId message) data])%list
  ∧ tracked w'
    = (tracked w
         ++ [startTracking ("service-framework:" ++ _interface found ++ "."
                              ++ Request.method message);
             onSuccess])%list
  ∧ server w' = server w1
  ∧ live w' = live w.
Proof.
  intros Ht Hreg Hnn Hc Hmethod Hu Hf Hv Hr Hm. cbv zeta.
  rewrite (method_call _ _ _ _ _ _ _ _ _ Ht Hreg Hnn Hc Hmethod Hu Hf Hv Hr).
  pose proof (marshal_sent value t w) as Hs.
  pose proof (marshal_tracked value t w) as Hk.
  pose proof (marshal_live value t w) as Hv'.
  rewrite Hm in Hs, Hk, Hv'. simpl in Hs, Hk, Hv'.
  erewrite promise_resolved; [|by rewrite marshal_set_tracked, Hm].
  simpl. rewrite Hs, Hk, Hv', <- app_assoc. done.
Qed.

End Answers.

(** ** Handlers resumed at once *)

(** Case analysis on the outcome of every step of a handler, innermost
    step first. *)
Ltac resume :=
  repeat (cbv beta iota;
          match goal with
          | |- context [match ?m with (_, _) => _ end] =>
              lazymatch m with
              | context [match _ with (_, _) => _ end] => fail
              | _ => destruct m as [[?|?] ?] eqn:?; simplify_eq
              end
          end);
  repeat match goal with a : unit |- _ => destruct a end;
  try congruence.

Section SuspendedFacts.

Variable methodOf : jsval → string → option Function_.
Variable disposeOf : jsval → Result unit.
Variable marshalExternal : jsval → Ty → Result jsval.
Variable unmarshalExternal : ObjectRegistry → list jsval → list Ty → Result (list jsval).

Local Abbreviation handleMessage' :=
  (handleMessage methodOf disposeOf marshalExternal unmarshalExternal).
Local Abbreviation handleMessage_await' :=
  (handleMessage_await methodOf disposeOf marshalExternal unmarshalExternal).
Local Abbreviation handle' :=
  (handle methodOf disposeOf marshalExternal unmarshalExternal).
Local Abbreviation handle_await' :=
  (handle_await methodOf disposeOf marshalExternal unmarshalExternal).

(** A handler that is resumed at once, before anything else happens, is
    the handler run to its end. *)
Lemma handle_resumed_at_once requestId timingTracker message w :
  (rest <- handle_await' requestId timingTracker message ;; rest) w
  = handle' requestId timingTracker message w.
Proof.
  unfold handle_await, handle.
  destruct (String.eqb (Request.type message) "FunctionCall").
  { unfold callFunction_await, callFunction, async, try_catch, settled, bind, ret, lift, throw.
    by resume. }
  destruct (String.eqb (Request.type message) "MethodCall").
  { unfold callMethod_await, callMethod, async, try_catch, settled, bind, ret, lift,
      get_world, throw.
    resume; try done.
    destruct (_classesByName (server _) !! _interface _) as [classDefinition|]; [|done].
    destruct (instanceMethods (definition classDefinition) !! Request.method message)
      as [type|]; [|done].
    by resume. }
  destruct (String.eqb (Request.type message) "NewObject").
  { unfold callConstructor_await, callConstructor, async, try_catch, settled, bind, ret,
      lift, get_world, throw.
    destruct (_classesByName (server w) !! Request.interface message) as [classDefinition|];
      [|done].
    by resume. }
  destruct (String.eqb (Request.type message) "DisposeObject").
  { unfold try_catch, settled, bind, ret, lift, throw. by resume. }
  destruct (String.eqb (Request.type message) "DisposeObservable").
  { unfold try_catch, bind, ret. by resume. }
  unfold try_catch, bind, throw, ret. by resume.
Qed.

Lemma handleMessage_resumed_at_once message w :
  (rest <- handleMessage_await' message ;; rest) w = handleMessage' message w.
Proof.
  unfold handleMessage_await, handleMessage.
  pose proof (handle_resumed_at_once (Request.requestId message)) as Hresumed.
  set (whole := handle' (Request.requestId message)) in *.
  set (begun := handle_await' (Request.requestId message)) in *.
  clearbody whole begun. unfold bind in *.
  destruct (trackingIdOfMessage message w) as [[label|e] w1]; [|reflexivity].
  destruct (startTracking_ label w1) as [[tracker|e] w2]; [|reflexivity].
  apply Hresumed.
Qed.

End SuspendedFacts.

(** ** A cancellation that arrives while the call is suspended *)

Section Overtaken.

Variable methodOf : jsval → string → option Function_.
Variable disposeOf : jsval → Result unit.
Variable marshalExternal : jsval → Ty → Result jsval.
Variable unmarshalExternal : ObjectRegistry → list jsval → list Ty → Result (list jsval).

Local Abbreviation handleMessage' :=
  (handleMessage methodOf disposeOf marshalExternal unmarshalExternal).
Local Abbreviation handleMessage_await' :=
  (handleMessage_await methodOf disposeOf marshalExternal unmarshalExternal).
Local Abbreviation run' := (run methodOf disposeOf marshalExternal unmarshalExternal).
Local Abbreviation returnObservable' := (returnObservable marshalExternal).

(** A call of a function that returns a stream is suspended with the
    implementation found and the conversion of the arguments started;
    what is left is the call of the implementation and
    [returnObservable]. *)
Lemma await_stream_call message w type o :
  callsStream methodOf unmarshalExternal message w type o →
  ∃ label rest,
    handleMessage_await' message w
    = (Ok rest, set_tracked (λ l, (l ++ [startTracking label])%list) w)
    ∧ ∀ w1 w',
        returnObservable' (Request.requestId message) (observable o) type w1
          = (Ok tt, w') →
        rest w1 = (Ok tt, set_tracked (λ l, (l ++ [onSuccess])%list) w').
Proof.
  intros [(Ht & implementation & f & args & Hf & Hu & Hl & Hr & Hcall)
         |(Ht & found & classDefinition & ftype & f & args
              & Hfound & Hnn & Hclass & Hmethod & Hu & Hl & Hr & Hcall)].
  - exists ("service-framework:" ++ Request.function message). eexists. split.
    + unfold handleMessage_await, trackingIdOfMessage, handle_await. rewrite Ht. tags.
      cbv [bind ret get_world track modify lift settled async registry
           startTracking_ callFunction_await _getFunctionImplemention
           unmarshalArguments].
      rewrite !server_set_tracked. step Hf. rewrite !server_set_tracked. step Hu.
      reflexivity.
    + intros w1 w' Hret.
      cbv [bind ret lift try_catch apply recordingTracker tracker_onSuccess track modify].
      step Hl. step Hcall. rewrite Hr. unfold returnValue. cbv [bind ret].
      by rewrite Hret.
  - exists ("service-framework:" ++ _interface found ++ "." ++ Request.method message).
    eexists. split.
    + unfold handleMessage_await, trackingIdOfMessage, handle_await. rewrite Ht. tags.
      cbv [bind ret throw get_world track modify lift settled async registry invariant negb
           startTracking_ callMethod_await ObjectRegistry_get unmarshalArguments].
      step Hfound. step Hnn. rewrite !server_set_tracked.
      step Hfound. step Hnn. rewrite !server_set_tracked. step Hclass. step Hmethod.
      rewrite !server_set_tracked. step Hu. reflexivity.
    + intros w1 w' Hret.
      cbv [bind ret lift try_catch apply recordingTracker tracker_onSuccess track modify].
      step Hl. step Hcall. rewrite Hr. unfold returnValue. cbv [bind ret].
      by rewrite Hret.
Qed.

Lemma conversion_external types type value data :
  (∀ name interfaceName,
     type = TNamed name →
     _namedMarshallers types !! name ≠ Some (interfaceMarshaller interfaceName)) →
  conversion marshalExternal types type value data →
  marshalExternal value type = Ok data.
Proof.
  intros Hexternal (w & w' & Ht & Hm).
  unfold marshal, bind at 1, get_world, lift in Hm. rewrite Ht in Hm.
  destruct type as [| | |name|]; try congruence.
  specialize (Hexternal name).
  destruct (_namedMarshallers types !! name) as [[|interfaceName]|]; try congruence.
  by destruct (Hexternal interfaceName).
Qed.

Lemma converts_external types type value data :
  marshalExternal value type = Ok data →
  converts marshalExternal types type value = true.
Proof.
  intros Hm. unfold converts. rewrite Hm.
  destruct type as [| | |name|]; try done.
  by destruct (_namedMarshallers types !! name) as [[|interfaceName]|].
Qed.

Lemma conversions_external types type values data data' :
  (∀ name interfaceName,
     type = TNamed name →
     _namedMarshallers types !! name ≠ Some (interfaceMarshaller interfaceName)) →
  Forall2 (λ value d, marshalExternal value type = Ok d) values data →
  Forall2 (conversion marshalExternal types type) values data' →
  data' = data.
Proof.
  intros Hexternal Hdata. revert data'.
  induction Hdata as [|value d values data Hd _ IH]; intros data' Hc.
  - by apply Forall2_nil_inv_l in Hc.
  - apply Forall2_cons_inv_l in Hc as (d' & rest & Hd' & Hrest & ->).
    apply (conversion_external _ _ _ _ Hexternal) in Hd'.
    rewrite (IH rest Hrest). congruence.
Qed.

Lemma turnsOf_turns subscription turns :
  turnsOf subscription (replicate turns (turn subscription)) = turns.
Proof.
  induction turns as [|turns IH]; [done|]. simpl. rewrite decide_True by done.
  by rewrite IH.
Qed.

Lemma others_turns id subscription turns :
  others id (replicate turns (turn subscription)).
Proof. apply Forall_replicate. done. Qed.

(** C3: a call, under a new request id, of a function declared to return
    an observable, whose local implementation returns a stream that emits
    values that marshal (to [data]) and then completes.  The handler is
    suspended at [await unmarshalArguments(...)] before it has subscribed.
    A [DisposeObservable] with the request id that is handled then
    completes and finds no subscription to cancel: it writes nothing and
    leaves the component and the streams as they were.  The handler, resumed,
    subscribes, and once the stream has had a turn per value and one
    more, the responses written for the request id are all of: one [next]
    event per value, carrying the marshalled values in emission order,
    then one [completed] event.  The cancellation has stopped nothing. *)
Theorem disposal_while_suspended_lost
    (message dispose : Request.t) (w : World) (elementType : Ty) (o : Stream)
    (data : list jsval) (turns : nat) :
  let rid := Request.requestId message in
  let sid := nextSubscription w in
  callsStream methodOf unmarshalExternal message w elementType o →
  finish o = Completes →
  (∀ name interfaceName,
     elementType = TNamed name →
     _namedMarshallers (_typeRegistry (server w)) !! name
     ≠ Some (interfaceMarshaller interfaceName)) →
  Forall2 (λ value d, marshalExternal value elementType = Ok d) (emits o) data →
  newRequest rid w →
  Request.type dispose = "DisposeObservable" →
  Request.requestId dispose = rid →
  (length (emits o) < turns)%nat →
  ∃ rest suspended disposed resumed,
    handleMessage_await' message w = (Ok rest, suspended)
    ∧ handleMessage' dispose suspended = (Ok tt, disposed)
    ∧ sent disposed = sent w
    ∧ server disposed = server w
    ∧ live disposed = live w
    ∧ rest disposed = (Ok tt, resumed)
    ∧ responsesTo rid (run' (replicate turns (turn sid)) resumed)
      = (responsesTo rid w
         ++ ((λ d, {| channel := "service_framework3_rpc";
                      type := "ObservableMessage";
                      requestId := rid;
                      hadError := false;
                      payload := result_event (next d) |}) <$> data)
         ++ [{| channel := "service_framework3_rpc";
                type := "ObservableMessage";
                requestId := rid;
                hadError := false;
                payload := result_event completed |}])%list.
Proof.
  intros rid sid Hcall Hfin Hexternal Hdata Hnew Hdispose Hid Hturns.
  set (types := _typeRegistry (server w)) in *.
  destruct (await_stream_call message w elementType o Hcall)
    as (label & rest & Hawait & Hrest).
  fold rid in Hrest.
  set (suspended := set_tracked (λ l, (l ++ [startTracking label])%list) w) in *.
  pose proof (dispose_observable_effect methodOf disposeOf marshalExternal
                unmarshalExternal dispose suspended Hdispose) as Hdisposed.
  rewrite Hid in Hdisposed.
  assert (_subscriptions (_objectRegistry (server suspended)) !! rid = None) as Hnone
    by apply Hnew.
  rewrite Hnone in Hdisposed.
  set (disposed :=
         set_tracked (λ l, (l ++ [startTracking "service-framework:disposeObservable";
                                  onSuccess])%list) suspended) in *.
  assert (newRequest rid disposed) as Hnew' by exact Hnew.
  assert (nextSubscription disposed = sid) as Hsid by reflexivity.
  assert (_typeRegistry (server disposed) = types) as Htypes by reflexivity.
  assert (Forall (λ value, converts marshalExternal types elementType value = true)
            (emits o)) as Hall.
  { clear -Hdata. induction Hdata as [|value d values data Hd _ IH]; constructor; [|done].
    by eapply converts_external. }
  assert (others rid (replicate turns (turn sid))) as Hothers by apply others_turns.
  assert (∀ w',
            returnObservable' rid (observable o) elementType disposed = (Ok tt, w') →
            (∃ data',
               Forall2 (conversion marshalExternal types elementType) (emits o) data'
               ∧ responsesTo rid (run' (replicate turns (turn sid))
                                    (set_tracked (λ l, (l ++ [onSuccess])%list) w'))
                 = (responsesTo rid w
                    ++ (createNextMessage rid <$> data')
                    ++ [createCompletedMessage rid])%list) →
            ∃ rest suspended disposed resumed,
              handleMessage_await' message w = (Ok rest, suspended)
              ∧ handleMessage' dispose suspended = (Ok tt, disposed)
              ∧ sent disposed = sent w
              ∧ server disposed = server w
              ∧ live disposed = live w
              ∧ rest disposed = (Ok tt, resumed)
              ∧ responsesTo rid (run' (replicate turns (turn sid)) resumed)
                = (responsesTo rid w
                   ++ (createNextMessage rid <$> data)
                   ++ [createCompletedMessage rid])%list) as Hend.
  { intros w' Hret (data' & Hc & Hresponses).
    rewrite (conversions_external types elementType (emits o) data data'
               Hexternal Hdata Hc) in Hresponses.
    exists rest, suspended, disposed, (set_tracked (λ l, (l ++ [onSuccess])%list) w').
    split; [exact Hawait|]. split; [exact Hdisposed|].
    split; [reflexivity|]. split; [reflexivity|]. split; [reflexivity|].
    split; [by apply Hrest|]. exact Hresponses. }
  destruct (synchronous o) eqn:Hsync; [destruct (emits o) as [|value values] eqn:Hemits|].
  - destruct (start_sync_empty marshalExternal rid sid elementType o disposed)
      as (w' & Hret & Hfinished); try done.
    apply (Hend w' Hret). exists []. split; [constructor|].
    destruct (stream_outcome_at_once methodOf disposeOf marshalExternal unmarshalExternal
                rid sid types elementType (replicate turns (turn sid))
                (set_tracked (λ l, (l ++ [onSuccess])%list) w') (responsesTo rid w))
      as ((arrived & Hresponses & _ & Hall') & _); [exact Hfinished|done|].
    rewrite Hresponses, Hall'; [done|]. rewrite turnsOf_turns. simpl in Hturns. lia.
  - rewrite <- Hemits in *.
    destruct (start_sync_values marshalExternal rid sid types elementType o disposed)
      as (w' & data' & Hret & Hc & Hs); try done.
    { by rewrite Hemits. }
    apply (Hend w' Hret).
    destruct (stream_outcome methodOf disposeOf marshalExternal unmarshalExternal
                rid sid types elementType (replicate turns (turn sid))
                (converted <$> (Ok <$> data')) (emits o)
                (set_tracked (λ l, (l ++ [onSuccess])%list) w') (responsesTo rid w))
      as (data'' & Hc' & (arrived & Hresponses & _ & Hall') & _).
    + apply playable_converted.
    + exact Hs.
    + intros messages ->%expected_converted. by exists data'.
    + done.
    + exists data''. split; [done|]. rewrite Hresponses, Hall'; [done|].
      by rewrite turnsOf_turns.
  - destruct (start_async marshalExternal rid sid types elementType o disposed)
      as (w' & Hret & Hs); try done.
    apply (Hend w' Hret).
    destruct (stream_outcome methodOf disposeOf marshalExternal unmarshalExternal
                rid sid types elementType (replicate turns (turn sid))
                (emission <$> emits o) (emits o)
                (set_tracked (λ l, (l ++ [onSuccess])%list) w') (responsesTo rid w))
      as (data'' & Hc' & (arrived & Hresponses & _ & Hall') & _).
    + by apply playable_emissions.
    + exact Hs.
    + apply expected_emissions.
    + done.
    + exists data''. split; [done|]. rewrite Hresponses, Hall'; [done|].
      by rewrite turnsOf_turns.
Qed.

End Overtaken.

(** ** What is written while a message is handled *)

Section Elsewhere.

Variable methodOf : jsval → string → option Function_.
Variable disposeOf : jsval → Result unit.
Variable marshalExternal : jsval → Ty → Result jsval.
Variable unmarshalExternal : ObjectRegistry → list jsval → list Ty → Result (list jsval).
Variable id : nat.

Local Abbreviation E := (elsewhere id).
Local Abbreviation handleMessage' :=
  (handleMessage methodOf disposeOf marshalExternal unmarshalExternal).

Lemma elsewhere_same w w' : sent w' = sent w → Rel E w w'.
Proof. intros Hs. exists []. by rewrite app_nil_r. Qed.

#[local] Instance elsewhere_laws : Laws E.
Proof.
  split.
  - intros w. by apply elsewhere_same.
  - intros w1 w2 w3 (new1 & H1 & F1) (new2 & H2 & F2).
    exists (new1 ++ new2)%list. split.
    + by rewrite H2, H1, app_assoc.
    + by apply Forall_app.
Qed.

#[local] Instance elsewhere_keeps : Keeps E.
Proof.
  split.
  - intros w w' (o & n & ->) _. split; [done|]. by apply elsewhere_same.
  - intros f w _. split; [done|]. by apply elsewhere_same.
  - intros message w Hne _. split; [done|]. exists [message]. split; [done|].
    by apply Forall_singleton.
  - intros i w _ _. split; [done|]. by apply elsewhere_same.
Qed.

Lemma elsewhere_modify f : (∀ w, sent (f w) = sent w) → fine E (modify f).
Proof. intros Hf. apply fine_modify. intros w _. split; [done|]. apply elsewhere_same, Hf. Qed.

#[local] Instance elsewhere_keeps_streams : KeepsStreams marshalExternal E.
Proof.
  split.
  - intros i Hne. unfold ObjectRegistry_disposeSubscription.
    fine_with ltac:(by apply elsewhere_modify).
  - intros i returnVal type Hne.
    unfold returnObservable, subscribe, ObjectRegistry_addSubscription.
    fine_with ltac:(by apply elsewhere_modify).
Qed.

(** While a message is handled nothing is written for another request
    id. *)
Lemma handleMessage_elsewhere message w :
  Request.requestId message ≠ id →
  ∃ new, sent (handleMessage' message w).2 = (sent w ++ new)%list
         ∧ Forall (λ r, requestId r ≠ id) new.
Proof.
  intros Hne.
  by destruct (fine_handleMessage (methodOf := methodOf) (disposeOf := disposeOf)
                 (unmarshalExternal := unmarshalExternal) (F := E) message Hne w I)
    as (_ & ? & _).
Qed.

End Elsewhere.

Section Boundary.

Variable methodOf : jsval → string → option Function_.
Variable disposeOf : jsval → Result unit.
Variable marshalExternal : jsval → Ty → Result jsval.
Variable unmarshalExternal : ObjectRegistry → list jsval → list Ty → Result (list jsval).

Local Abbreviation handleMessage' :=
  (handleMessage methodOf disposeOf marshalExternal unmarshalExternal).
Local Abbreviation handle' :=
  (handle methodOf disposeOf marshalExternal unmarshalExternal).
Local Abbreviation tryBlock' :=
  (tryBlock methodOf disposeOf marshalExternal unmarshalExternal).

Lemma handleMessage_sent message w :
  ∃ new, sent (handleMessage' message w).2 = (sent w ++ new)%list
         ∧ Forall (λ r, requestId r = Request.requestId message) new.
Proof.
  destruct (handleMessage_elsewhere methodOf disposeOf marshalExternal unmarshalExternal
              (S (Request.requestId message)) message w) as (new & Hnew & _); [lia|].
  exists new. split; [done|]. apply Forall_forall. intros r Hr.
  destruct (decide (requestId r = Request.requestId message)) as [|Hne]; [done|].
  destruct (handleMessage_elsewhere methodOf disposeOf marshalExternal unmarshalExternal
              (requestId r) message w) as (new' & Hnew' & Hall); [done|].
  rewrite Hnew in Hnew'. apply app_inv_head in Hnew'. subst new'.
  by destruct (proj1 (Forall_forall _ _) Hall r Hr).
Qed.

(** X1: whatever [handleMessage] writes to the socket while it handles
    a message comes after the messages already written and carries the
    request id of that message. *)
Theorem responses_carry_request_id (message : Request.t) (w : World) :
  ∃ new, sent (handleMessage' message w).2 = (sent w ++ new)%list
         ∧ Forall (λ r, requestId r = Request.requestId message) new.
Proof. apply handleMessage_sent. Qed.

(** [handleMessage]'s [try] statement is its two blocks put together. *)
Lemma handle_blocks requestId timingTracker message :
  handle' requestId timingTracker message
  = try_catch (tryBlock' requestId timingTracker message)
      (catchBlock requestId timingTracker).
Proof. reflexivity. Qed.

(** X3: the promise of [handleMessage] rejects in two cases, and in no
    other: while the tracking label is computed, before the [try]
    statement, with the error thrown there; or when the [try] block has
    thrown and [formatError], called on the caught value while the [catch]
    block builds the error response, throws in its turn, with what
    [formatError] throws.  The socket, the logger and the timing tracker do
    not throw here. *)
Theorem rejection_causes (message : Request.t) (w : World) (e : jsval) :
  (handleMessage' message w).1 = Throw e
  ↔ (trackingIdOfMessage message w).1 = Throw e
    ∨ ∃ label caught,
        (trackingIdOfMessage message w).1 = Ok label
        ∧ (tryBlock' (Request.requestId message) recordingTracker message
             (set_tracked (λ l, (l ++ [startTracking label])%list)
                (trackingIdOfMessage message w).2)).1 = Throw caught
        ∧ formatError caught = Throw e.
Proof.
  unfold handleMessage, bind at 1.
  destruct (trackingIdOfMessage message w) as [[label|e'] w1]; cbn [fst snd].
  2: { split; [intros [= ->]; by left|]. by intros [[= ->]|(? & ? & ? & _)]. }
  unfold bind at 1, startTracking_, bind at 1, track, modify, ret.
  rewrite handle_blocks. unfold try_catch.
  destruct (tryBlock' _ _ _ _) as [[[]|caught] w2] eqn:Htry; cbn [fst snd].
  { split; [done|]. intros [?|(label' & caught & Heq & Hthrow & _)]; [done|].
    injection Heq as Heq; subst label'. by rewrite Htry in Hthrow. }
  assert ((catchBlock (Request.requestId message) recordingTracker caught w2).1
          = match formatError caught with
            | Ok _ => Ok tt
            | Throw thrown => Throw thrown
            end) as ->.
  { unfold catchBlock, bind at 1, tracker_onError, recordingTracker, track, modify.
    unfold bind at 1, lift, createErrorMessage.
    by destruct (formatError caught). }
  split.
  - destruct (formatError caught) as [body|e''] eqn:Hf; [done|].
    intros [= ->]. right. exists label, caught. by rewrite Htry.
  - intros [?|(label' & caught' & Heq & Hthrow & Hf)]; [done|].
    injection Heq as Heq; subst label'. rewrite Htry in Hthrow. cbn [fst] in Hthrow.
    injection Hthrow as <-. by rewrite Hf.
Qed.

(** X4: [trackingIdOfMessage] returns a label, and changes nothing,
    exactly for a [FunctionCall], a [NewObject], a [DisposeObservable], and
    a [MethodCall] or [DisposeObject] naming a registered object that is
    not nullish. *)
Theorem label_defined (message : Request.t) (w : World) :
  (∃ label, trackingIdOfMessage message w = (Ok label, w))
  ↔ (Request.type message ∈ ["FunctionCall"; "NewObject"; "DisposeObservable"]
     ∨ (Request.type message ∈ ["MethodCall"; "DisposeObject"]
        ∧ ∃ found,
            _registrations (_objectRegistry (server w)) !! Request.objectId message
              = Some found
            ∧ isNullish (object found) = false)).
Proof.
  unfold trackingIdOfMessage, ObjectRegistry_get, bind, registry, invariant, ret, throw.
  split.
  - intros (label & Hl).
    destruct (String.eqb_spec (Request.type message) "FunctionCall") as [Ht|_];
      [left; rewrite Ht; set_solver|].
    destruct (String.eqb_spec (Request.type message) "MethodCall") as [Ht|_].
    { right. split; [rewrite Ht; set_solver|].
      destruct (_ !! _) as [found|]; [|discriminate Hl]. exists found. split; [done|].
      by destruct (isNullish (object found)). }
    destruct (String.eqb_spec (Request.type message) "NewObject") as [Ht|_];
      [left; rewrite Ht; set_solver|].
    destruct (String.eqb_spec (Request.type message) "DisposeObject") as [Ht|_].
    { right. split; [rewrite Ht; set_solver|].
      destruct (_ !! _) as [found|]; [|discriminate Hl]. exists found. split; [done|].
      by destruct (isNullish (object found)). }
    destruct (String.eqb_spec (Request.type message) "DisposeObservable") as [Ht|_];
      [left; rewrite Ht; set_solver|].
    discriminate Hl.
  - intros [Ht|[Ht (found & Hreg & Hnn)]].
    + rewrite !elem_of_cons, elem_of_nil in Ht.
      destruct Ht as [->|[->|[->|[]]]]; simpl; eauto.
    + rewrite !elem_of_cons, elem_of_nil in Ht.
      destruct Ht as [->|[->|[]]]; simpl; rewrite Hreg, Hnn; simpl; eauto.
Qed.

End Boundary.

(** ** At most one answer *)

Section Once.

Variable methodOf : jsval → string → option Function_.
Variable disposeOf : jsval → Result unit.
Variable marshalExternal : jsval → Ty → Result jsval.
Variable unmarshalExternal : ObjectRegistry → list jsval → list Ty → Result (list jsval).
Variable id : nat.

Local Abbreviation Q := (quiet id).
Local Abbreviation handleMessage' :=
  (handleMessage methodOf disposeOf marshalExternal unmarshalExternal).
Local Abbreviation handle' :=
  (handle methodOf disposeOf marshalExternal unmarshalExternal).

#[local] Instance quiet_laws : Laws Q.
Proof. split; simpl; [done|]. intros w1 w2 w3 H1 H2. by rewrite H2. Qed.

#[local] Instance quiet_keeps : Keeps Q.
Proof.
  split.
  - intros w w' (o & n & ->) Hi. by split.
  - intros f w Hi. by split.
  - intros message w Hne Hi. split; [done|]. simpl.
    rewrite responsesTo_send, decide_False by done. apply app_nil_r.
  - intros i w Hne Hi. split; [|done]. unfold quiet, unsubscribed in *. simpl in *.
    by rewrite lookup_delete_ne.
Qed.

Lemma quiet_modify f :
  (∀ w, unsubscribed id w → unsubscribed id (f w) ∧ sent (f w) = sent w) →
  fine Q (modify f).
Proof.
  intros Hf. apply fine_modify. intros w Hi. destruct (Hf w Hi) as [H1 H2].
  split; [done|]. simpl. unfold responsesTo. by rewrite H2.
Qed.

Lemma quiet_once {A} (m : M A) : fine Q m → once id m.
Proof.
  intros Hm w Hi. destruct (Hm w Hi) as (_ & Hr & _). simpl in Hr.
  rewrite Hr. destruct (m w).1; [lia|done].
Qed.

Lemma once_bind {A B} (m : M A) (k : A → M B) :
  fine Q m → (∀ a, once id (k a)) → once id (bind m k).
Proof.
  intros Hm Hk w Hi. destruct (Hm w Hi) as (Hi1 & Hr & _). simpl in Hr.
  unfold bind. destruct (m w) as [[a|e] w1]; simpl in *.
  - specialize (Hk a w1 Hi1). by rewrite Hr in Hk.
  - done.
Qed.

Lemma once_calm {A B} (m : M A) (k : A → M B) :
  once id m → (∀ a, calm id (k a)) → once id (bind m k).
Proof.
  intros Hm Hk w Hi. specialize (Hm w Hi).
  unfold bind. destruct (m w) as [[a|e] w1]; simpl in *.
  - destruct (Hk a w1) as ((b & Hb) & Hr). rewrite Hb, Hr. done.
  - done.
Qed.

Lemma calm_ret {A} (a : A) : calm id (ret a).
Proof. intros w. split; [by exists a|done]. Qed.

Lemma calm_track t : calm id (track t).
Proof. intros w. split; [by exists tt|done]. Qed.

Lemma responses_le w w' msgs :
  sent w' = (sent w ++ msgs)%list →
  (length msgs ≤ 1)%nat →
  (length (responsesTo id w') ≤ S (length (responsesTo id w)))%nat.
Proof.
  intros Hs Hl. unfold responsesTo. rewrite Hs, filter_app, length_app.
  pose proof (length_filter (λ response, requestId response = id) msgs). lia.
Qed.

Lemma responses_same w w' : sent w' = sent w → responsesTo id w' = responsesTo id w.
Proof. intros Hs. unfold responsesTo. by rewrite Hs. Qed.

(** The conversions of a batch of values never throw. *)
Lemma marshal_all_returns values type w :
  ∃ data, (marshal_all marshalExternal values type w).1 = Ok data.
Proof.
  revert w. induction values as [|value rest IH]; intros w; simpl; [by eexists|].
  unfold bind at 1, settled.
  destruct (marshal marshalExternal value type w) as [[d|e] w1];
    unfold bind; destruct (IH w1) as (ds & Hds);
    destruct (marshal_all marshalExternal rest type w1) as [[ds'|e'] w2];
    simpl in *; try discriminate; by eexists.
Qed.

Lemma returnPromise_answers candidate type w :
  ∃ w', returnPromise marshalExternal id recordingTracker candidate type w = (Ok tt, w')
        ∧ (length (responsesTo id w') ≤ S (length (responsesTo id w)))%nat.
Proof.
  assert (∀ outcome w1, sent w1 = sent w →
    ∃ w', match outcome with
          | Ok result =>
              reaction (sendSocketMessage (createPromiseMessage id result) ;;
                        tracker_onSuccess recordingTracker)
          | Throw error =>
              reaction (message <- lift (createErrorMessage id error) ;;
                        sendSocketMessage message ;;
                        tracker_onError recordingTracker
                          (if isNullish error then new_Error "" else error))
          end w1 = (Ok tt, w')
          ∧ (length (responsesTo id w') ≤ S (length (responsesTo id w)))%nat) as Hsend.
  { intros [result|error] w1 Hs.
    - eexists. split; [reflexivity|].
      by eapply responses_le with (msgs := [_]); [simpl; rewrite Hs|].
    - unfold reaction, bind at 1, lift.
      destruct (createErrorMessage id error) as [message|e].
      + eexists. split; [reflexivity|].
        by eapply responses_le with (msgs := [_]); [simpl; rewrite Hs|].
      + eexists. split; [reflexivity|]. rewrite (responses_same w w1 Hs). lia. }
  unfold returnPromise.
  destruct candidate as [v|[v|e|]|o].
  - exact (Hsend (Throw _) w eq_refl).
  - unfold bind at 1, settled.
    pose proof (marshal_sent marshalExternal v type w) as Hs.
    destruct (marshal marshalExternal v type w) as [[d|e] w1]; simpl in Hs.
    + exact (Hsend (Ok d) w1 Hs).
    + exact (Hsend (Throw e) w1 Hs).
  - exact (Hsend (Throw e) w eq_refl).
  - exists w. split; [done|]. lia.
  - exact (Hsend (Throw _) w eq_refl).
Qed.

Lemma once_returnPromise candidate type :
  once id (returnPromise marshalExternal id recordingTracker candidate type).
Proof.
  intros w Hi. by destruct (returnPromise_answers candidate type w) as (w' & -> & ?).
Qed.

Lemma objectsOnly_unsubscribed w w' :
  objectsOnly w w' → unsubscribed id w → unsubscribed id w' ∧ sent w' = sent w.
Proof. by intros (o & n & ->) Hi. Qed.

(** A stream that is subscribed to for a request id without a
    subscription: at most one message is written at once, none when a
    callback throws, and the request id is still without an entry. *)
Lemma subscribe_answers type result w :
  unsubscribed id w →
  match subscribe marshalExternal id type result w with
  | (Ok _, w') =>
      unsubscribed id w'
      ∧ (length (responsesTo id w') ≤ S (length (responsesTo id w)))%nat
  | (Throw _, w') => responsesTo id w' = responsesTo id w
  end.
Proof.
  intros Hi. unfold subscribe.
  cbv [bind get_world modify ret].
  destruct (synchronous result).
  - pose proof (marshal_all_objectsOnly marshalExternal (emits result) type
                  (set_nextSubscription (S (nextSubscription w)) w)) as Ho.
    destruct (marshal_all_returns (emits result) type
                (set_nextSubscription (S (nextSubscription w)) w)) as (data & Hd).
    destruct (marshal_all marshalExternal (emits result) type
                (set_nextSubscription (S (nextSubscription w)) w)) as [r w1].
    simpl in Ho, Hd. subst r.
    destruct (objectsOnly_unsubscribed _ _ Ho) as [Hi1 Hs1]; [done|].
    simpl in Hs1.
    assert (∀ events,
      unsubscribed id (set_live (insert (nextSubscription w)
        {| observerId := id; elementType := type; pending := events |}) w1)
      ∧ (length (responsesTo id (set_live (insert (nextSubscription w)
           {| observerId := id; elementType := type; pending := events |}) w1))
         ≤ S (length (responsesTo id w)))%nat) as Hwait.
    { intros events. split; [done|].
      rewrite (responses_same w (set_live _ w1) Hs1). lia. }
    assert (∀ message,
      unsubscribed id (ObjectRegistry_removeSubscription id
                         (set_sent (λ l, (l ++ [message])%list) w1)).2
      ∧ (length (responsesTo id (ObjectRegistry_removeSubscription id
                   (set_sent (λ l, (l ++ [message])%list) w1)).2)
         ≤ S (length (responsesTo id w)))%nat) as Hsent.
    { intros message. split.
      - unfold unsubscribed. simpl. apply lookup_delete_eq.
      - by eapply responses_le with (msgs := [message]); [simpl; rewrite Hs1|]. }
    destruct (finish result) as [|error|]; [destruct data as [|d data]|..];
      cbv beta iota; try apply Hwait.
    + cbv [observer_completed bind sendSocketMessage modify]. apply Hsent.
    + cbv [observer_error bind lift].
      destruct (createErrorMessage id error) as [message|e]; cbv beta iota.
      * cbv [sendSocketMessage modify]. apply Hsent.
      * by apply responses_same.
  - split; [done|].
    rewrite (responses_same w (set_live _ (set_nextSubscription _ w)) eq_refl). lia.
Qed.

Lemma once_returnObservable returnVal type :
  once id (returnObservable marshalExternal id returnVal type).
Proof.
  intros w Hi. unfold returnObservable.
  set (result := match returnVal with observable o => o | _ => _ end).
  pose proof (subscribe_answers type result w Hi) as Hs.
  unfold bind.
  destruct (subscribe marshalExternal id type result w) as [[s|e] w1]; [|done].
  destruct Hs as [Hi1 Hl].
  unfold ObjectRegistry_addSubscription, bind, registry. rewrite Hi1. simpl.
  by rewrite (responses_same w1 (set_objectRegistry _ w1) eq_refl).
Qed.

Lemma once_returnValue value type :
  once id (returnValue marshalExternal id recordingTracker value type).
Proof.
  unfold returnValue. destruct type.
  - apply quiet_once, fine_ret.
  - apply once_calm; [apply once_returnPromise|intros; apply calm_ret].
  - apply once_calm; [apply once_returnObservable|intros; apply calm_ret].
  - apply quiet_once, ok_throw.
  - apply quiet_once, ok_throw.
Qed.

Ltac once_with known :=
  repeat first
    [ progress intros
    | known
    | apply once_returnValue
    | apply once_bind; [solve [fine_auto]|]
    | solve [apply quiet_once; fine_auto]
    | case_match ].

Lemma once_callFunction call :
  once id (callFunction marshalExternal unmarshalExternal id recordingTracker call).
Proof.
  unfold callFunction, _getFunctionImplemention, apply. once_with fail.
Qed.

Lemma once_callMethod call :
  once id (callMethod methodOf marshalExternal unmarshalExternal id recordingTracker call).
Proof. unfold callMethod, apply. once_with fail. Qed.

Lemma once_callConstructor call :
  once id (callConstructor marshalExternal unmarshalExternal id recordingTracker call).
Proof.
  unfold callConstructor, construct. once_with ltac:(apply once_returnPromise).
Qed.

(** Cancelling the subscription of the request id itself. *)
Lemma quiet_disposeSubscription : fine Q (ObjectRegistry_disposeSubscription id).
Proof.
  unfold ObjectRegistry_disposeSubscription, ObjectRegistry_removeSubscription.
  fine_with ltac:(apply quiet_modify; intros w Hi; split; [|done]).
  unfold unsubscribed. simpl. apply lookup_delete_eq.
Qed.

(** The [try] block. *)
Lemma once_body message :
  once id
    (returnedPromise <-
       (if String.eqb (Request.type message) "FunctionCall" then
          callFunction marshalExternal unmarshalExternal id recordingTracker message
        else if String.eqb (Request.type message) "MethodCall" then
          callMethod methodOf marshalExternal unmarshalExternal id recordingTracker message
        else if String.eqb (Request.type message) "NewObject" then
          callConstructor marshalExternal unmarshalExternal id recordingTracker message ;;
          ret true
        else if String.eqb (Request.type message) "DisposeObject" then
          ObjectRegistry_disposeObject disposeOf (Request.objectId message) ;;
          returnPromise marshalExternal id recordingTracker
            (thenable (Resolves VUndefined)) voidType ;;
          ret true
        else if String.eqb (Request.type message) "DisposeObservable" then
          ObjectRegistry_disposeSubscription id ;;
          ret false
        else
          throw (new_Error ("Unkown message type " ++ Request.type message))) ;;
     if returnedPromise : bool then ret tt else tracker_onSuccess recordingTracker).
Proof.
  apply once_calm; [|intros []; [apply calm_ret|apply calm_track]].
  repeat case_match.
  - apply once_callFunction.
  - apply once_callMethod.
  - apply once_calm; [apply once_callConstructor|intros; apply calm_ret].
  - apply once_bind; [fine_auto|]. intros _.
    apply once_calm; [apply once_returnPromise|intros; apply calm_ret].
  - apply quiet_once. fine_with ltac:(apply quiet_disposeSubscription).
  - apply quiet_once, ok_throw.
Qed.

Lemma handle_answers message w :
  unsubscribed id w →
  (length (responsesTo id (handle' id recordingTracker message w).2)
   ≤ S (length (responsesTo id w)))%nat.
Proof.
  intros Hi. pose proof (once_body message w Hi) as Hb.
  unfold handle, try_catch.
  match goal with
  | |- context [bind ?body ?k w] => destruct (bind body k w) as [[[]|e] w1]
  end; simpl in Hb; [done|].
  cbv [bind tracker_onError recordingTracker track modify lift].
  destruct (createErrorMessage id e) as [response|e']; simpl.
  - rewrite responsesTo_send, length_app,
      (responses_same w1 (set_tracked _ w1) eq_refl), Hb.
    case_decide; simpl; lia.
  - rewrite (responses_same w1 (set_tracked _ w1) eq_refl), Hb. lia.
Qed.

End Once.

Lemma responsesTo_all id (messages : list ResponseMessage) :
  Forall (λ r, requestId r = id) messages →
  filter (λ response, requestId response = id) messages = messages.
Proof.
  induction 1 as [|r rest Hr _ IH]; [done|].
  by rewrite filter_cons_True, IH.
Qed.

Section OnceTheorem.

Variable methodOf : jsval → string → option Function_.
Variable disposeOf : jsval → Result unit.
Variable marshalExternal : jsval → Ty → Result jsval.
Variable unmarshalExternal : ObjectRegistry → list jsval → list Ty → Result (list jsval).

Local Abbreviation handleMessage' :=
  (handleMessage methodOf disposeOf marshalExternal unmarshalExternal).

(** X2: a message whose request id holds no subscription in the object
    registry makes [handleMessage] write at most one message to the
    socket while it handles it, the reaction to a promise that has settled
    included.  This is for local implementations that throw or return a
    plain value, a promise that settles at most once, as a native promise
    does, or a stream; the events a stream delivers in later turns are not
    written by [handleMessage]. *)
Theorem at_most_one_response (message : Request.t) (w : World) :
  _subscriptions (_objectRegistry (server w)) !! Request.requestId message = None →
  ∃ new, sent (handleMessage' message w).2 = (sent w ++ new)%list
         ∧ (length new ≤ 1)%nat.
Proof.
  intros Hi.
  destruct (handleMessage_sent methodOf disposeOf marshalExternal unmarshalExternal
              message w) as (new & Hnew & Hall).
  exists new. split; [done|].
  assert (length (responsesTo (Request.requestId message) (handleMessage' message w).2)
          ≤ S (length (responsesTo (Request.requestId message) w)))%nat as Hl.
  { unfold handleMessage, bind at 1.
    pose proof (trackingId_world message w) as Hw.
    destruct (trackingIdOfMessage message w) as [[label|e] w0]; simpl in Hw; subst w0;
      [|simpl; lia].
    cbv [startTracking_ bind track modify ret].
    apply (handle_answers methodOf disposeOf marshalExternal unmarshalExternal
             (Request.requestId message) message
             (set_tracked (λ l, (l ++ [startTracking label])%list) w)).
    exact Hi. }
  unfold responsesTo in Hl. rewrite Hnew, filter_app, length_app in Hl.
  rewrite (responsesTo_all _ new Hall) in Hl. lia.
Qed.

End OnceTheorem.

(** ** A request id that was never used *)

Section Fresh.

Variable registerTypeCheck : TypeRegistry → string → Result unit.
Variable registerAliasCheck : TypeRegistry → string → Ty → Result unit.
Variable methodOf : jsval → string → option Function_.
Variable disposeOf : jsval → Result unit.
Variable marshalExternal : jsval → Ty → Result jsval.
Variable unmarshalExternal : ObjectRegistry → list jsval → list Ty → Result (list jsval).

(** X30: on a component made from any services, after any traffic in
    which no inbound message carries a request id, the object registry
    holds no subscription for that id and no live stream reports to
    it. *)
Theorem unused_request_unsubscribed
    (services : list ConfigEntry) (schedule : list Activity) (id : nat) :
  others id schedule →
  let w := run methodOf disposeOf marshalExternal unmarshalExternal schedule
             (constructor registerTypeCheck registerAliasCheck services emptyWorld).2 in
  _subscriptions (_objectRegistry (server w)) !! id = None
  ∧ map_Forall (λ _ s, observerId s ≠ id) (live w).
Proof.
  intros Ho.
  destruct (unused_request_is_new registerTypeCheck registerAliasCheck methodOf disposeOf
              marshalExternal unmarshalExternal services schedule id Ho)
    as (H1 & H2 & _).
  by split.
Qed.

End Fresh.

(** ** What registration leaves and what it adds *)

Section Registered.

Variable registerTypeCheck : TypeRegistry → string → Result unit.
Variable registerAliasCheck : TypeRegistry → string → Ty → Result unit.

Local Abbreviation addDefinition' := (addDefinition registerTypeCheck registerAliasCheck).
Local Abbreviation addService' := (addService registerTypeCheck registerAliasCheck).
Local Abbreviation addServices' := (addServices registerTypeCheck registerAliasCheck).

(** [forEach] over a list in two parts. *)
Lemma forEach_app {A} (f : A → M unit) l1 l2 w :
  forEach f (l1 ++ l2) w = (forEach f l1 ;; forEach f l2) w.
Proof.
  revert w. induction l1 as [|x l1 IH]; intros w; simpl.
  - reflexivity.
  - unfold bind in *. destruct (f x w) as [[[]|e] w1]; [|reflexivity].
    apply IH.
Qed.

Lemma fine_forEach {A} (F : Frame) `{!Laws F} (f : A → M unit) l :
  (∀ x, x ∈ l → fine F (f x)) → fine F (forEach f l).
Proof.
  induction l as [|x rest IH]; intros Hf; simpl; [apply fine_ret|].
  apply fine_bind.
  - apply Hf. by left.
  - intros _. apply IH. intros y Hy. apply Hf. by right.
Qed.

(** *** Nothing is unregistered *)

#[local] Instance kept_laws : Laws kept.
Proof.
  split.
  - intros w. by repeat split.
  - intros w1 w2 w3 (H1 & H2 & H3 & H4) (K1 & K2 & K3 & K4). repeat split; eauto.
Qed.

Lemma kept_registerType name marshaller :
  fine kept (registerType registerTypeCheck name marshaller).
Proof.
  unfold registerType.
  fine_with ltac:(first [apply fine_ret | apply fine_modify; intros w _; split; [done|]]).
  destruct w as [[[nm al] fs cs r] snt trk lv nxt]. repeat split; simpl; try done.
  intros n Hn. destruct (decide (n = name)) as [->|Hne].
  - rewrite lookup_insert_eq. eauto.
  - by rewrite lookup_insert_ne.
Qed.

Lemma kept_registerAlias name type :
  fine kept (registerAlias registerAliasCheck name type).
Proof.
  unfold registerAlias.
  fine_with ltac:(first [apply fine_ret | apply fine_modify; intros w _; split; [done|]]).
  destruct w as [[[nm al] fs cs r] snt trk lv nxt]. repeat split; simpl; try done.
  intros n Hn. destruct (decide (n = name)) as [->|Hne].
  - rewrite lookup_insert_eq. eauto.
  - by rewrite lookup_insert_ne.
Qed.

Lemma kept_registerFunction name localImpl type :
  fine kept (_registerFunction name localImpl type).
Proof.
  intros w _. unfold _registerFunction, bind, get_world.
  destruct (_functionsByName (server w) !! name) as [old|] eqn:Hf.
  - split; [done|]. split; [|done]. apply Rel_refl.
  - split; [done|]. split; [|done].
    destruct w as [[[nm al] fs cs r] snt trk lv nxt]. repeat split; simpl in *; try done.
    intros n f Hn. rewrite lookup_insert_ne; [done|]. intros <-. congruence.
Qed.

Local Abbreviation registerStatic name c :=
  (λ '(funcName, funcType),
     match c with
     | Some c => _registerFunction (name ++ "/" ++ funcName) (statics c funcName) funcType
     | None => throw (new_TypeError ("Cannot read property '" ++ funcName ++ "' of undefined"))
     end).

Lemma kept_statics name (c : option LocalClass) (methods : list (string * FunctionType)) :
  fine kept (forEach (registerStatic name c) methods).
Proof.
  apply fine_forEach; [exact _|]. intros [funcName funcType] _.
  destruct c; [apply kept_registerFunction|apply ok_throw].
Qed.

Lemma kept_addDefinition service localImpl d :
  fine kept (addDefinition' service localImpl d).
Proof.
  unfold addDefinition. destruct d as [key [type|]|key type|d].
  - apply kept_registerAlias.
  - apply fine_ret.
  - apply kept_registerFunction.
  - apply fine_bind; [|intros _; apply fine_bind;
                        [apply kept_registerType|intros _; apply kept_statics]].
    apply fine_modify. intros w _. split; [done|].
    destruct w as [[[nm al] fs cs r] snt trk lv nxt]. repeat split; simpl; try done.
    intros n Hn. destruct (decide (n = interfaceName d)) as [->|Hne].
    + rewrite lookup_insert_eq. eauto.
    + by rewrite lookup_insert_ne.
Qed.

Lemma kept_addService service : fine kept (addService' service).
Proof.
  unfold addService.
  fine_with ltac:(first [ apply kept_addDefinition | apply fine_forEach; [exact _|] ]).
Qed.

Lemma kept_addServices services : fine kept (addServices' services).
Proof.
  unfold addServices. apply fine_forEach; [exact _|]. intros s _. apply kept_addService.
Qed.

(** X22: registering services never removes or replaces a function
    that is already registered: its entry is the same afterwards, also
    when the registration throws half way. *)
Theorem registration_keeps_functions
    (services : list ConfigEntry) (w : World) (name : string)
    (existing : FunctionImplementation) :
  _functionsByName (server w) !! name = Some existing →
  _functionsByName (server (addServices' services w).2) !! name = Some existing.
Proof.
  intros Hf. destruct (kept_addServices services w I) as (_ & (H1 & _) & _). by apply H1.
Qed.

(** X23: registering services never unregisters a class, a named type
    or an alias: the names in the three tables only grow, also when the
    registration throws half way. *)
Theorem registration_never_unregisters (services : list ConfigEntry) (w : World) :
  let w' := (addServices' services w).2 in
  dom (_classesByName (server w)) ⊆ dom (_classesByName (server w'))
  ∧ dom (_namedMarshallers (_typeRegistry (server w)))
    ⊆ dom (_namedMarshallers (_typeRegistry (server w')))
  ∧ dom (_aliases (_typeRegistry (server w))) ⊆ dom (_aliases (_typeRegistry (server w'))).
Proof.
  destruct (kept_addServices services w I) as (_ & (_ & H2 & H3 & H4) & _).
  cbv zeta. repeat split; intros name; rewrite !elem_of_dom; auto.
Qed.

(** *** What a service registers *)

Lemma kept_definitions service localImpl defs :
  fine kept (forEach (addDefinition' service localImpl) defs).
Proof. apply fine_forEach; [exact _|]. intros d _. apply kept_addDefinition. Qed.

Lemma registerFunction_registered name localImpl type w w' :
  _registerFunction name localImpl type w = (Ok tt, w') →
  _functionsByName (server w') !! name
  = Some {| localImplementation := localImpl; ftype := type |}.
Proof.
  unfold _registerFunction, bind, get_world.
  destruct (_functionsByName (server w) !! name); [discriminate|].
  intros [= <-]. simpl. apply lookup_insert_eq.
Qed.

Lemma definitions_register_functions service localImpl defs name type w w' :
  forEach (addDefinition' service localImpl) defs w = (Ok tt, w') →
  function name type ∈ defs →
  _functionsByName (server w') !! (service ++ "/" ++ name)
  = Some {| localImplementation := functions localImpl name; ftype := type |}.
Proof.
  revert w. induction defs as [|d rest IH]; intros w Hrun Hin.
  - by apply elem_of_nil in Hin.
  - simpl in Hrun. unfold bind in Hrun.
    destruct (addDefinition' service localImpl d w) as [[[]|e] w1] eqn:Hd; [|discriminate].
    apply elem_of_cons in Hin as [<-|Hin]; [|by eapply IH].
    simpl in Hd. apply registerFunction_registered in Hd.
    destruct (kept_definitions service localImpl rest w1 I) as (_ & (H1 & _) & _).
    rewrite Hrun in H1. by apply H1.
Qed.

(** X24: after [addService] has returned, every function of the service
    definition is registered under [<service>/<name>], with the export of
    that name of the implementation module and with its declared type. *)
Theorem addService_registers_functions
    (service : ConfigEntry) (w : World) (defs : list Definition_)
    (localImpl : LocalModule) (name : string) (type : FunctionType) :
  definitions service = Ok defs →
  implementation service = Ok localImpl →
  (addService' service w).1 = Ok tt →
  function name type ∈ defs →
  _functionsByName (server (addService' service w).2) !! (serviceName service ++ "/" ++ name)
  = Some {| localImplementation := functions localImpl name; ftype := type |}.
Proof.
  intros Hdefs Himpl Hok Hin.
  unfold addService, bind, lift in *. rewrite Hdefs, Himpl in *.
  destruct (forEach _ defs w) as [[[]|e] w'] eqn:Hrun; [|discriminate].
  by eapply definitions_register_functions.
Qed.

Lemma statics_registered name c methods funcName funcType w w' :
  forEach (registerStatic name c) methods w = (Ok tt, w') →
  (funcName, funcType) ∈ methods →
  ∃ class, c = Some class
           ∧ _functionsByName (server w') !! (name ++ "/" ++ funcName)
             = Some {| localImplementation := statics class funcName; ftype := funcType |}.
Proof.
  revert w. induction methods as [|[fn ft] rest IH]; intros w Hrun Hin.
  - by apply elem_of_nil in Hin.
  - simpl in Hrun. unfold bind in Hrun.
    destruct c as [class|]; [|discriminate].
    destruct (_registerFunction (name ++ "/" ++ fn) (statics class fn) ft w)
      as [[[]|e] w1] eqn:Hd; [|discriminate].
    apply elem_of_cons in Hin as [[= -> ->]|Hin]; [|by eapply IH].
    exists class. split; [done|].
    apply registerFunction_registered in Hd.
    destruct (kept_statics name (Some class) rest w1 I) as (_ & (H1 & _) & _).
    rewrite Hrun in H1. by apply H1.
Qed.

Lemma definitions_register_statics service localImpl defs d funcName funcType w w' :
  forEach (addDefinition' service localImpl) defs w = (Ok tt, w') →
  interface d ∈ defs →
  (funcName, funcType) ∈ staticMethods d →
  ∃ class, classes localImpl (interfaceName d) = Some class
           ∧ _functionsByName (server w') !! (interfaceName d ++ "/" ++ funcName)
             = Some {| localImplementation := statics class funcName; ftype := funcType |}.
Proof.
  revert w. induction defs as [|d' rest IH]; intros w Hrun Hin Hm.
  - by apply elem_of_nil in Hin.
  - simpl in Hrun. unfold bind in Hrun.
    destruct (addDefinition' service localImpl d' w) as [[[]|e] w1] eqn:Hd; [|discriminate].
    apply elem_of_cons in Hin as [<-|Hin]; [|by eapply IH].
    simpl in Hd. unfold bind at 1, modify at 1 in Hd. unfold bind at 1 in Hd.
    destruct (registerType _ _ _ _) as [[[]|e] w0]; [|discriminate].
    destruct (statics_registered _ _ _ _ _ _ _ Hd Hm) as (class & Hc & Hf).
    exists class. split; [done|].
    destruct (kept_definitions service localImpl rest w1 I) as (_ & (H1 & _) & _).
    rewrite Hrun in H1. by apply H1.
Qed.

(** X26: after [addService] has returned, every static method of every
    interface of the service is registered as a function under
    [<interface>/<method>], with the static property of the exported class
    and its declared type; the class is exported. *)
Theorem addService_registers_statics
    (service : ConfigEntry) (w : World) (defs : list Definition_)
    (localImpl : LocalModule) (d : InterfaceDefinition)
    (funcName : string) (funcType : FunctionType) :
  definitions service = Ok defs →
  implementation service = Ok localImpl →
  (addService' service w).1 = Ok tt →
  interface d ∈ defs →
  (funcName, funcType) ∈ staticMethods d →
  ∃ class, classes localImpl (interfaceName d) = Some class
           ∧ _functionsByName (server (addService' service w).2)
               !! (interfaceName d ++ "/" ++ funcName)
             = Some {| localImplementation := statics class funcName; ftype := funcType |}.
Proof.
  intros Hdefs Himpl Hok Hin Hm.
  unfold addService, bind, lift in *. rewrite Hdefs, Himpl in *.
  destruct (forEach _ defs w) as [[[]|e] w'] eqn:Hrun; [|discriminate].
  by eapply definitions_register_statics.
Qed.

(** *** The interfaces of a service *)

Section Interfaces.

Variable localImpl : LocalModule.
Variable all : list Definition_.
Variable name : string.

Local Abbreviation K := (keptInterface localImpl all name).

#[local] Instance keptInterface_laws : Laws K.
Proof. split; simpl; eauto. Qed.

Lemma keptInterface_functions f : fine K (modify (set_functionsByName f)).
Proof.
  apply fine_modify. intros w _. split; [done|].
  destruct w as [[[nm al] fs cs r] snt trk lv nxt]. intros H. exact H.
Qed.

Lemma keptInterface_registerFunction key implementation type :
  fine K (_registerFunction key implementation type).
Proof. unfold _registerFunction. fine_with ltac:(apply keptInterface_functions). Qed.

Lemma keptInterface_registerAlias key type :
  fine K (registerAlias registerAliasCheck key type).
Proof.
  unfold registerAlias.
  fine_with ltac:(first [apply fine_ret | apply fine_modify; intros w _; split; [done|]]).
  destruct w as [[[nm al] fs cs r] snt trk lv nxt]. intros H. exact H.
Qed.

Lemma keptInterface_registerType key :
  fine K (registerType registerTypeCheck key (interfaceMarshaller key)).
Proof.
  unfold registerType.
  fine_with ltac:(first [apply fine_ret | apply fine_modify; intros w _; split; [done|]]).
  destruct w as [[[nm al] fs cs r] snt trk lv nxt].
  intros [Hm Hc]. split; [|done]. simpl in *.
  destruct (decide (name = key)) as [->|Hne].
  - apply lookup_insert_eq.
  - by rewrite lookup_insert_ne.
Qed.

Lemma keptInterface_class d :
  interface d ∈ all →
  fine K (modify (set_classesByName (insert (interfaceName d)
            {| classImplementation := classes localImpl (interfaceName d);
               definition := d |}))).
Proof.
  intros Hin. apply fine_modify. intros w _. split; [done|].
  destruct w as [[[nm al] fs cs r] snt trk lv nxt].
  intros [Hm (d' & Hd' & Hn & Hc)]. split; [done|]. simpl in *.
  destruct (decide (name = interfaceName d)) as [->|Hne].
  - exists d. split; [done|]. split; [done|]. apply lookup_insert_eq.
  - exists d'. split; [done|]. split; [done|]. by rewrite lookup_insert_ne.
Qed.

Lemma keptInterface_statics key c methods :
  fine K (forEach (registerStatic key c) methods).
Proof.
  apply fine_forEach; [exact _|]. intros [funcName funcType] _.
  destruct c; [apply keptInterface_registerFunction|apply ok_throw].
Qed.

Lemma keptInterface_addDefinition service d :
  d ∈ all → fine K (addDefinition' service localImpl d).
Proof.
  intros Hin. unfold addDefinition.
  destruct d as [key [type|]|key type|d].
  - apply keptInterface_registerAlias.
  - apply fine_ret.
  - apply keptInterface_registerFunction.
  - apply fine_bind; [by apply keptInterface_class|]. intros _.
    apply fine_bind; [apply keptInterface_registerType|]. intros _.
    apply keptInterface_statics.
Qed.

Lemma keptInterface_definitions service defs :
  (∀ d, d ∈ defs → d ∈ all) →
  fine K (forEach (addDefinition' service localImpl) defs).
Proof.
  intros Hsub. apply fine_forEach; [exact _|]. intros d Hd.
  by apply keptInterface_addDefinition, Hsub.
Qed.

End Interfaces.

Lemma definitions_register_interfaces service localImpl all defs d w w' :
  (∀ d, d ∈ defs → d ∈ all) →
  forEach (addDefinition' service localImpl) defs w = (Ok tt, w') →
  interface d ∈ defs →
  interfaceEntry localImpl all (interfaceName d) w'.
Proof.
  revert w. induction defs as [|d' rest IH]; intros w Hsub Hrun Hin.
  - by apply elem_of_nil in Hin.
  - simpl in Hrun. unfold bind in Hrun.
    destruct (addDefinition' service localImpl d' w) as [[[]|e] w1] eqn:Hd; [|discriminate].
    assert (∀ d, d ∈ rest → d ∈ all) as Hsub' by (intros ? ?; apply Hsub; by right).
    apply elem_of_cons in Hin as [<-|Hin]; [|by eapply IH].
    destruct (keptInterface_definitions localImpl all (interfaceName d) service rest
                Hsub' w1 I) as (_ & Hkeep & _).
    rewrite Hrun in Hkeep. apply Hkeep. clear Hkeep Hrun IH.
    simpl in Hd. unfold bind at 1, modify at 1 in Hd. unfold bind at 1 in Hd.
    destruct (registerType _ _ _ _) as [[[]|e] w0] eqn:Ht; [|discriminate].
    destruct (keptInterface_statics localImpl all (interfaceName d) (interfaceName d)
                (classes localImpl (interfaceName d)) (staticMethods d) w0 I)
      as (_ & Hkeep & _).
    rewrite Hd in Hkeep. apply Hkeep. clear Hkeep Hd.
    unfold registerType, bind, get_world, lift, modify in Ht.
    destruct (registerTypeCheck _ _); [|discriminate]. injection Ht as <-.
    destruct w as [[[nm al] fs cs r] snt trk lv nxt]. split; simpl.
    + apply lookup_insert_eq.
    + exists d. split; [apply Hsub; by left|]. split; [done|]. apply lookup_insert_eq.
Qed.

(** X25: after [addService] has returned, every interface of the
    service converts through the object registry, and the class table
    holds, under its name, the export of the implementation module with a
    definition of that name from the service. *)
Theorem addService_registers_interfaces
    (service : ConfigEntry) (w : World) (defs : list Definition_)
    (localImpl : LocalModule) (d : InterfaceDefinition) :
  definitions service = Ok defs →
  implementation service = Ok localImpl →
  (addService' service w).1 = Ok tt →
  interface d ∈ defs →
  let w' := (addService' service w).2 in
  _namedMarshallers (_typeRegistry (server w')) !! interfaceName d
  = Some (interfaceMarshaller (interfaceName d))
  ∧ ∃ last, interface last ∈ defs
            ∧ interfaceName last = interfaceName d
            ∧ _classesByName (server w') !! interfaceName d
              = Some {| classImplementation := classes localImpl (interfaceName d);
                        definition := last |}.
Proof.
  intros Hdefs Himpl Hok Hin. cbv zeta.
  unfold addService, bind, lift in *. rewrite Hdefs, Himpl in *.
  destruct (forEach _ defs w) as [[[]|e] w'] eqn:Hrun; [|discriminate].
  by eapply (definitions_register_interfaces _ _ defs defs).
Qed.

(** *** Services in a row *)

(** X27: when a service fails to register, [addServices] throws its
    error and stops: the services before it stay registered, and those
    after it are not looked at. *)
Theorem addServices_stops_at_failure
    (before after : list ConfigEntry) (service : ConfigEntry) (w : World) (e : jsval) :
  (addServices' before w).1 = Ok tt →
  (addService' service (addServices' before w).2).1 = Throw e →
  addServices' (before ++ service :: after) w
  = (Throw e, (addService' service (addServices' before w).2).2).
Proof.
  intros Hb Hs. unfold addServices in *. rewrite forEach_app. unfold bind at 1.
  destruct (forEach addService' before w) as [[[]|e'] w1]; [|discriminate].
  simpl in *. unfold bind.
  destruct (addService' service w1) as [[[]|e'] w2]; [discriminate|].
  simpl in Hs. by injection Hs as ->.
Qed.

End Registered.

(** ** The properties at work on the sample configuration *)

Lemma registerFunction_duplicate_witness :
  _functionsByName (server Sample.world) !! "sample/resolve"
  = Some {| localImplementation := functions Sample.module "resolve";
            ftype := Sample.promiseOfNumber |}
  ∧ (_registerFunction "sample/resolve" None Sample.voidFunction Sample.world
     = (Throw (new_Error ("Duplicate RPC function: " ++ "sample/resolve")), Sample.world)
     ∧ _functionsByName
         (server (_registerFunction "sample/resolve" None Sample.voidFunction
                    Sample.world).2) !! "sample/resolve"
       = Some {| localImplementation := functions Sample.module "resolve";
                 ftype := Sample.promiseOfNumber |}).
Proof.
  assert (_functionsByName (server Sample.world) !! "sample/resolve"
          = Some {| localImplementation := functions Sample.module "resolve";
                    ftype := Sample.promiseOfNumber |}) as H by (vm_compute; reflexivity).
  split; [exact H|].
  exact (registerFunction_duplicate Sample.world "sample/resolve" _ None
           Sample.voidFunction H).
Defined.

Lemma interface_reregistration_witness :
  let later :=
    {| interfaceName := "Counter";
       constructorArgs := [];
       staticMethods := [("zero", Sample.promiseOfNumber)];
       instanceMethods := ∅ |} in
  _classesByName (server Sample.world) !! "Counter"
  = Some {| classImplementation := Some Sample.CounterClass; definition := Sample.Counter |}
  ∧ (let run := addDefinition Sample.registerTypeCheck Sample.registerAliasCheck
                  "again" Sample.module (interface later) Sample.world in
     _classesByName (server run.2)
     = <["Counter" := {| classImplementation := Some Sample.CounterClass;
                         definition := later |}]>
         (_classesByName (server Sample.world))
     ∧ run.1 = Ok tt).
Proof.
  intros later.
  assert (_classesByName (server Sample.world) !! interfaceName later
          = Some {| classImplementation := Some Sample.CounterClass;
                    definition := Sample.Counter |}) as H by (vm_compute; reflexivity).
  split; [exact H|].
  destruct (interface_reregistration Sample.registerTypeCheck Sample.registerAliasCheck
              Sample.world "again" Sample.module later _ H) as (Hclasses & Hok & _).
  split; [exact Hclasses|]. apply Hok.
  split; [reflexivity|]. split; [right; by eexists|].
  split; [apply NoDup_singleton|]. apply Forall_singleton. vm_compute. reflexivity.
Defined.

Lemma unknown_type_not_reported_witness :
  (Request.type (Sample.request "Ping" 7) ∉ knownTypes)
  ∧ (Sample.handleMessage (Sample.request "Ping" 7) Sample.world
     = (Throw (new_Error ("Unknown message type "
                            ++ Request.type (Sample.request "Ping" 7))), Sample.world)
     ∧ sent (Sample.handleMessage (Sample.request "Ping" 7) Sample.world).2
       = sent Sample.world).
Proof.
  assert (Request.type (Sample.request "Ping" 7) ∉ knownTypes) as H
    by (simpl; unfold knownTypes; rewrite !not_elem_of_cons;
        repeat split; try discriminate; apply not_elem_of_nil).
  split; [exact H|].
  exact (unknown_type_not_reported Sample.methodOf Sample.disposeOf
           Sample.marshalExternal Sample.unmarshalExternal
           (Sample.request "Ping" 7) Sample.world H).
Defined.

Lemma tracking_changes_responses_witness :
  (Request.type (Sample.MethodCall 7 42 "increment") ∉ knownTypes
   ∨ ((Request.type (Sample.MethodCall 7 42 "increment") = "MethodCall"
       ∨ Request.type (Sample.MethodCall 7 42 "increment") = "DisposeObject")
      ∧ _registrations (_objectRegistry (server Sample.world))
          !! Request.objectId (Sample.MethodCall 7 42 "increment") = None))
  ∧ (sent (Sample.handleMessage (Sample.MethodCall 7 42 "increment") Sample.world).2
     = sent Sample.world
     ∧ ∃ response,
         sent (Sample.handleMessage_untracked (Sample.MethodCall 7 42 "increment")
                 Sample.world).2 = (sent Sample.world ++ [response])%list
         ∧ requestId response = Request.requestId (Sample.MethodCall 7 42 "increment")
         ∧ type response = "ErrorMessage"
         ∧ hadError response = true).
Proof.
  assert (Request.type (Sample.MethodCall 7 42 "increment") ∉ knownTypes
          ∨ ((Request.type (Sample.MethodCall 7 42 "increment") = "MethodCall"
              ∨ Request.type (Sample.MethodCall 7 42 "increment") = "DisposeObject")
             ∧ _registrations (_objectRegistry (server Sample.world))
                 !! Request.objectId (Sample.MethodCall 7 42 "increment") = None)) as H.
  { right. split; [left; reflexivity|vm_compute; reflexivity]. }
  split; [exact H|].
  exact (tracking_changes_responses Sample.methodOf Sample.disposeOf
           Sample.marshalExternal Sample.unmarshalExternal
           (Sample.MethodCall 7 42 "increment") Sample.world H).
Defined.

Lemma request_error_escapes_witness :
  ((Request.type (Sample.FunctionCall 3 "sample/throwNull") = "MethodCall"
    ∧ _registrations (_objectRegistry (server Sample.world))
        !! Request.objectId (Sample.FunctionCall 3 "sample/throwNull") = None)
   ∨ (Request.type (Sample.FunctionCall 3 "sample/throwNull") = "FunctionCall"
      ∧ _functionsByName (server Sample.world)
          !! Request.function (Sample.FunctionCall 3 "sample/throwNull")
        = Some {| localImplementation := Some (λ _, Throw VNull);
                  ftype := Sample.voidFunction |}
      ∧ Sample.unmarshalExternal (_objectRegistry (server Sample.world))
          (Request.args (Sample.FunctionCall 3 "sample/throwNull"))
          (argumentTypes (ftype {| localImplementation := Some (λ _, Throw VNull);
                                   ftype := Sample.voidFunction |})) = Ok []
      ∧ localImplementation {| localImplementation := Some (λ _, Throw VNull);
                               ftype := Sample.voidFunction |}
        = Some (λ _, Throw VNull)
      ∧ (λ _ : list jsval, @Throw Returned VNull) [] = Throw VNull))
  ∧ ((∃ e, (Sample.handleMessage (Sample.FunctionCall 3 "sample/throwNull")
              Sample.world).1 = Throw e)
     ∧ sent (Sample.handleMessage (Sample.FunctionCall 3 "sample/throwNull")
               Sample.world).2 = sent Sample.world).
Proof.
  match goal with |- ?hypothesis ∧ _ => assert hypothesis as H end.
  { right. repeat split; vm_compute; reflexivity. }
  split; [exact H|].
  exact (request_error_escapes Sample.methodOf Sample.disposeOf
           Sample.marshalExternal Sample.unmarshalExternal
           (Sample.FunctionCall 3 "sample/throwNull") Sample.world _ _ _ H).
Defined.

Lemma rejection_with_null_unanswered_witness :
  (Sample.handleMessage (Sample.FunctionCall 3 "sample/rejectNull") Sample.world).1 = Ok tt
  ∧ sent (Sample.handleMessage (Sample.FunctionCall 3 "sample/rejectNull") Sample.world).2
    = sent Sample.world.
Proof.
  apply (rejection_with_null_unanswered Sample.methodOf Sample.disposeOf
           Sample.marshalExternal Sample.unmarshalExternal
           (Sample.FunctionCall 3 "sample/rejectNull") Sample.world
           {| localImplementation := Some (λ _, Ok (thenable (Rejects VNull)));
              ftype := Sample.promiseOfNumber |}
           (λ _, Ok (thenable (Rejects VNull))) [] (TOther "number"));
    vm_compute; reflexivity.
Defined.

Lemma second_dispose_not_reported_witness :
  let created := (Sample.handleMessage (Sample.NewObject 1 "Counter" [VNum 5])
                    Sample.world).2 in
  let disposed := (Sample.handleMessage (Sample.DisposeObject 2 1) created).2 in
  sent created
  = (sent Sample.world
       ++ [createPromiseMessage
             (Request.requestId (Sample.NewObject 1 "Counter" [VNum 5]))
             (VNum (Z.of_nat (_nextObjectId (_objectRegistry (server Sample.world)))))])%list
  ∧ sent disposed
    = (sent created
         ++ [createPromiseMessage (Request.requestId (Sample.DisposeObject 2 1))
               VUndefined])%list
  ∧ Sample.handleMessage (Sample.DisposeObject 3 1) disposed
    = (Throw (UnknownObject (_nextObjectId (_objectRegistry (server Sample.world)))),
       disposed).
Proof.
  apply (second_dispose_not_reported Sample.methodOf Sample.disposeOf
           Sample.marshalExternal Sample.unmarshalExternal
           (Sample.NewObject 1 "Counter" [VNum 5])
           (Sample.DisposeObject 2 1) (Sample.DisposeObject 3 1) Sample.world
           {| classImplementation := Some Sample.CounterClass;
              definition := Sample.Counter |}
           Sample.CounterClass [VNum 5] (VObject 0) "Counter" VUndefined);
    vm_compute; reflexivity.
Defined.

Lemma disposal_while_suspended_lost_witness :
  ∃ rest suspended disposed resumed,
    handleMessage_await Sample.methodOf Sample.disposeOf Sample.marshalExternal
      Sample.unmarshalExternal (Sample.FunctionCall 3 "sample/ticks") Sample.world
    = (Ok rest, suspended)
    ∧ handleMessage Sample.methodOf Sample.disposeOf Sample.marshalExternal
        Sample.unmarshalExternal (Sample.DisposeObservable 3) suspended
      = (Ok tt, disposed)
    ∧ sent disposed = sent Sample.world
    ∧ server disposed = server Sample.world
    ∧ live disposed = live Sample.world
    ∧ rest disposed = (Ok tt, resumed)
    ∧ responsesTo 3
        (run Sample.methodOf Sample.disposeOf Sample.marshalExternal
           Sample.unmarshalExternal
           (replicate 4 (turn (nextSubscription Sample.world))) resumed)
      = (responsesTo 3 Sample.world
         ++ ((λ d, {| channel := "service_framework3_rpc";
                      type := "ObservableMessage";
                      requestId := 3;
                      hadError := false;
                      payload := result_event (next d) |})
               <$> [VNum 1; VNum 2; VNum 3])
         ++ [{| channel := "service_framework3_rpc";
                type := "ObservableMessage";
                requestId := 3;
                hadError := false;
                payload := result_event completed |}])%list.
Proof.
  apply (disposal_while_suspended_lost Sample.methodOf Sample.disposeOf
           Sample.marshalExternal Sample.unmarshalExternal
           (Sample.FunctionCall 3 "sample/ticks") (Sample.DisposeObservable 3)
           Sample.world (TOther "number")
           {| emits := [VNum 1; VNum 2; VNum 3]; finish := Completes;
              synchronous := false |}
           [VNum 1; VNum 2; VNum 3] 4).
  - left. split; [reflexivity|].
    exists {| localImplementation := functions Sample.module "ticks";
              ftype := Sample.observableOfNumber |},
           (λ _, Ok (observable
              {| emits := [VNum 1; VNum 2; VNum 3]; finish := Completes;
                 synchronous := false |})), [].
    split; [vm_compute; reflexivity|]. repeat split.
  - reflexivity.
  - intros name interfaceName [=].
  - repeat constructor.
  - split; [|split; [|split]].
    + vm_compute; reflexivity.
    + vm_compute. intros i x [=].
    + vm_compute. intros i x [=].
    + vm_compute; reflexivity.
  - reflexivity.
  - reflexivity.
  - simpl. lia.
Defined.

(** The sample stream under the sample traffic: three [next] events and
    the [completed] event, in order. *)
Example ticks_delivered :
  responsesTo 3
    (run Sample.methodOf Sample.disposeOf Sample.marshalExternal Sample.unmarshalExternal
       Sample.traffic
       (perform Sample.methodOf Sample.disposeOf Sample.marshalExternal
          Sample.unmarshalExternal (inbound (Sample.FunctionCall 3 "sample/ticks"))
          Sample.world))
  = [createNextMessage 3 (VNum 1); createNextMessage 3 (VNum 2);
     createNextMessage 3 (VNum 3); createCompletedMessage 3].
Proof. vm_compute. reflexivity. Qed.

(** Cancelled after its first event, it sends no other. *)
Example ticks_cancelled :
  responsesTo 3
    (run Sample.methodOf Sample.disposeOf Sample.marshalExternal Sample.unmarshalExternal
       [turn 0; inbound (Sample.DisposeObservable 3); turn 0; turn 0; turn 0]
       (perform Sample.methodOf Sample.disposeOf Sample.marshalExternal
          Sample.unmarshalExternal (inbound (Sample.FunctionCall 3 "sample/ticks"))
          Sample.world))
  = [createNextMessage 3 (VNum 1)].
Proof. vm_compute. reflexivity. Qed.

(** The sample stream cancelled while its call is suspended: the
    cancellation is handled and the three [next] events and the
    [completed] event are written all the same. *)
Example ticks_cancelled_too_early :
  (let start :=
     handleMessage_await Sample.methodOf Sample.disposeOf Sample.marshalExternal
       Sample.unmarshalExternal (Sample.FunctionCall 3 "sample/ticks") Sample.world in
   let disposed :=
     (handleMessage Sample.methodOf Sample.disposeOf Sample.marshalExternal
        Sample.unmarshalExternal (Sample.DisposeObservable 3) start.2).2 in
   match start.1 with
   | Ok rest =>
       responsesTo 3
         (run Sample.methodOf Sample.disposeOf Sample.marshalExternal
            Sample.unmarshalExternal (replicate 4 (turn 0)) (rest disposed).2)
   | Throw _ => []
   end)
  = [createNextMessage 3 (VNum 1); createNextMessage 3 (VNum 2);
     createNextMessage 3 (VNum 3); createCompletedMessage 3].
Proof. vm_compute. reflexivity. Qed.

(** The scenario of the specification: a [Counter] is created and its id
    is the answer. *)
Example counter_created :
  sent (Sample.handleMessage (Sample.NewObject 1 "Counter" [VNum 5]) Sample.world).2
  = [createPromiseMessage 1 (VNum 1)].
Proof. vm_compute. reflexivity. Qed.

(** A function that returns no stream where one is declared: the error
    event is sent and the subscription entry stays. *)
Example not_a_stream :
  let w := (Sample.handleMessage (Sample.FunctionCall 3 "sample/notAStream")
              Sample.world).2 in
  type <$> sent w = ["ErrorMessage"]
  ∧ _subscriptions (_objectRegistry (server w)) !! 3 = Some 0.
Proof. vm_compute. split; reflexivity. Qed.

(** ** The further properties at work on the sample configuration *)

Lemma at_most_one_response_witness :
  ∃ new,
    sent (Sample.handleMessage (Sample.FunctionCall 3 "sample/ticks") Sample.world).2
    = (sent Sample.world ++ new)%list
    ∧ (length new ≤ 1)%nat.
Proof.
  apply (at_most_one_response Sample.methodOf Sample.disposeOf Sample.marshalExternal
           Sample.unmarshalExternal (Sample.FunctionCall 3 "sample/ticks") Sample.world).
  vm_compute. reflexivity.
Defined.

Lemma rejection_causes_witness :
  let message := Sample.FunctionCall 3 "sample/throwNull" in
  let e := new_TypeError "Cannot read property 'toString' of null" in
  (Sample.handleMessage message Sample.world).1 = Throw e
  ∧ ((trackingIdOfMessage message Sample.world).1 = Throw e
     ∨ ∃ label caught,
         (trackingIdOfMessage message Sample.world).1 = Ok label
         ∧ (tryBlock Sample.methodOf Sample.disposeOf Sample.marshalExternal
              Sample.unmarshalExternal (Request.requestId message) recordingTracker message
              (set_tracked (λ l, (l ++ [startTracking label])%list)
                 (trackingIdOfMessage message Sample.world).2)).1 = Throw caught
         ∧ formatError caught = Throw e).
Proof.
  intros message e.
  assert ((Sample.handleMessage message Sample.world).1 = Throw e) as H
    by (vm_compute; reflexivity).
  split; [exact H|].
  exact (proj1 (rejection_causes Sample.methodOf Sample.disposeOf Sample.marshalExternal
                  Sample.unmarshalExternal message Sample.world e) H).
Defined.

Lemma tracking_is_side_channel_witness :
  let tracked := Sample.handleMessage (Sample.FunctionCall 3 "sample/resolve") Sample.world in
  let untracked :=
    Sample.handleMessage_untracked (Sample.FunctionCall 3 "sample/resolve") Sample.world in
  alike tracked.2 untracked.2
  ∧ match tracked.1, untracked.1 with
    | Ok _, Ok _ => True
    | Throw e1, Throw e2 => e1 = e2
    | _, _ => False
    end.
Proof.
  apply (tracking_is_side_channel Sample.methodOf Sample.disposeOf Sample.marshalExternal
           Sample.unmarshalExternal (Sample.FunctionCall 3 "sample/resolve") Sample.world
           "service-framework:sample/resolve").
  vm_compute. reflexivity.
Defined.

Lemma unknown_function_reported_witness :
  let message := Sample.FunctionCall 3 "sample/missing" in
  let w' := (Sample.handleMessage message Sample.world).2 in
  (Sample.handleMessage message Sample.world).1 = Ok tt
  ∧ (∃ response,
       sent w' = (sent Sample.world ++ [response])%list
       ∧ type response = "ErrorMessage"
       ∧ requestId response = 3
       ∧ hadError response = true)
  ∧ (∃ error,
       tracked w'
       = (tracked Sample.world
            ++ [startTracking ("service-framework:" ++ "sample/missing");
                onError error])%list)
  ∧ server w' = server Sample.world
  ∧ live w' = live Sample.world.
Proof.
  apply (unknown_function_reported Sample.methodOf Sample.disposeOf Sample.marshalExternal
           Sample.unmarshalExternal (Sample.FunctionCall 3 "sample/missing") Sample.world);
    vm_compute; reflexivity.
Defined.

Lemma unknown_interface_reported_witness :
  let message := Sample.NewObject 1 "Nope" [] in
  let w' := (Sample.handleMessage message Sample.world).2 in
  (Sample.handleMessage message Sample.world).1 = Ok tt
  ∧ (∃ response,
       sent w' = (sent Sample.world ++ [response])%list
       ∧ type response = "ErrorMessage"
       ∧ requestId response = 1
       ∧ hadError response = true)
  ∧ (∃ error,
       tracked w'
       = (tracked Sample.world
            ++ [startTracking ("service-framework:new:" ++ "Nope"); onError error])%list)
  ∧ server w' = server Sample.world
  ∧ live w' = live Sample.world.
Proof.
  apply (unknown_interface_reported Sample.methodOf Sample.disposeOf Sample.marshalExternal
           Sample.unmarshalExternal (Sample.NewObject 1 "Nope" []) Sample.world);
    vm_compute; reflexivity.
Defined.

Lemma unknown_method_reported_witness :
  let created :=
    (Sample.handleMessage (Sample.NewObject 1 "Counter" [VNum 5]) Sample.world).2 in
  let message := Sample.MethodCall 2 1 "decrement" in
  let w' := (Sample.handleMessage message created).2 in
  (Sample.handleMessage message created).1 = Ok tt
  ∧ (∃ response,
       sent w' = (sent created ++ [response])%list
       ∧ type response = "ErrorMessage"
       ∧ requestId response = 2
       ∧ hadError response = true)
  ∧ (∃ error,
       tracked w'
       = (tracked created
            ++ [startTracking ("service-framework:" ++ "Counter" ++ "." ++ "decrement");
                onError error])%list)
  ∧ server w' = server created
  ∧ live w' = live created.
Proof.
  apply (unknown_method_reported Sample.methodOf Sample.disposeOf Sample.marshalExternal
           Sample.unmarshalExternal (Sample.MethodCall 2 1 "decrement")
           (Sample.handleMessage (Sample.NewObject 1 "Counter" [VNum 5]) Sample.world).2
           {| object := VObject 0; _interface := "Counter" |});
    vm_compute; reflexivity.
Defined.

Lemma unmarshal_error_reported_witness :
  let refuse : ObjectRegistry → list jsval → list Ty → Result (list jsval) :=
    λ _ _ _, Throw (VStr "bad arguments") in
  let handled :=
    handleMessage Sample.methodOf Sample.disposeOf Sample.marshalExternal refuse
      (Sample.FunctionCall 3 "sample/resolve") Sample.world in
  handled.1 = Ok tt
  ∧ sent handled.2
    = (sent Sample.world
         ++ [{| channel := "service_framework3_rpc"; type := "ErrorMessage";
                requestId := 3; hadError := true;
                payload := error_body (FString "bad arguments") |}])%list
  ∧ tracked handled.2
    = (tracked Sample.world
         ++ [startTracking ("service-framework:" ++ "sample/resolve");
             onError (VStr "bad arguments")])%list
  ∧ server handled.2 = server Sample.world
  ∧ live handled.2 = live Sample.world.
Proof.
  apply (unmarshal_error_reported Sample.methodOf Sample.disposeOf Sample.marshalExternal
           (λ _ _ _, Throw (VStr "bad arguments"))
           (Sample.FunctionCall 3 "sample/resolve") Sample.world
           {| localImplementation := functions Sample.module "resolve";
              ftype := Sample.promiseOfNumber |}
           (VStr "bad arguments"));
    vm_compute; reflexivity.
Defined.

Lemma thrown_error_reported_witness :
  let handled := Sample.handleMessage (Sample.FunctionCall 3 "more/fail") More.world in
  handled.1 = Ok tt
  ∧ sent handled.2
    = (sent More.world
         ++ [{| channel := "service_framework3_rpc"; type := "ErrorMessage";
                requestId := 3; hadError := true;
                payload := error_body (FString "boom") |}])%list
  ∧ tracked handled.2
    = (tracked More.world
         ++ [startTracking ("service-framework:" ++ "more/fail"); onError (VStr "boom")])%list
  ∧ server handled.2 = server More.world
  ∧ live handled.2 = live More.world.
Proof.
  apply (thrown_error_reported Sample.methodOf Sample.disposeOf Sample.marshalExternal
           Sample.unmarshalExternal (Sample.FunctionCall 3 "more/fail") More.world
           {| localImplementation := functions More.module "fail";
              ftype := Sample.voidFunction |}
           (λ _, Throw (VStr "boom")) [] (VStr "boom"));
    vm_compute; reflexivity.
Defined.

Lemma missing_implementation_reported_witness :
  let handled := Sample.handleMessage (Sample.FunctionCall 3 "more/absent") More.world in
  handled.1 = Ok tt
  ∧ (∃ response,
       sent handled.2 = (sent More.world ++ [response])%list
       ∧ type response = "ErrorMessage"
       ∧ requestId response = 3
       ∧ hadError response = true)
  ∧ server handled.2 = server More.world
  ∧ live handled.2 = live More.world.
Proof.
  apply (missing_implementation_reported Sample.methodOf Sample.disposeOf
           Sample.marshalExternal Sample.unmarshalExternal
           (Sample.FunctionCall 3 "more/absent") More.world
           {| localImplementation := None; ftype := Sample.voidFunction |} []);
    vm_compute; reflexivity.
Defined.

Lemma void_call_silent_witness :
  let handled := Sample.handleMessage (Sample.FunctionCall 3 "more/ping") More.world in
  handled.1 = Ok tt
  ∧ sent handled.2 = sent More.world
  ∧ tracked handled.2
    = (tracked More.world
         ++ [startTracking ("service-framework:" ++ "more/ping"); onSuccess])%list
  ∧ server handled.2 = server More.world
  ∧ live handled.2 = live More.world.
Proof.
  apply (void_call_silent Sample.methodOf Sample.disposeOf Sample.marshalExternal
           Sample.unmarshalExternal (Sample.FunctionCall 3 "more/ping") More.world
           {| localImplementation := functions More.module "ping";
              ftype := Sample.voidFunction |}
           (λ _, Ok (plain VUndefined)) [] (plain VUndefined));
    vm_compute; reflexivity.
Defined.

Lemma unknown_return_kind_reported_witness :
  let handled := Sample.handleMessage (Sample.FunctionCall 3 "more/count") More.world in
  handled.1 = Ok tt
  ∧ (∃ response,
       createErrorMessage 3 (new_Error ("Unkown return type " ++ "number" ++ "."))
         = Ok response
       ∧ sent handled.2 = (sent More.world ++ [response])%list)
  ∧ server handled.2 = server More.world
  ∧ live handled.2 = live More.world.
Proof.
  apply (unknown_return_kind_reported Sample.methodOf Sample.disposeOf
           Sample.marshalExternal Sample.unmarshalExternal
           (Sample.FunctionCall 3 "more/count") More.world
           {| localImplementation := functions More.module "count";
              ftype := More.numberFunction |}
           (λ _, Ok (plain (VNum 1))) [] (plain (VNum 1)));
    try (vm_compute; reflexivity).
  simpl. rewrite !not_elem_of_cons.
  repeat split; try discriminate. apply not_elem_of_nil.
Defined.

Lemma promise_call_resolved_witness :
  let handled := Sample.handleMessage (Sample.FunctionCall 3 "sample/resolve") Sample.world in
  handled.1 = Ok tt
  ∧ sent handled.2 = (sent Sample.world ++ [createPromiseMessage 3 (VNum 6)])%list
  ∧ tracked handled.2
    = (tracked Sample.world
         ++ [startTracking ("service-framework:" ++ "sample/resolve"); onSuccess])%list
  ∧ server handled.2 = server Sample.world
  ∧ live handled.2 = live Sample.world.
Proof.
  apply (promise_call_resolved Sample.methodOf Sample.disposeOf Sample.marshalExternal
           Sample.unmarshalExternal (Sample.FunctionCall 3 "sample/resolve") Sample.world
           {| localImplementation := functions Sample.module "resolve";
              ftype := Sample.promiseOfNumber |}
           (λ _, Ok (thenable (Resolves (VNum 6)))) [] (TOther "number")
           (VNum 6) (VNum 6) Sample.world);
    vm_compute; reflexivity.
Defined.

Lemma promise_call_rejected_witness :
  let handled := Sample.handleMessage (Sample.FunctionCall 3 "more/reject") More.world in
  handled.1 = Ok tt
  ∧ sent handled.2
    = (sent More.world
         ++ [{| channel := "service_framework3_rpc"; type := "ErrorMessage";
                requestId := 3; hadError := true;
                payload := error_body (FString "no") |}])%list
  ∧ tracked handled.2
    = (tracked More.world
         ++ [startTracking ("service-framework:" ++ "more/reject"); onError (VStr "no")])%list
  ∧ server handled.2 = server More.world
  ∧ live handled.2 = live More.world.
Proof.
  apply (promise_call_rejected Sample.methodOf Sample.disposeOf Sample.marshalExternal
           Sample.unmarshalExternal (Sample.FunctionCall 3 "more/reject") More.world
           {| localImplementation := functions More.module "reject";
              ftype := Sample.promiseOfNumber |}
           (λ _, Ok (thenable (Rejects (VStr "no")))) [] (TOther "number") (VStr "no"));
    vm_compute; reflexivity.
Defined.

Lemma promise_expected_reported_witness :
  let handled := Sample.handleMessage (Sample.FunctionCall 3 "more/plain") More.world in
  let error :=
    new_Error "Expected a Promise, but the function returned something else." in
  handled.1 = Ok tt
  ∧ (∃ response,
       createErrorMessage 3 error = Ok response
       ∧ sent handled.2 = (sent More.world ++ [response])%list)
  ∧ tracked handled.2
    = (tracked More.world
         ++ [startTracking ("service-framework:" ++ "more/plain"); onError error])%list
  ∧ server handled.2 = server More.world
  ∧ live handled.2 = live More.world.
Proof.
  apply (promise_expected_reported Sample.methodOf Sample.disposeOf Sample.marshalExternal
           Sample.unmarshalExternal (Sample.FunctionCall 3 "more/plain") More.world
           {| localImplementation := functions More.module "plain";
              ftype := Sample.promiseOfNumber |}
           (λ _, Ok (plain (VNum 1))) [] (TOther "number") (plain (VNum 1)));
    vm_compute; reflexivity.
Defined.


Lemma dispose_observable_silent_witness :
  let started := More.ending completion in
  let handled := Sample.handleMessage (Sample.DisposeObservable 3) started in
  handled.1 = Ok tt
  ∧ sent handled.2 = sent started
  ∧ _subscriptions (_objectRegistry (server handled.2)) !! 3 = None
  ∧ (∀ subscription,
       _subscriptions (_objectRegistry (server started)) !! 3 = Some subscription →
       live handled.2 !! subscription = None)
  ∧ (_subscriptions (_objectRegistry (server started)) !! 3 = None →
     server handled.2 = server started ∧ live handled.2 = live started).
Proof.
  apply (dispose_observable_silent Sample.methodOf Sample.disposeOf Sample.marshalExternal
           Sample.unmarshalExternal (Sample.DisposeObservable 3) (More.ending completion)).
  reflexivity.
Defined.

Lemma dispose_observable_twice_witness :
  let w1 := (Sample.handleMessage (Sample.DisposeObservable 3) (More.ending completion)).2 in
  let w2 := (Sample.handleMessage (Sample.DisposeObservable 3) w1).2 in
  server w2 = server w1 ∧ live w2 = live w1 ∧ sent w2 = sent (More.ending completion).
Proof.
  apply (dispose_observable_twice Sample.methodOf Sample.disposeOf Sample.marshalExternal
           Sample.unmarshalExternal (Sample.DisposeObservable 3) (Sample.DisposeObservable 3)
           (More.ending completion));
    reflexivity.
Defined.

Lemma completion_removes_entry_witness :
  let delivered := deliver Sample.marshalExternal 0 (More.ending completion) in
  delivered.1 = Ok tt
  ∧ sent delivered.2 = (sent (More.ending completion) ++ [createCompletedMessage 3])%list
  ∧ live delivered.2 !! 0 = None
  ∧ _subscriptions (_objectRegistry (server delivered.2)) !! 3 = None.
Proof.
  apply (completion_removes_entry Sample.marshalExternal 0
           {| observerId := 3; elementType := TOther "number"; pending := [completion] |}
           [] (More.ending completion));
    vm_compute; reflexivity.
Defined.

Lemma failure_removes_entry_witness :
  let broken := More.ending (failure (VStr "broken")) in
  let delivered := deliver Sample.marshalExternal 0 broken in
  delivered.1 = Ok tt
  ∧ sent delivered.2
    = (sent broken
         ++ [{| channel := "service_framework3_rpc"; type := "ErrorMessage";
                requestId := 3; hadError := true;
                payload := error_body (FString "broken") |}])%list
  ∧ live delivered.2 !! 0 = None
  ∧ _subscriptions (_objectRegistry (server delivered.2)) !! 3 = None.
Proof.
  apply (failure_removes_entry Sample.marshalExternal 0
           {| observerId := 3; elementType := TOther "number";
              pending := [failure (VStr "broken")] |}
           [] (VStr "broken") _ (More.ending (failure (VStr "broken"))));
    vm_compute; reflexivity.
Defined.

Lemma registration_keeps_functions_witness :
  _functionsByName
    (server (addServices Sample.registerTypeCheck Sample.registerAliasCheck
               [More.service; Sample.service] Sample.world).2) !! "sample/resolve"
  = Some {| localImplementation := functions Sample.module "resolve";
            ftype := Sample.promiseOfNumber |}.
Proof.
  apply (registration_keeps_functions Sample.registerTypeCheck Sample.registerAliasCheck
           [More.service; Sample.service] Sample.world "sample/resolve").
  vm_compute. reflexivity.
Defined.

Lemma addService_registers_functions_witness :
  _functionsByName
    (server (addService Sample.registerTypeCheck Sample.registerAliasCheck
               More.service Sample.world).2) !! (serviceName More.service ++ "/" ++ "count")
  = Some {| localImplementation := functions More.module "count";
            ftype := More.numberFunction |}.
Proof.
  apply (addService_registers_functions Sample.registerTypeCheck Sample.registerAliasCheck
           More.service Sample.world
           [interface More.Shape;
            function "ping" Sample.voidFunction;
            function "fail" Sample.voidFunction;
            function "absent" Sample.voidFunction;
            function "count" More.numberFunction;
            function "reject" Sample.promiseOfNumber;
            function "plain" Sample.promiseOfNumber]
           More.module "count" More.numberFunction);
    [reflexivity | reflexivity | vm_compute; reflexivity | rewrite !elem_of_cons; auto 10].
Defined.

Lemma addService_registers_interfaces_witness :
  let w' := (addService Sample.registerTypeCheck Sample.registerAliasCheck
               More.service Sample.world).2 in
  _namedMarshallers (_typeRegistry (server w')) !! interfaceName More.Shape
  = Some (interfaceMarshaller (interfaceName More.Shape))
  ∧ ∃ last, interface last ∈ [interface More.Shape;
                              function "ping" Sample.voidFunction;
                              function "fail" Sample.voidFunction;
                              function "absent" Sample.voidFunction;
                              function "count" More.numberFunction;
                              function "reject" Sample.promiseOfNumber;
                              function "plain" Sample.promiseOfNumber]
            ∧ interfaceName last = interfaceName More.Shape
            ∧ _classesByName (server w') !! interfaceName More.Shape
              = Some {| classImplementation := classes More.module (interfaceName More.Shape);
                        definition := last |}.
Proof.
  apply (addService_registers_interfaces Sample.registerTypeCheck Sample.registerAliasCheck
           More.service Sample.world _ More.module More.Shape);
    [reflexivity | reflexivity | vm_compute; reflexivity | rewrite !elem_of_cons; auto 10].
Defined.

Lemma addService_registers_statics_witness :
  ∃ class,
    classes More.module (interfaceName More.Shape) = Some class
    ∧ _functionsByName
        (server (addService Sample.registerTypeCheck Sample.registerAliasCheck
                   More.service Sample.world).2) !! (interfaceName More.Shape ++ "/" ++ "unit")
      = Some {| localImplementation := statics class "unit"; ftype := Sample.voidFunction |}.
Proof.
  apply (addService_registers_statics Sample.registerTypeCheck Sample.registerAliasCheck
           More.service Sample.world
           [interface More.Shape;
            function "ping" Sample.voidFunction;
            function "fail" Sample.voidFunction;
            function "absent" Sample.voidFunction;
            function "count" More.numberFunction;
            function "reject" Sample.promiseOfNumber;
            function "plain" Sample.promiseOfNumber]
           More.module More.Shape "unit" Sample.voidFunction);
    [ reflexivity | reflexivity | vm_compute; reflexivity
    | rewrite !elem_of_cons; auto 10
    | simpl; rewrite !elem_of_cons; auto ].
Defined.

Lemma addServices_stops_at_failure_witness :
  addServices Sample.registerTypeCheck Sample.registerAliasCheck
    ([More.service] ++ Sample.service :: [More.service]) Sample.world
  = (Throw (new_Error "Duplicate RPC function: sample/throwNull"),
     (addService Sample.registerTypeCheck Sample.registerAliasCheck Sample.service
        (addServices Sample.registerTypeCheck Sample.registerAliasCheck
           [More.service] Sample.world).2).2).
Proof.
  apply (addServices_stops_at_failure Sample.registerTypeCheck Sample.registerAliasCheck
           [More.service] [More.service] Sample.service Sample.world
           (new_Error "Duplicate RPC function: sample/throwNull"));
    vm_compute; reflexivity.
Defined.

Lemma method_call_resolved_witness :
  let respond : jsval → string → option Function_ :=
    λ _ _, Some (λ _, Ok (thenable (Resolves (VNum 1)))) in
  let created :=
    (Sample.handleMessage (Sample.NewObject 1 "Counter" [VNum 5]) Sample.world).2 in
  let handled :=
    handleMessage respond Sample.disposeOf Sample.marshalExternal Sample.unmarshalExternal
      (Sample.MethodCall 2 1 "increment") created in
  handled.1 = Ok tt
  ∧ sent handled.2 = (sent created ++ [createPromiseMessage 2 (VNum 1)])%list
  ∧ tracked handled.2
    = (tracked created
         ++ [startTracking ("service-framework:" ++ "Counter" ++ "." ++ "increment");
             onSuccess])%list
  ∧ server handled.2 = server created
  ∧ live handled.2 = live created.
Proof.
  apply (method_call_resolved
           (λ _ _, Some (λ _, Ok (thenable (Resolves (VNum 1)))))
           Sample.disposeOf Sample.marshalExternal Sample.unmarshalExternal
           (Sample.MethodCall 2 1 "increment")
           (Sample.handleMessage (Sample.NewObject 1 "Counter" [VNum 5]) Sample.world).2
           {| object := VObject 0; _interface := "Counter" |}
           {| classImplementation := Some Sample.CounterClass;
              definition := Sample.Counter |}
           {| argumentTypes := []; returnType := TPromise (TOther "number") |}
           (λ _, Ok (thenable (Resolves (VNum 1)))) [] (TOther "number")
           (VNum 1) (VNum 1)
           (Sample.handleMessage (Sample.NewObject 1 "Counter" [VNum 5]) Sample.world).2);
    vm_compute; reflexivity.
Defined.

Lemma unused_request_unsubscribed_witness :
  let w := run Sample.methodOf Sample.disposeOf Sample.marshalExternal
             Sample.unmarshalExternal
             (inbound (Sample.FunctionCall 3 "sample/ticks") :: Sample.traffic)
             (constructor Sample.registerTypeCheck Sample.registerAliasCheck
                [Sample.service] emptyWorld).2 in
  _subscriptions (_objectRegistry (server w)) !! 5 = None
  ∧ map_Forall (λ _ s, observerId s ≠ 5) (live w).
Proof.
  apply (unused_request_unsubscribed Sample.registerTypeCheck Sample.registerAliasCheck
           Sample.methodOf Sample.disposeOf Sample.marshalExternal Sample.unmarshalExternal
           [Sample.service]
           (inbound (Sample.FunctionCall 3 "sample/ticks") :: Sample.traffic) 5).
  unfold others, Sample.traffic.
  repeat (apply Forall_cons; split); try apply Forall_nil; try exact I; simpl; lia.
Defined.
